(** * Voice capture and transcription subsystem

    A shallow embedding of the client-side voice subsystem:

    - [src/utils/VoiceRecorder.ts]: class [VoiceRecorder] and
      [convertBlobToBase64];
    - the module imported as [@/utils/SpeechRecognition]: class
      [ClientSpeechRecognition];
    - [src/components/ClientMicrophoneButton.tsx]: the component-local
      [convertBlobToBase64] and [MicrophoneButton.handleStopRecording].

    The browser is the environment.  Objects the code shares with it
    (media streams, recorders, timers, promises) live in a store and are
    referred to by their index; closures assigned to handler fields are
    defunctionalised into a constructor that carries what the closure
    captured.  An [await] is modelled atomically: the outcome of the
    awaited operation is an input of the function. *)

From Stdlib Require Import String Ascii NArith Lia Decimal DecimalNat.
From stdpp Require Import base option list.

Local Open Scope N_scope.
Local Open Scope nat_scope.

(* ===================================================================== *)
(** ** JavaScript values *)
(* ===================================================================== *)

(** A JavaScript string is a sequence of UTF-16 code units. *)
Definition jsstring := list N.

Definition js (s : string) : jsstring :=
  N_of_ascii <$> list_ascii_of_string s.

(** [s === t] on strings. *)
Definition str_eqb (s t : jsstring) : bool := bool_decide (s = t).

(** Truthiness of a string: every string but [''] is truthy. *)
Definition truthy (s : jsstring) : bool :=
  match s with [] => false | _ :: _ => true end.

(** [a || b] on strings. *)
Definition str_or (a b : jsstring) : jsstring := if truthy a then a else b.

(** ECMAScript [WhiteSpace] and [LineTerminator] code points, the ones
    [String.prototype.trim] strips. *)
Definition isWhiteSpace (c : N) : bool :=
  ((c =? 9) || (c =? 10) || (c =? 11) || (c =? 12) || (c =? 13)
   || (c =? 32) || (c =? 160) || (c =? 5760)
   || ((8192 <=? c) && (c <=? 8202))
   || (c =? 8232) || (c =? 8233) || (c =? 8239) || (c =? 8287)
   || (c =? 12288) || (c =? 65279))%N.

Fixpoint trimStart (s : jsstring) : jsstring :=
  match s with
  | c :: s' => if isWhiteSpace c then trimStart s' else s
  | [] => []
  end.

Definition trimEnd (s : jsstring) : jsstring := rev (trimStart (rev s)).

(** [s.trim()] *)
Definition trim (s : jsstring) : jsstring := trimEnd (trimStart s).

(** [s.startsWith(p)] and [s.includes(p)]. *)
Fixpoint startsWith (p s : jsstring) : bool :=
  match p, s with
  | [], _ => true
  | _ :: _, [] => false
  | a :: p', b :: s' => (a =? b)%N && startsWith p' s'
  end.

Fixpoint includes (p s : jsstring) : bool :=
  startsWith p s || match s with [] => false | _ :: s' => includes p s' end.

(** [s.split(',')]: the piece before the first separator, and the pieces
    after it; the array is never empty. *)
Fixpoint split_pieces (sep : N) (s : jsstring) : jsstring * list jsstring :=
  match s with
  | [] => ([], [])
  | c :: s' =>
      let '(piece, rest) := split_pieces sep s' in
      if (c =? sep)%N then ([], piece :: rest) else (c :: piece, rest)
  end.

Definition split (sep : N) (s : jsstring) : list jsstring :=
  let '(piece, rest) := split_pieces sep s in piece :: rest.

(** An [Error] object, as far as the code looks at it. *)
Record JsError := mkError { name : jsstring; message : jsstring }.

(** [new Error(msg)] *)
Definition Error (msg : jsstring) : JsError := mkError (js "Error") msg.

(** What a [throw] or a rejected promise carries: an [Error], or a value
    for which [instanceof Error] is false. *)
Inductive Thrown :=
  | ThrowError (e : JsError)
  | ThrowValue.

(** What a call either returns or throws; for an [async] function, what
    its promise is resolved or rejected with. *)
Inductive Outcome (A : Type) :=
  | Returned (v : A)
  | Threw (e : Thrown).
Arguments Returned {A} v.
Arguments Threw {A} e.

(** The state of a promise.  [resolve] and [reject] act on a pending
    promise only. *)
Inductive PromiseState (A : Type) :=
  | Pending
  | Resolved (v : A)
  | Rejected (e : JsError).
Arguments Pending {A}.
Arguments Resolved {A} v.
Arguments Rejected {A} e.

Definition resolve {A} (v : A) (p : PromiseState A) : PromiseState A :=
  match p with Pending => Resolved v | _ => p end.

Definition reject {A} (e : JsError) (p : PromiseState A) : PromiseState A :=
  match p with Pending => Rejected e | _ => p end.

Definition settled {A} (p : PromiseState A) : bool :=
  match p with Pending => false | _ => true end.

(** A [Blob]: its bytes and its MIME type. *)
Record Blob := mkBlob { bytes : list Byte.byte; type : jsstring }.

Definition size (b : Blob) : nat := length (bytes b).

(** [new Blob(parts, { type })] *)
Definition newBlob (parts : list Blob) (ty : jsstring) : Blob :=
  mkBlob (concat (bytes <$> parts)) ty.

(** A timer made by [setTimeout]: its delay in milliseconds and whether
    it is still armed (neither fired nor cleared). *)
Record Timer (A : Type) := mkTimer { delay : N; armed : bool; action : A }.
Arguments mkTimer {A}.
Arguments delay {A}.
Arguments armed {A}.
Arguments action {A}.

Definition disarm {A} (t : Timer A) : Timer A := mkTimer (delay t) false (action t).

(* ===================================================================== *)
(** ** [VoiceRecorder] ([src/utils/VoiceRecorder.ts]) *)
(* ===================================================================== *)

Module VoiceRecorder.

(** *** Browser objects *)

Inductive TrackState := live | ended.

Record MediaStreamTrack := mkTrack { label : jsstring; readyState : TrackState }.

(** A [MediaStream], as [getTracks()] shows it. *)
Definition MediaStream := list MediaStreamTrack.

(** [track.stop()] *)
Definition track_stop (t : MediaStreamTrack) : MediaStreamTrack :=
  mkTrack (label t) ended.

Inductive RecordingState := inactive | recording | paused.

(** The closures the class assigns to [onerror] and [onstop].  Both
    handlers of [stopRecording] capture the timer and the [resolve] and
    [reject] of the promise that call made. *)
Inductive ErrorHandler :=
  | onerror_start                              (* lines 59-62 *)
  | onerror_stop (timeout : nat) (promise : nat). (* lines 133-138 *)

Inductive StopHandler :=
  | onstop_stop (timeout : nat) (promise : nat).  (* lines 107-131 *)

Record MediaRecorder := mkRecorder {
  rec_stream : nat;
  mimeType : jsstring;
  state : RecordingState;
  timeslice : option N;
  ondataavailable : bool;    (* lines 52-57, the one closure ever assigned *)
  onerror : option ErrorHandler;
  onstart : bool;            (* lines 64-66 *)
  onstop : option StopHandler
}.

(** What the timer of [stopRecording] does when it fires (lines 101-105):
    it captured [reject] of the promise. *)
Inductive TimerAction := stop_timeout (promise : nat).

(** One constructor for each [console] call of the class. *)
Inductive LogLine :=
  | LogRequesting                        (* 'Requesting microphone access...' *)
  | LogGranted                           (* 'Microphone access granted' *)
  | LogSelected (mime : jsstring)        (* 'Selected MIME type:' *)
  | LogDataAvailable (sz : nat)          (* 'Audio data available, size:' *)
  | LogRecorderError                     (* 'MediaRecorder error:' *)
  | LogStarted                           (* 'MediaRecorder started successfully' *)
  | LogRecordingStarted                  (* 'Recording started' *)
  | LogStartFailed (e : Thrown)          (* 'Error starting recording:' *)
  | LogStopping                          (* 'Stopping recording...' *)
  | LogStopTimeout                       (* 'Recording stop timeout' *)
  | LogStopped (chunks : nat)            (* 'Recording stopped, chunks:' *)
  | LogBlobCreated (sz : nat)            (* 'Audio blob created, size:' *)
  | LogStopError                         (* 'Error during recording stop:' *)
  | LogNotRecording (s : RecordingState) (* 'MediaRecorder is not in recording state:' *)
  | LogCleaningUp                        (* 'Cleaning up recorder...' *)
  | LogTrackStopped (lbl : jsstring).    (* 'Track stopped:' *)

(** *** The store

    The three fields of the [VoiceRecorder] instance, and the browser
    objects it has made so far.  [mediaRecorder] and [stream] hold
    references: indices into [recorders] and [streams]. *)
Record World := mkWorld {
  mediaRecorder : option nat;
  audioChunks : list Blob;
  stream : option nat;
  streams : list MediaStream;
  recorders : list MediaRecorder;
  timers : list (Timer TimerAction);
  promises : list (PromiseState Blob);
  console : list LogLine;
  uncaught : list JsError
}.

(** A new [VoiceRecorder()] in a browser that holds none of its objects. *)
Definition initial : World := mkWorld None [] None [] [] [] [] [] [].

Definition set_mediaRecorder (v : option nat) (w : World) : World :=
  mkWorld v (audioChunks w) (stream w) (streams w) (recorders w) (timers w)
          (promises w) (console w) (uncaught w).
Definition set_audioChunks (v : list Blob) (w : World) : World :=
  mkWorld (mediaRecorder w) v (stream w) (streams w) (recorders w) (timers w)
          (promises w) (console w) (uncaught w).
Definition set_stream (v : option nat) (w : World) : World :=
  mkWorld (mediaRecorder w) (audioChunks w) v (streams w) (recorders w) (timers w)
          (promises w) (console w) (uncaught w).
Definition set_streams (v : list MediaStream) (w : World) : World :=
  mkWorld (mediaRecorder w) (audioChunks w) (stream w) v (recorders w) (timers w)
          (promises w) (console w) (uncaught w).
Definition set_recorders (v : list MediaRecorder) (w : World) : World :=
  mkWorld (mediaRecorder w) (audioChunks w) (stream w) (streams w) v (timers w)
          (promises w) (console w) (uncaught w).
Definition set_timers (v : list (Timer TimerAction)) (w : World) : World :=
  mkWorld (mediaRecorder w) (audioChunks w) (stream w) (streams w) (recorders w) v
          (promises w) (console w) (uncaught w).
Definition set_promises (v : list (PromiseState Blob)) (w : World) : World :=
  mkWorld (mediaRecorder w) (audioChunks w) (stream w) (streams w) (recorders w)
          (timers w) v (console w) (uncaught w).
Definition set_console (v : list LogLine) (w : World) : World :=
  mkWorld (mediaRecorder w) (audioChunks w) (stream w) (streams w) (recorders w)
          (timers w) (promises w) v (uncaught w).
Definition set_uncaught (v : list JsError) (w : World) : World :=
  mkWorld (mediaRecorder w) (audioChunks w) (stream w) (streams w) (recorders w)
          (timers w) (promises w) (console w) v.

(** [console.log], [console.warn] and [console.error]. *)
Definition log (l : LogLine) (w : World) : World :=
  set_console (console w ++ [l]) w.

(** [clearTimeout(t)] *)
Definition clearTimeout (t : nat) (w : World) : World :=
  set_timers (alter disarm t (timers w)) w.

(** [resolve(v)] and [reject(e)] of promise [p]. *)
Definition resolve_promise (p : nat) (v : Blob) (w : World) : World :=
  set_promises (alter (resolve v) p (promises w)) w.
Definition reject_promise (p : nat) (e : JsError) (w : World) : World :=
  set_promises (alter (reject e) p (promises w)) w.

(** The recorder [this.mediaRecorder] refers to. *)
Definition current_recorder (w : World) : option MediaRecorder :=
  r ← mediaRecorder w; recorders w !! r.

(** *** The environment of [startRecording] *)

Record Constraints := mkConstraints {
  sampleRate : N;
  channelCount : N;
  echoCancellation : bool;
  noiseSuppression : bool;
  autoGainControl : bool
}.

(** [navigator.mediaDevices.getUserMedia] grants a stream, given by its
    tracks, or rejects; [MediaRecorder.isTypeSupported] answers for each
    MIME type. *)
Record Env := mkEnv {
  getUserMedia : Constraints -> Outcome MediaStream;
  isTypeSupported : jsstring -> bool
}.

(** *** [cleanup] (lines 151-162) *)

Definition cleanup (w : World) : World :=
  let w := log LogCleaningUp w in
  let w :=
    match stream w with
    | Some s =>
        (* getTracks().forEach: stop each track, log its label *)
        let tracks := default [] (streams w !! s) in
        let w := set_streams (alter (fmap track_stop) s (streams w)) w in
        let w := set_console (console w ++ (LogTrackStopped ∘ label <$> tracks)) w in
        set_stream None w
    | None => w
    end in
  let w := set_mediaRecorder None w in
  set_audioChunks [] w.

(** *** [startRecording] (lines 7-90) *)

Definition constraints : Constraints := mkConstraints 44100%N 1%N true true true.

Definition mimeTypes : list jsstring :=
  [ js "audio/webm;codecs=opus"; js "audio/webm"; js "audio/mp4";
    js "audio/mpeg"; js "audio/wav" ].

(** The loop of lines 33-40: [selected] is assigned at the first
    supported candidate, where the loop breaks. *)
Fixpoint select_mime (supported : jsstring -> bool) (candidates : list jsstring)
    (selected : jsstring) (w : World) : jsstring * World :=
  match candidates with
  | [] => (selected, w)
  | mimeType :: rest =>
      if supported mimeType then (mimeType, log (LogSelected mimeType) w)
      else select_mime supported rest selected w
  end.

(** The [catch] block, lines 70-89. *)
Definition classify (error : Thrown) : JsError :=
  match error with
  | ThrowError e =>
      if str_eqb (name e) (js "NotAllowedError") then
        Error (js "Microphone access denied. Please allow microphone permissions in your browser settings and try again.")
      else if str_eqb (name e) (js "NotFoundError") then
        Error (js "No microphone found. Please connect a microphone and try again.")
      else if str_eqb (name e) (js "NotReadableError") then
        Error (js "Microphone is already in use by another application. Please close other applications using the microphone and try again.")
      else if str_eqb (name e) (js "OverconstrainedError") then
        Error (js "Microphone does not support the required audio format. Please try with a different microphone.")
      else
        Error (js "Failed to access microphone: " ++ message e)
  | ThrowValue => Error (js "Failed to access microphone: Unknown error")
  end.

Definition start_catch (error : Thrown) (w : World) : World * Outcome unit :=
  let w := log (LogStartFailed error) w in
  let w := cleanup w in
  (w, Threw (ThrowError (classify error))).

Definition no_supported_format : JsError :=
  Error (js "No supported audio format found on this device").

Definition startRecording (env : Env) (w : World) : World * Outcome unit :=
  let w := log LogRequesting w in
  match getUserMedia env constraints with
  | Threw error => start_catch error w
  | Returned tracks =>
      (* this.stream = await ... *)
      let s := length (streams w) in
      let w := set_streams (streams w ++ [tracks]) w in
      let w := set_stream (Some s) w in
      let w := log LogGranted w in
      let '(selectedMimeType, w) := select_mime (isTypeSupported env) mimeTypes [] w in
      if negb (truthy selectedMimeType) then
        start_catch (ThrowError no_supported_format) w
      else
        (* this.mediaRecorder = new MediaRecorder(this.stream, { mimeType });
           the three handlers are assigned and start(1000) is called *)
        let r := length (recorders w) in
        let recorder :=
          mkRecorder s selectedMimeType recording (Some 1000%N)
                     true (Some onerror_start) true None in
        let w := set_recorders (recorders w ++ [recorder]) w in
        let w := set_mediaRecorder (Some r) w in
        let w := set_audioChunks [] w in
        let w := log LogRecordingStarted w in
        (w, Returned tt)
  end.

(** *** [stopRecording] (lines 92-149) *)

Definition set_state (s : RecordingState) (m : MediaRecorder) : MediaRecorder :=
  mkRecorder (rec_stream m) (mimeType m) s (timeslice m)
             (ondataavailable m) (onerror m) (onstart m) (onstop m).

Definition set_stop_handlers (t p : nat) (m : MediaRecorder) : MediaRecorder :=
  mkRecorder (rec_stream m) (mimeType m) (state m) (timeslice m)
             (ondataavailable m) (Some (onerror_stop t p)) (onstart m)
             (Some (onstop_stop t p)).

Definition stop_timeout_delay : N := 5000%N.

(** The promise the call returns is the one appended to [promises]; its
    index is returned. *)
Definition stopRecording (w : World) : World * nat :=
  let p := length (promises w) in
  let w := set_promises (promises w ++ [Pending]) w in
  match mediaRecorder w with
  | None => (reject_promise p (Error (js "No recording in progress")) w, p)
  | Some r =>
      let w := log LogStopping w in
      let t := length (timers w) in
      let w := set_timers (timers w ++ [mkTimer stop_timeout_delay true (stop_timeout p)]) w in
      let w := set_recorders (alter (set_stop_handlers t p) r (recorders w)) w in
      match state <$> recorders w !! r with
      | Some recording =>
          (* this.mediaRecorder.stop() *)
          (set_recorders (alter (set_state inactive) r (recorders w)) w, p)
      | other =>
          let w := clearTimeout t w in
          let w := log (LogNotRecording (default inactive other)) w in
          let w := cleanup w in
          (reject_promise p (Error (js "Recording is not active")) w, p)
      end
  end.

(** *** [isRecording] (lines 164-166) *)

Definition isRecording (w : World) : bool :=
  match state <$> current_recorder w with
  | Some recording => true
  | _ => false
  end.

(** *** Events

    What the browser does to the objects of the store: it fires an event
    at a recorder, or a timer expires.  [event.error?.message] is all the
    handlers read of an error event. *)
Inductive Event :=
  | EvDataAvailable (r : nat) (data : Blob)
  | EvError (r : nat) (error_message : option jsstring)
  | EvStart (r : nat)
  | EvStop (r : nat)
  | EvTimeout (t : nat).

(** [ondataavailable], lines 52-57. *)
Definition on_dataavailable (data : Blob) (w : World) : World :=
  let w := log (LogDataAvailable (size data)) w in
  if 0 <? size data then set_audioChunks (audioChunks w ++ [data]) w else w.

(** ['...' + x] for an [x] that may be [undefined]. *)
Definition to_string (x : option jsstring) : jsstring := default (js "undefined") x.

(** [onerror] as [startRecording] assigns it, lines 59-62.  The [throw]
    leaves an event handler: nothing catches it.  [+] binds tighter
    than [||]. *)
Definition on_error_start (error_message : option jsstring) (w : World) : World :=
  let w := log LogRecorderError w in
  let e := Error (str_or (js "Recording failed: " ++ to_string error_message)
                         (js "Unknown error")) in
  set_uncaught (uncaught w ++ [e]) w.

(** [onerror] as [stopRecording] assigns it, lines 133-138. *)
Definition on_error_stop (t p : nat) (error_message : option jsstring) (w : World) : World :=
  let w := clearTimeout t w in
  let w := log LogStopError w in
  let w := cleanup w in
  reject_promise p
    (Error (js "Recording failed: "
            ++ str_or (default [] error_message) (js "Unknown error"))) w.

(** [onstop], lines 107-131. *)
Definition on_stop (t p : nat) (w : World) : World :=
  let w := clearTimeout t w in
  let w := log (LogStopped (length (audioChunks w))) w in
  if length (audioChunks w) =? 0 then
    let w := cleanup w in
    reject_promise p
      (Error (js "No audio data recorded. Please try speaking louder or check your microphone.")) w
  else
    let audioBlob :=
      newBlob (audioChunks w)
              (str_or (default [] (mimeType <$> current_recorder w)) (js "audio/webm")) in
    let w := log (LogBlobCreated (size audioBlob)) w in
    if size audioBlob =? 0 then
      let w := cleanup w in
      reject_promise p (Error (js "Empty audio recording. Please try again.")) w
    else
      let w := cleanup w in
      resolve_promise p audioBlob w.

(** The callback of [setTimeout], lines 101-105. *)
Definition on_timeout (a : TimerAction) (w : World) : World :=
  match a with
  | stop_timeout p =>
      let w := log LogStopTimeout w in
      let w := cleanup w in
      reject_promise p (Error (js "Recording stop timeout - please try again")) w
  end.

(** The browser inactivates a recorder before it fires [error] or [stop]
    at it (MediaStream Recording, section 2.3). *)
Definition inactivate (r : nat) (w : World) : World :=
  set_recorders (alter (set_state inactive) r (recorders w)) w.

(** One event: the handler assigned to the object, if any, runs. *)
Definition fire (ev : Event) (w : World) : World :=
  match ev with
  | EvDataAvailable r data =>
      match ondataavailable <$> recorders w !! r with
      | Some true => on_dataavailable data w
      | _ => w
      end
  | EvError r error_message =>
      let w := inactivate r w in
      match recorders w !! r ≫= onerror with
      | Some onerror_start => on_error_start error_message w
      | Some (onerror_stop t p) => on_error_stop t p error_message w
      | None => w
      end
  | EvStart r =>
      match onstart <$> recorders w !! r with
      | Some true => log LogStarted w
      | _ => w
      end
  | EvStop r =>
      let w := inactivate r w in
      match recorders w !! r ≫= onstop with
      | Some (onstop_stop t p) => on_stop t p w
      | None => w
      end
  | EvTimeout t =>
      match timers w !! t with
      | Some tm =>
          if armed tm then on_timeout (action tm) (clearTimeout t w) else w
      | None => w
      end
  end.

Definition run (evs : list Event) (w : World) : World := foldl (flip fire) w evs.

(** *** Observations *)

(** How often [cleanup] has run, and how often [track.stop()] was
    called: each leaves its line on the console. *)
Definition is_cleanup (l : LogLine) : bool :=
  match l with LogCleaningUp => true | _ => false end.

Definition is_track_stop (l : LogLine) : bool :=
  match l with LogTrackStopped _ => true | _ => false end.

Definition cleanup_runs (w : World) : nat := length (List.filter is_cleanup (console w)).

Definition track_stops (w : World) : nat := length (List.filter is_track_stop (console w)).

(** The first supported candidate in preference order. *)
Definition first_supported (env : Env) : option jsstring :=
  List.find (isTypeSupported env) mimeTypes.

(** Events that reach neither [onstop] nor [onerror] nor a timer. *)
Definition quiet (ev : Event) : bool :=
  match ev with
  | EvDataAvailable _ _ | EvStart _ => true
  | _ => false
  end.

(** [w'] differs from [w] in the chunk sequence and the console at
    most. *)
Definition same_objects (w w' : World) : Prop :=
  mediaRecorder w' = mediaRecorder w /\ stream w' = stream w
  /\ streams w' = streams w /\ recorders w' = recorders w
  /\ timers w' = timers w /\ promises w' = promises w
  /\ uncaught w' = uncaught w.

(** *** Sample inputs *)

Definition microphone : MediaStream := [mkTrack (js "Built-in Microphone") live].

(** A browser that grants the microphone and records WebM. *)
Definition webm_browser : Env :=
  mkEnv (fun _ => Returned microphone) (fun m => str_eqb m (js "audio/webm")).

(** A browser that grants the microphone and records nothing. *)
Definition no_format_browser : Env :=
  mkEnv (fun _ => Returned microphone) (fun _ => false).

Definition chunk (bs : list Byte.byte) : Blob := mkBlob bs (js "audio/webm").

(** A session that is recording and has collected one chunk. *)
Definition recording_session : World :=
  run [EvStart 0; EvDataAvailable 0 (chunk [Byte.x01; Byte.x02])]
      (fst (startRecording webm_browser initial)).

(** *** Sessions

    What happens to a recorder over its life: its two methods are called
    and the browser fires events, in any order. *)
Inductive Action :=
  | CallStart (env : Env)
  | CallStop
  | Fire (ev : Event).

Definition act (a : Action) (w : World) : World :=
  match a with
  | CallStart env => fst (startRecording env w)
  | CallStop => fst (stopRecording w)
  | Fire ev => fire ev w
  end.

(** The state of a new recorder after [acts]. *)
Definition session (acts : list Action) : World := foldl (flip act) initial acts.

(** Every chunk held has bytes. *)
Definition chunks_nonempty (w : World) : Prop :=
  Forall (fun c => 0 < size c) (audioChunks w).

(** The references of the instance point into the store, and the
    recorder referred to records the stream referred to. *)
Definition refs_valid (w : World) : Prop :=
  (forall r, mediaRecorder w = Some r ->
             exists m, recorders w !! r = Some m /\ stream w = Some (rec_stream m))
  /\ (forall s, stream w = Some s -> s < length (streams w)).

(** The promise a timer rejects when it expires. *)
Definition timer_promise (tm : Timer TimerAction) : nat :=
  match action tm with stop_timeout p => p end.

(** Recorder [m] has a handler of [stopRecording] that captured timer [t]
    and promise [p]. *)
Definition handler_of (m : MediaRecorder) (t p : nat) : Prop :=
  onstop m = Some (onstop_stop t p) \/ onerror m = Some (onerror_stop t p).

(** How timers, promises and handlers hang together: a timer is armed
    exactly while its promise is pending, a pending promise has a timer,
    no two timers share a promise, and the handlers capture a timer with
    its own promise. *)
Record consistent (ts : list (Timer TimerAction)) (ps : list (PromiseState Blob))
    (rs : list MediaRecorder) : Prop := mkConsistent {
  timer_delay : forall t tm, ts !! t = Some tm -> delay tm = stop_timeout_delay;
  timer_bound : forall t tm, ts !! t = Some tm -> timer_promise tm < length ps;
  timer_armed : forall t tm, ts !! t = Some tm ->
                  (armed tm = true <-> ps !! timer_promise tm = Some Pending);
  promise_timer : forall p, ps !! p = Some Pending ->
                    exists t tm, ts !! t = Some tm /\ timer_promise tm = p;
  timer_inj : forall t t' tm tm', ts !! t = Some tm -> ts !! t' = Some tm' ->
                timer_promise tm = timer_promise tm' -> t = t';
  handler_timer : forall r m t p, rs !! r = Some m -> handler_of m t p ->
                    exists tm, ts !! t = Some tm /\ timer_promise tm = p
}.

Definition empty_recording : JsError :=
  Error (js "Empty audio recording. Please try again.").

(** How the handlers of [stopRecording] and its timer settle the
    promise: they reject it, with the empty-recording error only when
    the chunks held have no bytes, or resolve it with the bytes of the
    chunks held, of which there are some. *)
Definition settles_from (w : World) (f : PromiseState Blob -> PromiseState Blob) : Prop :=
  (exists e, f = reject e
             /\ (e = empty_recording ->
                 audioChunks w <> [] /\ concat (bytes <$> audioChunks w) = []))
  \/ (exists v, f = resolve v
                /\ bytes v = concat (bytes <$> audioChunks w) /\ bytes v <> []).

(** Each of them disarms the timer, settles the promise, runs [cleanup]
    once and leaves the instance with no reference and no chunk. *)
Definition finished (t p : nat) (w w' : World) : Prop :=
  (exists f, settles_from w f /\ promises w' = alter f p (promises w))
  /\ timers w' = alter disarm t (timers w)
  /\ recorders w' = recorders w
  /\ stream w' = None /\ mediaRecorder w' = None /\ audioChunks w' = []
  /\ cleanup_runs w' = S (cleanup_runs w)
  /\ uncaught w' = uncaught w.

End VoiceRecorder.

(* ===================================================================== *)
(** ** [convertBlobToBase64]
       ([src/utils/VoiceRecorder.ts], lines 169-214) *)
(* ===================================================================== *)

(** The component file holds a copy of the function that differs in the
    text of the timeout error only, so the text is a parameter.  The
    [console] calls of this function and of the ones below are left
    out. *)
Module Base64.

(** What the promise executor leaves behind: the promise, whether a
    [FileReader] was made and told to read, and the timer. *)
Record Conversion := mkConversion {
  promise : PromiseState jsstring;
  reader : bool;
  timer : option (Timer unit)
}.

Inductive ReaderEvent :=
  | EvLoadEnd (result : option jsstring)   (* reader.result: a string or null *)
  | EvReaderError
  | EvTimeout.

Definition conversion_timeout_delay : N := 10000%N.

Section Convert.

Variable timeout_message : jsstring.

Definition convertBlobToBase64 (blob : Blob) : Conversion :=
  if size blob =? 0 then
    mkConversion (Rejected (Error (js "Cannot convert empty blob to base64"))) false None
  else
    mkConversion Pending true (Some (mkTimer conversion_timeout_delay true tt)).

Definition clearTimeout (c : Conversion) : Conversion :=
  mkConversion (promise c) (reader c) (disarm <$> timer c).

Definition settle (f : PromiseState jsstring -> PromiseState jsstring)
    (c : Conversion) : Conversion :=
  mkConversion (f (promise c)) (reader c) (timer c).

(** [reader.onloadend], lines 185-204. *)
Definition on_loadend (result : option jsstring) (c : Conversion) : Conversion :=
  let c := clearTimeout c in
  match result with
  | Some ((_ :: _) as base64String) =>
      match split 44%N base64String !! 1 with
      | Some ((_ :: _) as base64Content) => settle (resolve base64Content) c
      | _ => settle (reject (Error (js "Invalid base64 data"))) c
      end
  | _ => settle (reject (Error (js "Failed to convert audio to base64"))) c
  end.

(** [reader.onerror], lines 206-210. *)
Definition on_error (c : Conversion) : Conversion :=
  settle (reject (Error (js "Failed to convert audio to base64"))) (clearTimeout c).

(** The callback of [setTimeout], lines 180-183. *)
Definition on_timeout (c : Conversion) : Conversion :=
  settle (reject (Error timeout_message)) c.

Definition fire (ev : ReaderEvent) (c : Conversion) : Conversion :=
  match ev with
  | EvLoadEnd result => if reader c then on_loadend result c else c
  | EvReaderError => if reader c then on_error c else c
  | EvTimeout =>
      match timer c with
      | Some tm => if armed tm then on_timeout (clearTimeout c) else c
      | None => c
      end
  end.

Definition run (evs : list ReaderEvent) (c : Conversion) : Conversion :=
  foldl (flip fire) c evs.

End Convert.

(** While the promise is pending the timer is armed. *)
Definition waiting (c : Conversion) : Prop :=
  promise c = Pending -> timer c = Some (mkTimer conversion_timeout_delay true tt).

End Base64.

(** The exported function of [src/utils/VoiceRecorder.ts]. *)
Definition convertBlobToBase64 : Blob -> Base64.Conversion :=
  Base64.convertBlobToBase64.

Definition conversion_timeout_message : jsstring :=
  js "Conversion timeout - please try again".

(* ===================================================================== *)
(** ** [ClientSpeechRecognition] (imported as [@/utils/SpeechRecognition]) *)
(* ===================================================================== *)

Module ClientSpeechRecognition.

Record SpeechRecognitionAlternative := mkAlternative { transcript : jsstring }.

(** A result holds at least one alternative (Web Speech API), so
    [results[i][0]] is always there. *)
Record SpeechRecognitionResult := mkResult {
  isFinal : bool;
  item0 : SpeechRecognitionAlternative;
  items : list SpeechRecognitionAlternative
}.

Record SpeechRecognitionEvent := mkEvent {
  resultIndex : nat;
  results : list SpeechRecognitionResult
}.

(** The settings [setupRecognition] writes, lines 17-25. *)
Record Settings := mkSettings {
  continuous : bool;
  interimResults : bool;
  maxAlternatives : N;
  lang : jsstring
}.

(** What one call of [startListening] allocates: the variable
    [finalTranscript] its handlers share, and the promise. *)
Record Call := mkCall {
  finalTranscript : jsstring;
  promise : PromiseState jsstring
}.

(** The instance and its recognizer.  [started] is the recognizer's own
    state: [start()] throws on a started recognizer.  [handlers] is the
    call whose closures are assigned to the four handler fields. *)
Record State := mkState {
  recognition : option Settings;
  isListening : bool;
  started : bool;
  handlers : option nat;
  calls : list Call
}.

(** The constructor, lines 5-15; [supported] is whether [window] has
    [SpeechRecognition] or [webkitSpeechRecognition]. *)
Definition construct (supported : bool) : Outcome State :=
  if negb supported then
    Threw (ThrowError (Error (js "Speech recognition not supported in this browser")))
  else
    Returned
      (mkState (Some (mkSettings false false 1%N (js "en-US"))) false false None []).

Definition set_isListening (b : bool) (s : State) : State :=
  mkState (recognition s) b (started s) (handlers s) (calls s).
Definition set_started (b : bool) (s : State) : State :=
  mkState (recognition s) (isListening s) b (handlers s) (calls s).
Definition set_handlers (h : option nat) (s : State) : State :=
  mkState (recognition s) (isListening s) (started s) h (calls s).
Definition set_calls (c : list Call) (s : State) : State :=
  mkState (recognition s) (isListening s) (started s) (handlers s) c.

Definition settle (p : nat) (f : PromiseState jsstring -> PromiseState jsstring)
    (s : State) : State :=
  set_calls (alter (fun c => mkCall (finalTranscript c) (f (promise c))) p (calls s)) s.

(** [startListening], lines 27-105. *)
Definition startListening (s : State) : State * nat :=
  let p := length (calls s) in
  let s := set_calls (calls s ++ [mkCall [] Pending]) s in
  match recognition s with
  | None => (settle p (reject (Error (js "Speech recognition not available"))) s, p)
  | Some _ =>
      if isListening s then (settle p (reject (Error (js "Already listening"))) s, p)
      else
        let s := set_handlers (Some p) s in
        if started s then
          (* recognition.start() throws *)
          let s := set_isListening false s in
          (settle p (reject (Error (js "Failed to start speech recognition"))) s, p)
        else (set_started true s, p)
  end.

(** The loop of [onresult], lines 49-55. *)
Definition accumulate (event : SpeechRecognitionEvent) (finalTranscript : jsstring)
    : jsstring :=
  foldl (fun acc result =>
           if isFinal result then acc ++ transcript (item0 result) else acc)
        finalTranscript (drop (resultIndex event) (results event)).

Definition on_result (p : nat) (event : SpeechRecognitionEvent) (s : State) : State :=
  set_calls (alter (fun c => mkCall (accumulate event (finalTranscript c)) (promise c))
                   p (calls s)) s.

(** [onend], lines 58-67. *)
Definition on_end (p : nat) (s : State) : State :=
  let s := set_isListening false s in
  match finalTranscript <$> calls s !! p with
  | Some ft =>
      if truthy (trim ft) then settle p (resolve (trim ft)) s
      else settle p (reject (Error (js "No speech detected"))) s
  | None => s
  end.

(** [onerror], lines 69-96; [error] is [event.error]. *)
Definition error_message (error : jsstring) : jsstring :=
  if str_eqb error (js "no-speech") then
    js "No speech detected. Please try again."
  else if str_eqb error (js "audio-capture") then
    js "Microphone not accessible. Please check permissions."
  else if str_eqb error (js "not-allowed") then
    js "Microphone permission denied. Please allow microphone access."
  else if str_eqb error (js "network") then
    js "Network error occurred during speech recognition."
  else if str_eqb error (js "service-not-allowed") then
    js "Speech recognition service not allowed."
  else js "Speech recognition error: " ++ error.

Definition on_error (p : nat) (error : jsstring) (s : State) : State :=
  let s := set_isListening false s in
  settle p (reject (Error (error_message error))) s.

Inductive Event :=
  | EvStart
  | EvResult (event : SpeechRecognitionEvent)
  | EvError (error : jsstring)
  | EvEnd.

(** One event of the recognizer; [end] also leaves it ready to be
    started again. *)
Definition fire (ev : Event) (s : State) : State :=
  match ev with
  | EvStart =>
      match handlers s with Some _ => set_isListening true s | None => s end
  | EvResult event =>
      match handlers s with Some p => on_result p event s | None => s end
  | EvError error =>
      match handlers s with Some p => on_error p error s | None => s end
  | EvEnd =>
      let s := set_started false s in
      match handlers s with Some p => on_end p s | None => s end
  end.

Definition run (evs : list Event) (s : State) : State := foldl (flip fire) s evs.

(** [stopListening], lines 107-111: whether [recognition.stop()] is
    called; the recognizer answers with its [end] event. *)
Definition stopListening (s : State) : bool :=
  match recognition s with Some _ => isListening s | None => false end.

(** [isCurrentlyListening], lines 113-115. *)
Definition isCurrentlyListening (s : State) : bool := isListening s.

(** *** Observations *)

(** The transcripts of the results of an event that are flagged final,
    from [resultIndex] on, in order. *)
Definition finals (event : SpeechRecognitionEvent) : jsstring :=
  concat (transcript ∘ item0
          <$> List.filter isFinal (drop (resultIndex event) (results event))).

(** What a stream of events holds in final results. *)
Definition heard (evs : list Event) : jsstring :=
  concat ((fun ev => match ev with EvResult event => finals event | _ => [] end) <$> evs).

(** The events of a recognition that is going on: neither its end nor an
    error. *)
Definition listening (ev : Event) : bool :=
  match ev with
  | EvStart | EvResult _ => true
  | _ => false
  end.

(** Whether an event carries interim results only. *)
Definition interim_only (ev : Event) : bool :=
  match ev with
  | EvResult event => forallb (fun r => negb (isFinal r)) (results event)
  | _ => true
  end.

(** *** Sample inputs *)

Definition idle : State :=
  mkState (Some (mkSettings false false 1%N (js "en-US"))) false false None [].

Definition said (final : bool) (s : string) : SpeechRecognitionResult :=
  mkResult final (mkAlternative (js s)) [].

End ClientSpeechRecognition.

(* ===================================================================== *)
(** ** [MicrophoneButton.handleStopRecording]
       ([src/components/ClientMicrophoneButton.tsx], lines 442-518) *)
(* ===================================================================== *)

Module MicrophoneButton.

(** The component's own copy of [convertBlobToBase64] rejects with this
    text when its timer fires (line 330). *)
Definition conversion_timeout_message : jsstring := js "Conversion timeout".

Definition endpoint : jsstring :=
  js "https://xcdhkzlohmhhnoydhlwl.supabase.co/functions/v1/speech-to-text".

(** What the handler does to the rest of the application, in order. *)
Inductive Effect :=
  | SetIsRecording (b : bool)
  | SetIsProcessing (b : bool)
  | SetRecordingDuration (n : nat)
  | ClearInterval
  | Fetch (url : jsstring) (audio : jsstring)
  | OnTranscription (text : jsstring)
  | Toast (title description : jsstring) (destructive : bool).

(** The parsed body of the response: [{ text }] or [{ error }]. *)
Record Body := mkBody { text : option jsstring; error : option jsstring }.

(** A response: its HTTP status and what [response.json()] gives. *)
Record Response := mkResponse { status : N; json : PromiseState Body }.

(** [response.ok] *)
Definition ok (r : Response) : bool := ((200 <=? status r) && (status r <=? 299))%N.

(** How a block of an [async] function ends: it runs to its end or
    returns, it throws, or it waits for a promise that never settles. *)
Inductive Completion :=
  | Normal
  | Throws (e : JsError)
  | Hangs.

(** The outcomes of what the handler awaits.  [recorder] is whether
    [recorderRef.current] is set, [interval] whether
    [recordingTimerRef.current] is; [stopped] is the promise of
    [stopRecording()]; [reader] is what happens to the [FileReader] and
    the timer of [convertBlobToBase64]; [fetched] is the promise of
    [fetch], given the audio sent. *)
Record Awaited := mkAwaited {
  interval : bool;
  recorder : bool;
  stopped : PromiseState Blob;
  reader : list Base64.ReaderEvent;
  fetched : jsstring -> PromiseState Response
}.

(** Lines 473-506: from [response.json()] on. *)
Definition handle_response (response : Response) : list Effect * Completion :=
  match json response with
  | Pending => ([], Hangs)
  | Rejected e => ([], Throws e)
  | Resolved data =>
      if negb (ok response) then
        if match error data with
           | Some e => includes (js "OpenAI API key not configured") e
           | None => false
           end
        then
          ([Toast (js "Configuration Required")
                  (js "OpenAI API key needs to be configured for speech-to-text feature.")
                  true], Normal)
        else
          ([Toast (js "Error")
                  (str_or (default [] (error data))
                          (js "Failed to process audio. Please try again."))
                  true], Normal)
      else if truthy (default [] (text data))
              && truthy (trim (default [] (text data))) then
        ([OnTranscription (trim (default [] (text data)));
          Toast (js "Speech recognized") (js "Text has been transcribed successfully") false],
         Normal)
      else
        ([Toast (js "No speech detected") (js "Please try speaking more clearly") true],
         Normal)
  end.

(** Lines 457-471: the three awaits before the response is read. *)
Definition transcribe (a : Awaited) : list Effect * Completion :=
  match stopped a with
  | Pending => ([], Hangs)
  | Rejected e => ([], Throws e)
  | Resolved audioBlob =>
      match Base64.promise
              (Base64.run conversion_timeout_message (reader a)
                          (Base64.convertBlobToBase64 audioBlob)) with
      | Pending => ([], Hangs)
      | Rejected e => ([], Throws e)
      | Resolved base64Audio =>
          match fetched a base64Audio with
          | Pending => ([Fetch endpoint base64Audio], Hangs)
          | Rejected e => ([Fetch endpoint base64Audio], Throws e)
          | Resolved response =>
              let '(effects, c) := handle_response response in
              (Fetch endpoint base64Audio :: effects, c)
          end
      end
  end.

(** The [try] block, lines 443-506. *)
Definition try_block (a : Awaited) : list Effect * Completion :=
  let before :=
    [SetIsRecording false; SetIsProcessing true]
    ++ (if interval a then [ClearInterval] else []) in
  if negb (recorder a) then (before, Throws (Error (js "No recorder available")))
  else let '(effects, c) := transcribe a in (before ++ effects, c).

(** The [finally] block, lines 514-517. *)
Definition finally : list Effect := [SetIsProcessing false; SetRecordingDuration 0].

Definition handleStopRecording (a : Awaited) : list Effect :=
  let '(effects, c) := try_block a in
  match c with
  | Normal => effects ++ finally
  | Throws e => effects ++ [Toast (js "Error") (message e) true] ++ finally
  | Hangs => effects
  end.

(** *** Sample inputs *)

(** Nothing is awaited in vain, the recorder gives [audio], the reader
    gives [result] and the service answers [response]. *)
Definition exchange (audio : Blob) (result : string) (response : Response) : Awaited :=
  mkAwaited true true (Resolved audio) [Base64.EvLoadEnd (Some (js result))]
            (fun _ => Resolved response).

(** *** Observations *)

Definition is_toast (e : Effect) : bool :=
  match e with Toast _ _ _ => true | _ => false end.
Definition is_fetch (e : Effect) : bool :=
  match e with Fetch _ _ => true | _ => false end.
Definition is_transcription (e : Effect) : bool :=
  match e with OnTranscription _ => true | _ => false end.

Definition count (f : Effect -> bool) (l : list Effect) : nat := length (List.filter f l).

(** *** [formatRecordingTime] (lines 520-524) *)

(** The decimal digits of a number, as [String(n)] and a template
    literal give them for a non-negative integer (below 10^21). *)
Fixpoint digits (d : Decimal.uint) : jsstring :=
  match d with
  | Decimal.Nil => []
  | Decimal.D0 d => 48%N :: digits d
  | Decimal.D1 d => 49%N :: digits d
  | Decimal.D2 d => 50%N :: digits d
  | Decimal.D3 d => 51%N :: digits d
  | Decimal.D4 d => 52%N :: digits d
  | Decimal.D5 d => 53%N :: digits d
  | Decimal.D6 d => 54%N :: digits d
  | Decimal.D7 d => 55%N :: digits d
  | Decimal.D8 d => 56%N :: digits d
  | Decimal.D9 d => 57%N :: digits d
  end.

Definition toString (n : nat) : jsstring := digits (Nat.to_uint n).

(** [s.padStart(targetLength, pad)] for a pad of one character. *)
Definition padStart (targetLength : nat) (pad : N) (s : jsstring) : jsstring :=
  repeat pad (targetLength - length s) ++ s.

Definition formatRecordingTime (seconds : nat) : jsstring :=
  let mins := seconds / 60 in
  let secs := seconds mod 60 in
  toString mins ++ js ":" ++ padStart 2 48%N (toString secs).

(** Reading a time back: the number before the colon and the number
    after it, in digits. *)
Fixpoint number (acc : nat) (s : jsstring) : option nat :=
  match s with
  | [] => Some acc
  | c :: s' =>
      if ((48 <=? c) && (c <=? 57))%N then number (10 * acc + N.to_nat (c - 48)) s'
      else None
  end.

Definition parseRecordingTime (s : jsstring) : option nat :=
  match split 58%N s with
  | [(_ :: _) as mins; [a; b]] =>
      m ← number 0 mins; sec ← number 0 [a; b]; Some (60 * m + sec)
  | _ => None
  end.

End MicrophoneButton.

(* ===================================================================== *)
(** ** [ClientMicrophoneButton]
       ([src/components/ClientMicrophoneButton.tsx], lines 13-152) *)
(* ===================================================================== *)

Module ClientMicrophoneButton.

Inductive Effect :=
  | SetError (error : option jsstring)
  | SetIsListening (b : bool)
  | OnTranscription (text : jsstring)
  | StopListening
  | Toast (title description : jsstring) (destructive : bool).

(** [handleStartListening], lines 46-87.  [available] is whether
    [speechRecognition.current] is set and [isSupported] holds;
    [listened] is the promise of [startListening()], which rejects with
    an [Error] when it rejects. *)
Definition handleStartListening (available : bool) (listened : PromiseState jsstring)
    : list Effect :=
  if negb available then
    [Toast (js "Not Supported")
           (js "Speech recognition is not available in this browser") true]
  else
    [SetError None; SetIsListening true;
     Toast (js "Listening...") (js "Speak now. The microphone is active.") false]
    ++ match listened with
       | Pending => []
       | Resolved transcript =>
           (if truthy transcript then
              [OnTranscription transcript;
               Toast (js "Speech Recognized")
                     (js "Your speech has been converted to text successfully!") false]
            else [])
           ++ [SetIsListening false]
       | Rejected error =>
           [SetError (Some (message error));
            Toast (js "Speech Recognition Failed") (message error) true;
            SetIsListening false]
       end.

(** [handleStopListening], lines 89-99, on the recognition instance the
    component holds, if any. *)
Definition handleStopListening (current : option ClientSpeechRecognition.State)
    : list Effect :=
  match current with
  | Some s =>
      if ClientSpeechRecognition.isCurrentlyListening s then
        (if ClientSpeechRecognition.stopListening s then [StopListening] else [])
        ++ [SetIsListening false;
            Toast (js "Stopped Listening") (js "Microphone has been turned off") false]
      else []
  | None => []
  end.

End ClientMicrophoneButton.

(* ===================================================================== *)
(** ** Facts about strings and promises *)
(* ===================================================================== *)

Arguments js : simpl never.

Section StringFacts.

Implicit Types s t : jsstring.

Lemma truthy_nonempty s : truthy s = true <-> s <> [].
Proof. destruct s; simpl; split; congruence. Qed.

Lemma trimStart_suffix s :
  exists pre, s = pre ++ trimStart s /\ forallb isWhiteSpace pre = true.
Proof.
  induction s as [|c s [pre [Hs Hpre]]]; simpl.
  - exists []. auto.
  - destruct (isWhiteSpace c) eqn:Hc.
    + exists (c :: pre). simpl. rewrite Hc, Hpre. split; [congruence | reflexivity].
    + exists []. auto.
Qed.

Lemma trimStart_head c s t : trimStart s = c :: t -> isWhiteSpace c = false.
Proof.
  induction s as [|d s IH]; simpl; [discriminate|].
  destruct (isWhiteSpace d) eqn:Hd; [exact IH|].
  intros [= -> _]. exact Hd.
Qed.

Lemma trimStart_fixed c s : isWhiteSpace c = false -> trimStart (c :: s) = c :: s.
Proof. intros H. simpl. now rewrite H. Qed.

Lemma trimStart_idem s : trimStart (trimStart s) = trimStart s.
Proof.
  destruct (trimStart s) as [|c t] eqn:E; [reflexivity|].
  apply trimStart_fixed. eapply trimStart_head. exact E.
Qed.

Lemma trimStart_whitespace s : forallb isWhiteSpace s = true -> trimStart s = [].
Proof.
  induction s as [|c s IH]; simpl; [reflexivity|].
  intros [Hc Hs]%andb_prop. rewrite Hc. auto.
Qed.

(** [trimEnd] cuts a run of whitespace off the end. *)
Lemma trimEnd_prefix s :
  exists post, s = trimEnd s ++ post /\ forallb isWhiteSpace post = true.
Proof.
  unfold trimEnd. destruct (trimStart_suffix (rev s)) as [pre [Hs Hpre]].
  exists (rev pre). split.
  - rewrite <- rev_app_distr, <- Hs. symmetry. apply rev_involutive.
  - rewrite forallb_forall in *. intros x Hx. apply Hpre. now apply in_rev.
Qed.

Lemma trimEnd_idem s : trimEnd (trimEnd s) = trimEnd s.
Proof. unfold trimEnd. now rewrite rev_involutive, trimStart_idem. Qed.

(** A trimmed string is not trimmed further. *)
Lemma trim_idem s : trim (trim s) = trim s.
Proof.
  unfold trim.
  destruct (trimEnd (trimStart s)) as [|c t] eqn:E; [reflexivity|].
  assert (Hc : isWhiteSpace c = false).
  { destruct (trimEnd_prefix (trimStart s)) as [post [Hs _]].
    rewrite E in Hs. simpl in Hs. eapply trimStart_head. exact Hs. }
  rewrite trimStart_fixed by exact Hc.
  rewrite <- E. apply trimEnd_idem.
Qed.

Lemma trim_whitespace s : forallb isWhiteSpace s = true -> trim s = [].
Proof. intros H. unfold trim. now rewrite trimStart_whitespace. Qed.

(** What [trim] leaves starts and ends with a character that is not
    whitespace. *)
Lemma trim_first c t s : trim s = c :: t -> isWhiteSpace c = false.
Proof.
  unfold trim. intros E.
  destruct (trimEnd_prefix (trimStart s)) as [post [Hs _]].
  rewrite E in Hs. simpl in Hs. eapply trimStart_head. exact Hs.
Qed.

Lemma trim_last c t s : trim s = t ++ [c] -> isWhiteSpace c = false.
Proof.
  unfold trim, trimEnd. intros E.
  apply (f_equal (@rev N)) in E.
  rewrite rev_involutive, rev_app_distr in E. simpl in E.
  eapply trimStart_head. exact E.
Qed.

End StringFacts.

Example trim_spaces : trim (js "  sore throat ") = js "sore throat".
Proof. reflexivity. Qed.

Example trim_blank : trim [32; 9; 160; 12288; 10]%N = [].
Proof. reflexivity. Qed.

Example split_data_url :
  split 44%N (js "data:audio/webm;base64,AQID") = [js "data:audio/webm;base64"; js "AQID"].
Proof. reflexivity. Qed.

Example split_no_comma : split 44%N (js "AQID") !! 1 = None.
Proof. reflexivity. Qed.

(* ===================================================================== *)
(** ** Facts about [VoiceRecorder] *)
(* ===================================================================== *)

Module VoiceRecorderFacts.
Import VoiceRecorder.

Arguments cleanup : simpl never.

(** Appending to a store and updating the object just appended. *)
Lemma alter_last {A} (f : A -> A) (l : list A) (x : A) :
  alter f (length l) (l ++ [x]) = l ++ [f x].
Proof. induction l as [|a l IH]; simpl; [reflexivity | now f_equal]. Qed.

Lemma lookup_last {A} (l : list A) (x : A) : (l ++ [x]) !! length l = Some x.
Proof. now rewrite list_lookup_middle. Qed.

Lemma lookup_alter_Some {A} (f : A -> A) (l : list A) (i : nat) (x : A) :
  l !! i = Some x -> alter f i l !! i = Some (f x).
Proof. intros H. now rewrite list_lookup_alter_eq, H. Qed.

(** *** [cleanup] *)

Lemma cleanup_released (w : World) :
  stream (cleanup w) = None /\ mediaRecorder (cleanup w) = None
  /\ audioChunks (cleanup w) = [].
Proof. unfold cleanup. simpl. destruct (stream w) eqn:E; simpl; rewrite ?E; repeat split. Qed.

Lemma cleanup_untouched (w : World) :
  recorders (cleanup w) = recorders w /\ timers (cleanup w) = timers w
  /\ promises (cleanup w) = promises w /\ uncaught (cleanup w) = uncaught w.
Proof. unfold cleanup. simpl. destruct (stream w) eqn:E; simpl; rewrite ?E; repeat split. Qed.

Lemma cleanup_streams (w : World) (s : nat) :
  stream w = Some s ->
  streams (cleanup w) = alter (fmap track_stop) s (streams w).
Proof. intros H. unfold cleanup. simpl. rewrite H. reflexivity. Qed.

Lemma cleanup_console (w : World) :
  console (cleanup w)
  = console w ++ [LogCleaningUp]
    ++ match stream w with
       | Some s => LogTrackStopped ∘ label <$> default [] (streams w !! s)
       | None => []
       end.
Proof.
  unfold cleanup. simpl. destruct (stream w) eqn:E; simpl; rewrite ?E; simpl.
  - now rewrite <- app_assoc.
  - reflexivity.
Qed.

(** *** [select_mime] *)

Lemma select_mime_find (sup : jsstring -> bool) (cands : list jsstring)
    (sel : jsstring) (w : World) :
  select_mime sup cands sel w
  = match List.find sup cands with
    | Some m => (m, log (LogSelected m) w)
    | None => (sel, w)
    end.
Proof.
  induction cands as [|c cands IH]; simpl; [reflexivity|].
  destruct (sup c); [reflexivity | exact IH].
Qed.

Lemma candidates_truthy (m : jsstring) : In m mimeTypes -> truthy m = true.
Proof.
  unfold mimeTypes. simpl.
  intros H. repeat (destruct H as [<- | H]; [reflexivity|]). destruct H.
Qed.

Lemma classify_no_supported_format :
  classify (ThrowError no_supported_format)
  = Error (js "Failed to access microphone: No supported audio format found on this device").
Proof. reflexivity. Qed.

(** *** [startRecording] *)

(** What a granted start does after [getUserMedia], when no candidate is
    supported and when one is. *)
Lemma startRecording_no_format (env : Env) (w : World) (tracks : MediaStream) :
  getUserMedia env constraints = Returned tracks ->
  first_supported env = None ->
  startRecording env w
  = start_catch (ThrowError no_supported_format)
      (log LogGranted
         (set_stream (Some (length (streams w)))
            (set_streams (streams w ++ [tracks]) (log LogRequesting w)))).
Proof.
  intros Hgum Hnone. unfold startRecording, first_supported in *.
  rewrite Hgum, select_mime_find, Hnone. reflexivity.
Qed.

Lemma startRecording_selected (env : Env) (w : World) (tracks : MediaStream)
    (m : jsstring) :
  getUserMedia env constraints = Returned tracks ->
  first_supported env = Some m ->
  startRecording env w
  = (mkWorld (Some (length (recorders w))) [] (Some (length (streams w)))
             (streams w ++ [tracks])
             (recorders w
              ++ [mkRecorder (length (streams w)) m recording (Some 1000%N)
                             true (Some onerror_start) true None])
             (timers w) (promises w)
             (console w ++ [LogRequesting; LogGranted; LogSelected m; LogRecordingStarted])
             (uncaught w),
     Returned tt).
Proof.
  intros Hgum Hsome. unfold startRecording, first_supported in *.
  rewrite Hgum, select_mime_find, Hsome.
  apply find_some in Hsome as [Hin _]. rewrite (candidates_truthy _ Hin).
  unfold log. simpl. rewrite <- !app_assoc. reflexivity.
Qed.

Lemma startRecording_refused (env : Env) (w : World) (e : Thrown) :
  getUserMedia env constraints = Threw e ->
  startRecording env w = start_catch e (log LogRequesting w).
Proof. intros Hgum. unfold startRecording. now rewrite Hgum. Qed.

(** The outcome of [startRecording] is read off the environment alone. *)
Lemma startRecording_outcome (env : Env) (w : World) :
  snd (startRecording env w)
  = match getUserMedia env constraints with
    | Threw e => Threw (ThrowError (classify e))
    | Returned _ =>
        match first_supported env with
        | Some _ => Returned tt
        | None => Threw (ThrowError (classify (ThrowError no_supported_format)))
        end
    end.
Proof.
  destruct (getUserMedia env constraints) as [tracks|e] eqn:Hgum.
  - destruct (first_supported env) as [m|] eqn:Hm.
    + now rewrite (startRecording_selected _ _ _ _ Hgum Hm).
    + now rewrite (startRecording_no_format _ _ _ Hgum Hm).
  - now rewrite (startRecording_refused _ _ _ Hgum).
Qed.

Lemma start_catch_released (e : Thrown) (w : World) :
  let w' := fst (start_catch e w) in
  stream w' = None /\ mediaRecorder w' = None /\ audioChunks w' = [].
Proof. exact (cleanup_released _). Qed.

(** C1, as stated, fails: on a session that is recording and holds one
    chunk, [startRecording] returns normally, and the session has another
    stream, another recorder and no chunk. *)
Lemma C1_counterexample :
  isRecording recording_session = true
  /\ snd (startRecording webm_browser recording_session) = Returned tt
  /\ audioChunks recording_session = [chunk [Byte.x01; Byte.x02]]
  /\ audioChunks (fst (startRecording webm_browser recording_session)) = []
  /\ (stream recording_session, mediaRecorder recording_session) = (Some 0, Some 0)
  /\ (stream (fst (startRecording webm_browser recording_session)),
      mediaRecorder (fst (startRecording webm_browser recording_session)))
     = (Some 1, Some 1).
Proof. vm_compute. repeat split. Qed.

(** C1, amended: [startRecording] has no already-active guard.  On a
    session that is recording its outcome is the one it has on a new
    session in the same browser.  When it returns, the session refers to
    the stream just acquired and to a recorder just created on it, in
    state [recording], and the chunk sequence is empty.  When it throws,
    the stream and recorder references and the chunk sequence are
    cleared. *)
Theorem C1_start_while_recording (env : Env) (w : World) :
  isRecording w = true ->
  let w' := fst (startRecording env w) in
  let result := snd (startRecording env w) in
  result = snd (startRecording env initial)
  /\ match result with
     | Returned _ =>
         (exists tracks,
             getUserMedia env constraints = Returned tracks
             /\ streams w' !! length (streams w) = Some tracks)
         /\ (exists m,
               first_supported env = Some m
               /\ recorders w' !! length (recorders w)
                  = Some (mkRecorder (length (streams w)) m recording (Some 1000%N)
                                     true (Some onerror_start) true None))
         /\ stream w' = Some (length (streams w))
         /\ mediaRecorder w' = Some (length (recorders w))
         /\ audioChunks w' = []
         /\ isRecording w' = true
     | Threw _ =>
         stream w' = None /\ mediaRecorder w' = None /\ audioChunks w' = []
         /\ isRecording w' = false
     end.
Proof.
  intros _. cbv zeta. split.
  { now rewrite !startRecording_outcome. }
  destruct (getUserMedia env constraints) as [tracks|e] eqn:Hgum.
  - destruct (first_supported env) as [m|] eqn:Hm.
    + rewrite (startRecording_selected _ _ _ _ Hgum Hm). cbn [fst snd].
      cbn [streams recorders stream mediaRecorder audioChunks].
      split; [exists tracks; split; [reflexivity | apply lookup_last]|].
      split; [exists m; split; [reflexivity | apply lookup_last]|].
      repeat (split; [reflexivity|]).
      unfold isRecording, current_recorder. cbn [mediaRecorder recorders].
      simpl. now rewrite lookup_last.
    + rewrite (startRecording_no_format _ _ _ Hgum Hm). cbn [snd start_catch].
      destruct (start_catch_released (ThrowError no_supported_format)
                  (log LogGranted
                     (set_stream (Some (length (streams w)))
                        (set_streams (streams w ++ [tracks]) (log LogRequesting w)))))
        as (Hs & Hr & Hc).
      repeat (split; [assumption|]).
      unfold isRecording, current_recorder. now rewrite Hr.
  - rewrite (startRecording_refused _ _ _ Hgum). cbn [snd start_catch].
    destruct (start_catch_released e (log LogRequesting w)) as (Hs & Hr & Hc).
    repeat (split; [assumption|]).
    unfold isRecording, current_recorder. now rewrite Hr.
Qed.

Lemma C1_start_while_recording_witness :
  let w' := fst (startRecording webm_browser recording_session) in
  snd (startRecording webm_browser recording_session) = Returned tt
  /\ mediaRecorder w' = Some 1 /\ audioChunks w' = [] /\ isRecording w' = true.
Proof.
  pose proof (C1_start_while_recording webm_browser recording_session eq_refl) as H.
  cbv zeta in H. destruct H as [_ H].
  change (snd (startRecording webm_browser recording_session)) with (Returned tt) in H.
  destruct H as (_ & _ & _ & Hr & Hc & Hrec).
  repeat split; assumption.
Defined.

(** C3, as stated, fails: in a browser that supports no candidate the
    microphone stream is acquired all the same (and then released). *)
Lemma C3_counterexample :
  (forall m, isTypeSupported no_format_browser m = false)
  /\ streams initial = []
  /\ streams (fst (startRecording no_format_browser initial))
     = [[mkTrack (js "Built-in Microphone") ended]].
Proof. split; [reflexivity|]. vm_compute. split; reflexivity. Qed.

(** C3, amended: when the microphone is granted and no candidate is
    supported, [startRecording] throws the no-supported-format error, no
    recorder is created, and the stream, acquired before the negotiation,
    is released: its tracks are stopped and the reference is cleared.
    When the microphone is granted and a candidate is supported, the
    first supported one in preference order is selected, once, after the
    grant, and the recorder is created with it. *)
Theorem C3_negotiation (env : Env) (w : World) (tracks : MediaStream) :
  getUserMedia env constraints = Returned tracks ->
  let w' := fst (startRecording env w) in
  let result := snd (startRecording env w) in
  ((forall m, In m mimeTypes -> isTypeSupported env m = false) ->
   result = Threw (ThrowError (Error
     (js "Failed to access microphone: No supported audio format found on this device")))
   /\ recorders w' = recorders w
   /\ mediaRecorder w' = None
   /\ stream w' = None
   /\ streams w' = streams w ++ [track_stop <$> tracks]
   /\ console w'
      = console w
        ++ [LogRequesting; LogGranted; LogStartFailed (ThrowError no_supported_format);
            LogCleaningUp]
        ++ (LogTrackStopped ∘ label <$> tracks))
  /\ (forall m, first_supported env = Some m ->
      result = Returned tt
      /\ recorders w'
         = recorders w
           ++ [mkRecorder (length (streams w)) m recording (Some 1000%N)
                          true (Some onerror_start) true None]
      /\ mediaRecorder w' = Some (length (recorders w))
      /\ stream w' = Some (length (streams w))
      /\ streams w' = streams w ++ [tracks]
      /\ console w'
         = console w ++ [LogRequesting; LogGranted; LogSelected m; LogRecordingStarted]).
Proof.
  intros Hgum. cbv zeta. split.
  - intros Hnone.
    assert (Hfind : first_supported env = None).
    { unfold first_supported.
      destruct (List.find (isTypeSupported env) mimeTypes) as [m|] eqn:E; [|reflexivity].
      apply find_some in E as [Hin Hsup]. rewrite (Hnone _ Hin) in Hsup. discriminate. }
    rewrite (startRecording_no_format _ _ _ Hgum Hfind).
    unfold start_catch. cbn [fst snd].
    set (w0 := log (LogStartFailed _) _).
    assert (Hstream : stream w0 = Some (length (streams w))) by reflexivity.
    destruct (cleanup_released w0) as (Hs & Hr & _).
    destruct (cleanup_untouched w0) as (Hrec & _).
    split; [now rewrite classify_no_supported_format|].
    split; [now rewrite Hrec|].
    split; [assumption|]. split; [assumption|].
    rewrite (cleanup_streams _ _ Hstream), cleanup_console, Hstream.
    subst w0. cbn [streams console log set_console set_stream set_streams].
    rewrite alter_last, lookup_last. cbn [default].
    split; [reflexivity|]. now rewrite <- !app_assoc.
  - intros m Hm. rewrite (startRecording_selected _ _ _ _ Hgum Hm).
    cbn [fst snd recorders mediaRecorder stream streams console].
    repeat split.
Qed.

Lemma C3_negotiation_witness :
  (snd (startRecording webm_browser initial) = Returned tt
   /\ (mimeType <$> recorders (fst (startRecording webm_browser initial)))
      = [js "audio/webm"])
  /\ (recorders (fst (startRecording no_format_browser initial)) = []
      /\ streams (fst (startRecording no_format_browser initial))
         = [track_stop <$> microphone]).
Proof.
  split.
  - destruct (C3_negotiation webm_browser initial microphone eq_refl) as [_ H].
    destruct (H (js "audio/webm") eq_refl) as (Hres & Hrec & _).
    split; [exact Hres|]. rewrite Hrec. reflexivity.
  - destruct (C3_negotiation no_format_browser initial microphone eq_refl) as [H _].
    destruct (H (fun _ _ => eq_refl)) as (_ & Hrec & _ & _ & Hstr & _).
    split; assumption.
Defined.

(** C7: a second [cleanup] only writes its console line: it stops no
    track, and the references and the chunk sequence it finds cleared
    stay as they are. *)
Theorem C7_cleanup_idempotent (w : World) :
  cleanup (cleanup w) = log LogCleaningUp (cleanup w)
  /\ track_stops (cleanup (cleanup w)) = track_stops (cleanup w)
  /\ streams (cleanup (cleanup w)) = streams (cleanup w)
  /\ stream (cleanup (cleanup w)) = None
  /\ mediaRecorder (cleanup (cleanup w)) = None
  /\ audioChunks (cleanup (cleanup w)) = [].
Proof.
  assert (H : cleanup (cleanup w) = log LogCleaningUp (cleanup w)).
  { unfold cleanup. simpl. destruct (stream w) eqn:E; simpl; rewrite ?E; reflexivity. }
  split; [exact H|]. rewrite H.
  destruct (cleanup_released w) as (Hs & Hr & Hc).
  unfold track_stops. cbn [log console set_console streams stream mediaRecorder audioChunks].
  rewrite List.filter_app. cbn [List.filter is_track_stop]. rewrite app_nil_r.
  repeat split; assumption.
Qed.

(** *** Events *)

Lemma same_objects_refl (w : World) : same_objects w w.
Proof. repeat split. Qed.

Lemma same_objects_trans (w1 w2 w3 : World) :
  same_objects w1 w2 -> same_objects w2 w3 -> same_objects w1 w3.
Proof.
  unfold same_objects. intros (?&?&?&?&?&?&?) (?&?&?&?&?&?&?).
  repeat split; congruence.
Qed.

Lemma on_dataavailable_same (data : Blob) (w : World) :
  same_objects w (on_dataavailable data w).
Proof.
  unfold on_dataavailable. destruct (0 <? size data); repeat split.
Qed.

Lemma fire_quiet (ev : Event) (w : World) :
  quiet ev = true -> same_objects w (fire ev w).
Proof.
  destruct ev as [r data|r msg|r|r|t]; try discriminate; intros _; simpl.
  - destruct (ondataavailable <$> recorders w !! r) as [[|]|];
      [apply on_dataavailable_same | apply same_objects_refl ..].
  - destruct (onstart <$> recorders w !! r) as [[|]|]; repeat split.
Qed.

Lemma run_quiet (evs : list Event) (w : World) :
  forallb quiet evs = true -> same_objects w (run evs w).
Proof.
  revert w. induction evs as [|ev evs IH]; intros w; simpl.
  - intros _. apply same_objects_refl.
  - intros [Hev Hevs]%andb_prop.
    eapply same_objects_trans; [apply fire_quiet, Hev | apply IH, Hevs].
Qed.

(** The chunks a recorder delivers are appended in the order they
    arrive; empty ones are skipped. *)
Lemma run_dataavailable (r : nat) (cs : list Blob) (w : World) :
  ondataavailable <$> recorders w !! r = Some true ->
  audioChunks (run (EvDataAvailable r <$> cs) w)
  = audioChunks w ++ List.filter (fun c => 0 <? size c) cs.
Proof.
  revert w. induction cs as [|c cs IH]; intros w Hr; simpl.
  - now rewrite app_nil_r.
  - rewrite Hr. rewrite IH.
    + unfold on_dataavailable. destruct (0 <? size c); simpl.
      * now rewrite <- app_assoc.
      * reflexivity.
    + destruct (on_dataavailable_same c w) as (_&_&_&Hrec&_). now rewrite Hrec.
Qed.

Lemma dataavailable_quiet (r : nat) (cs : list Blob) :
  forallb quiet (EvDataAvailable r <$> cs) = true.
Proof. induction cs; simpl; auto. Qed.

Lemma concat_filter_nonempty (cs : list Blob) :
  concat (bytes <$> List.filter (fun c => 0 <? size c) cs) = concat (bytes <$> cs).
Proof.
  induction cs as [|c cs IH]; simpl; [reflexivity|].
  destruct (0 <? size c) eqn:E; simpl.
  - f_equal. exact IH.
  - transitivity (concat (bytes <$> cs)); [exact IH|].
    apply Nat.ltb_ge in E. unfold size in E.
    destruct (bytes c); [reflexivity | simpl in E; lia].
Qed.

Lemma concat_nonempty (cs : list Blob) :
  concat (bytes <$> cs) <> [] -> Exists (fun c => 0 < size c) cs.
Proof.
  induction cs as [|c cs IH]; simpl; [congruence|].
  intros H. destruct (bytes c) as [|b bs] eqn:E.
  - apply Exists_cons_tl, IH. exact H.
  - apply Exists_cons_hd. unfold size. rewrite E. simpl. lia.
Qed.

(** *** [stopRecording] *)

Lemma stopRecording_recording (w : World) (r : nat) (m : MediaRecorder) :
  mediaRecorder w = Some r -> recorders w !! r = Some m -> state m = recording ->
  stopRecording w
  = (mkWorld (Some r) (audioChunks w) (stream w) (streams w)
             (alter (set_state inactive) r
                    (alter (set_stop_handlers (length (timers w)) (length (promises w)))
                           r (recorders w)))
             (timers w ++ [mkTimer stop_timeout_delay true (stop_timeout (length (promises w)))])
             (promises w ++ [Pending])
             (console w ++ [LogStopping])
             (uncaught w),
     length (promises w)).
Proof.
  intros Hr Hm Hstate. unfold stopRecording. simpl. rewrite Hr. simpl.
  rewrite list_lookup_alter_eq, Hm. simpl. rewrite Hstate.
  unfold set_recorders, set_timers, log, set_console, set_promises. simpl.
  now rewrite Hr.
Qed.

Lemma lookup_set_state_mimeType (s : RecordingState) (r i : nat) (l : list MediaRecorder) :
  mimeType <$> alter (set_state s) r l !! i = mimeType <$> l !! i.
Proof.
  destruct (decide (r = i)) as [->|Hne].
  - rewrite list_lookup_alter_eq. now destruct (l !! i).
  - now rewrite list_lookup_alter_ne.
Qed.

(** What [onstop] settles the promise with. *)
Lemma on_stop_promise (w : World) (t p : nat) :
  promises w !! p = Some Pending ->
  let audioBlob :=
    newBlob (audioChunks w)
            (str_or (default [] (mimeType <$> current_recorder w)) (js "audio/webm")) in
  promises (on_stop t p w) !! p
  = Some (if length (audioChunks w) =? 0 then
            Rejected (Error (js "No audio data recorded. Please try speaking louder or check your microphone."))
          else if size audioBlob =? 0 then
            Rejected (Error (js "Empty audio recording. Please try again."))
          else Resolved audioBlob).
Proof.
  intros Hp. cbv zeta. unfold on_stop.
  cbn [clearTimeout log set_timers set_console audioChunks].
  change (current_recorder (set_console _ (set_timers _ w))) with (current_recorder w).
  destruct (length (audioChunks w) =? 0);
    [|destruct (size _ =? 0)];
    unfold reject_promise, resolve_promise; cbn [promises set_promises];
    match goal with |- context [cleanup ?x] =>
      destruct (cleanup_untouched x) as (_ & _ & -> & _) end;
    cbn [promises log set_console clearTimeout set_timers];
    now rewrite list_lookup_alter_eq, Hp.
Qed.

Lemma fire_stop_promise (w : World) (r t p : nat) (m : MediaRecorder) :
  recorders w !! r = Some m -> onstop m = Some (onstop_stop t p) ->
  promises w !! p = Some Pending ->
  let audioBlob :=
    newBlob (audioChunks w)
            (str_or (default [] (mimeType <$> current_recorder w)) (js "audio/webm")) in
  promises (fire (EvStop r) w) !! p
  = Some (if length (audioChunks w) =? 0 then
            Rejected (Error (js "No audio data recorded. Please try speaking louder or check your microphone."))
          else if size audioBlob =? 0 then
            Rejected (Error (js "Empty audio recording. Please try again."))
          else Resolved audioBlob).
Proof.
  intros Hm Hstop Hp. cbv zeta. cbn [fire].
  assert (Hh : recorders (inactivate r w) !! r ≫= onstop = Some (onstop_stop t p)).
  { unfold inactivate. cbn [recorders set_recorders].
    rewrite list_lookup_alter_eq, Hm. exact Hstop. }
  rewrite Hh.
  assert (Hty : mimeType <$> current_recorder (inactivate r w)
                = mimeType <$> current_recorder w).
  { unfold current_recorder, inactivate. cbn [mediaRecorder recorders set_recorders].
    destruct (mediaRecorder w) as [i|]; [|reflexivity].
    apply lookup_set_state_mimeType. }
  rewrite (on_stop_promise (inactivate r w) t p Hp). rewrite Hty. reflexivity.
Qed.

(** *** The stop path *)

(** The handler [startRecording] assigns to [onerror] releases nothing,
    whatever session it runs in. *)
Lemma on_error_start_keeps (msg : option jsstring) (w : World) :
  let w' := on_error_start msg w in
  cleanup_runs w' = cleanup_runs w /\ track_stops w' = track_stops w
  /\ stream w' = stream w /\ streams w' = streams w
  /\ mediaRecorder w' = mediaRecorder w /\ audioChunks w' = audioChunks w.
Proof.
  cbv zeta. unfold on_error_start, cleanup_runs, track_stops.
  cbn [log console set_console set_uncaught stream streams mediaRecorder audioChunks].
  rewrite !List.filter_app. cbn [List.filter is_cleanup is_track_stop].
  rewrite !app_nil_r. repeat split.
Qed.

(** C2 fails on the code: a recorder error while recording.  The session
    is recording on the microphone; the recorder reports an error; the
    handler of lines 59-62 throws, and [cleanup] has not run: the track is
    still live, and the stream, the recorder and the chunk are still
    held. *)
Theorem C2_error_while_recording_not_released :
  let w := fire (EvError 0 (Some (js "device lost"))) recording_session in
  isRecording recording_session = true
  /\ cleanup_runs w = 0
  /\ track_stops w = 0
  /\ stream w = Some 0
  /\ streams w = [[mkTrack (js "Built-in Microphone") live]]
  /\ mediaRecorder w = Some 0
  /\ audioChunks w = [chunk [Byte.x01; Byte.x02]]
  /\ uncaught w = [Error (js "Recording failed: device lost")].
Proof. vm_compute. repeat split. Qed.

(** On the stop path the handlers do release, but not once: when the
    recorder reports an error after [stopRecording] and then fires
    [stop], as browsers do, [cleanup] runs twice. *)
Lemma stop_error_then_stop_cleans_twice :
  let w := run [EvError 0 None; EvStop 0] (fst (stopRecording recording_session)) in
  cleanup_runs w = 2 /\ track_stops w = 1
  /\ promises w = [Rejected (Error (js "Recording failed: Unknown error"))].
Proof. vm_compute. repeat split. Qed.

(** C4: [stopRecording] on a recording session arms a timer of 5000 ms.
    While neither [stop] nor [error] is fired the promise stays pending
    and the timer armed; when the timer expires the promise is rejected
    with the timeout error, every track of the stream is stopped and the
    session's references and chunks are cleared. *)
Theorem C4_stop_timeout (w : World) (r sid : nat) (m : MediaRecorder)
    (tracks : MediaStream) (evs : list Event) :
  mediaRecorder w = Some r -> recorders w !! r = Some m -> state m = recording ->
  stream w = Some sid -> streams w !! sid = Some tracks ->
  forallb quiet evs = true ->
  let p := snd (stopRecording w) in
  let t := length (timers w) in
  let w1 := run evs (fst (stopRecording w)) in
  let w2 := fire (EvTimeout t) w1 in
  timers w1 !! t = Some (mkTimer 5000%N true (stop_timeout p))
  /\ promises w1 !! p = Some Pending
  /\ promises w2 !! p
     = Some (Rejected (Error (js "Recording stop timeout - please try again")))
  /\ streams w2 !! sid = Some (track_stop <$> tracks)
  /\ stream w2 = None
  /\ mediaRecorder w2 = None
  /\ audioChunks w2 = [].
Proof.
  intros Hr Hm Hstate Hs Htracks Hquiet. cbv zeta.
  rewrite (stopRecording_recording _ _ _ Hr Hm Hstate). cbn [fst snd].
  set (w0 := mkWorld _ _ _ _ _ _ _ _ _).
  destruct (run_quiet evs w0 Hquiet) as (Hr1 & Hs1 & Hss1 & Hrec1 & Ht1 & Hp1 & Hu1).
  set (w1 := run evs w0) in *.
  assert (Htimer : timers w1 !! length (timers w)
                   = Some (mkTimer 5000%N true (stop_timeout (length (promises w))))).
  { rewrite Ht1. subst w0. cbn [timers]. apply lookup_last. }
  assert (Hpend : promises w1 !! length (promises w) = Some Pending).
  { rewrite Hp1. subst w0. cbn [promises]. apply lookup_last. }
  split; [exact Htimer|]. split; [exact Hpend|].
  cbn [fire]. rewrite Htimer. cbn [armed action on_timeout].
  set (w' := log LogStopTimeout (clearTimeout (length (timers w)) w1)).
  assert (Hs' : stream w' = Some sid) by (subst w'; cbn; rewrite Hs1; exact Hs).
  destruct (cleanup_released w') as (Hcs & Hcr & Hcc).
  destruct (cleanup_untouched w') as (_ & _ & Hcp & _).
  unfold reject_promise.
  cbn [promises streams stream mediaRecorder audioChunks set_promises].
  split.
  { rewrite Hcp. subst w'. cbn [promises log set_console clearTimeout set_timers].
    now rewrite list_lookup_alter_eq, Hpend. }
  split.
  { rewrite (cleanup_streams _ _ Hs'). subst w'.
    cbn [streams log set_console clearTimeout set_timers].
    rewrite Hss1. subst w0. cbn [streams].
    apply (lookup_alter_Some (fmap track_stop)). exact Htracks. }
  repeat split; assumption.
Qed.

Lemma C4_stop_timeout_witness :
  let w1 := run [EvDataAvailable 0 (chunk [Byte.x03])] (fst (stopRecording recording_session)) in
  let w2 := fire (EvTimeout 0) w1 in
  promises w1 !! 0 = Some Pending
  /\ promises w2 !! 0
     = Some (Rejected (Error (js "Recording stop timeout - please try again")))
  /\ streams w2 !! 0 = Some [mkTrack (js "Built-in Microphone") ended]
  /\ stream w2 = None.
Proof.
  destruct (C4_stop_timeout recording_session 0 0
              (mkRecorder 0 (js "audio/webm") recording (Some 1000%N)
                          true (Some onerror_start) true None)
              microphone [EvDataAvailable 0 (chunk [Byte.x03])]
              eq_refl eq_refl eq_refl eq_refl eq_refl eq_refl)
    as (_ & Hp & Hrej & Hstr & Hs & _).
  repeat split; assumption.
Defined.

(** A recorder error reported after [stopRecording] settles the promise
    too: the timer is cleared, the stream released and the promise
    rejected with the recorder's error. *)
Lemma stop_then_error (w : World) (r sid : nat) (m : MediaRecorder)
    (tracks : MediaStream) (msg : option jsstring) :
  mediaRecorder w = Some r -> recorders w !! r = Some m -> state m = recording ->
  stream w = Some sid -> streams w !! sid = Some tracks ->
  let p := snd (stopRecording w) in
  let w' := fire (EvError r msg) (fst (stopRecording w)) in
  promises w' !! p
  = Some (Rejected (Error (js "Recording failed: "
                           ++ str_or (default [] msg) (js "Unknown error"))))
  /\ armed <$> timers w' !! length (timers w) = Some false
  /\ streams w' !! sid = Some (track_stop <$> tracks)
  /\ stream w' = None.
Proof.
  intros Hr Hm Hstate Hs Htracks. cbv zeta.
  rewrite (stopRecording_recording _ _ _ Hr Hm Hstate). cbn [fst snd].
  set (w1 := mkWorld _ _ _ _ _ _ _ _ _).
  cbn [fire].
  assert (Hh : recorders (inactivate r w1) !! r ≫= onerror
               = Some (onerror_stop (length (timers w)) (length (promises w)))).
  { unfold inactivate. subst w1. cbn [recorders set_recorders].
    now rewrite !list_lookup_alter_eq, Hm. }
  rewrite Hh. unfold on_error_stop.
  set (w2 := log LogStopError (clearTimeout (length (timers w)) (inactivate r w1))).
  assert (Hs2 : stream w2 = Some sid) by exact Hs.
  destruct (cleanup_released w2) as (Hcs & _).
  destruct (cleanup_untouched w2) as (_ & Hct & Hcp & _).
  unfold reject_promise. cbn [promises timers streams stream set_promises].
  rewrite Hcp, Hct, (cleanup_streams _ _ Hs2). subst w2 w1.
  cbn [promises timers streams log set_console clearTimeout set_timers inactivate
       set_recorders].
  split; [now rewrite list_lookup_alter_eq, lookup_last|].
  split; [now rewrite list_lookup_alter_eq, lookup_last|].
  split; [|exact Hcs].
  apply (lookup_alter_Some (fmap track_stop)). exact Htracks.
Qed.

(** C5: when [stop] is fired at a recorder whose [onstop] is the handler
    of [stopRecording], the pending promise is resolved exactly when the
    chunk sequence is not empty and its concatenation has bytes, and then
    with the concatenation; it is rejected with a no-audio error when
    there is no chunk, and when the concatenation is empty.  A resolved
    promise therefore means that a chunk with bytes was collected. *)
Theorem C5_finalization (w : World) (r t p : nat) (m : MediaRecorder) :
  recorders w !! r = Some m -> onstop m = Some (onstop_stop t p) ->
  promises w !! p = Some Pending ->
  let total := concat (bytes <$> audioChunks w) in
  let settled_with := promises (fire (EvStop r) w) !! p in
  (audioChunks w = [] ->
   settled_with
   = Some (Rejected (Error (js "No audio data recorded. Please try speaking louder or check your microphone."))))
  /\ (audioChunks w <> [] -> total = [] ->
      settled_with = Some (Rejected (Error (js "Empty audio recording. Please try again."))))
  /\ (audioChunks w <> [] -> total <> [] ->
      exists ty, settled_with = Some (Resolved (mkBlob total ty)))
  /\ (forall b, settled_with = Some (Resolved b) ->
      bytes b = total /\ 0 < size b /\ Exists (fun c => 0 < size c) (audioChunks w)).
Proof.
  intros Hm Hstop Hp. cbv zeta.
  rewrite (fire_stop_promise _ _ _ _ _ Hm Hstop Hp).
  set (ty := str_or _ _).
  unfold size, newBlob. cbn [bytes].
  split; [|split; [|split]].
  - intros ->. reflexivity.
  - intros Hne Htot. destruct (audioChunks w); [congruence|]. cbn [length Nat.eqb].
    now rewrite Htot.
  - intros Hne Htot. exists ty.
    destruct (audioChunks w) as [|c cs] eqn:E; [congruence|]. cbn [length Nat.eqb].
    destruct (concat _) eqn:E'; [congruence|]. reflexivity.
  - intros b.
    destruct (length (audioChunks w) =? 0); [discriminate|].
    destruct (length (concat (bytes <$> audioChunks w)) =? 0) eqn:E; [discriminate|].
    intros [= <-]. cbn [bytes]. apply Nat.eqb_neq in E.
    split; [reflexivity|]. split; [lia|].
    apply concat_nonempty. intros Hnil. rewrite Hnil in E. now apply E.
Qed.

Lemma C5_finalization_witness :
  exists ty,
    promises (fire (EvStop 0) (fst (stopRecording recording_session))) !! 0
    = Some (Resolved (mkBlob [Byte.x01; Byte.x02] ty)).
Proof.
  destruct (C5_finalization (fst (stopRecording recording_session)) 0 0 0
              (mkRecorder 0 (js "audio/webm") inactive (Some 1000%N)
                          true (Some (onerror_stop 0 0)) true (Some (onstop_stop 0 0)))
              eq_refl eq_refl eq_refl)
    as (_ & _ & H & _).
  apply H; discriminate.
Defined.

(** The scenario of three chunks of 1000 bytes: the audio has 3000 bytes
    and the first supported type. *)
Example three_chunks_of_1000 :
  let c := chunk (repeat Byte.x00 1000) in
  let w := run (EvDataAvailable 0 <$> [c; c; c]) (fst (startRecording webm_browser initial)) in
  (fun b => (size b, type b))
  <$> (promises (fire (EvStop 0) (fst (stopRecording w))) !! 0 ≫=
         fun p => match p with Resolved b => Some b | _ => None end)
  = Some (3000, js "audio/webm").
Proof. vm_compute. reflexivity. Qed.

(** C6: in a session started on a granted microphone with negotiated
    type [m], with chunks [before] delivered while recording and chunks
    [after] delivered between [stopRecording] and the [stop] event, the
    promise is resolved with the bytes of all chunks in their order of
    arrival (given that there are any bytes at all). *)
Theorem C6_chunk_order (env : Env) (w0 : World) (tracks : MediaStream) (m : jsstring)
    (before after : list Blob) :
  getUserMedia env constraints = Returned tracks ->
  first_supported env = Some m ->
  concat (bytes <$> before ++ after) <> [] ->
  let r := length (recorders w0) in
  let w1 := fst (startRecording env w0) in
  let w2 := run (EvDataAvailable r <$> before) w1 in
  let w3 := fst (stopRecording w2) in
  let p := snd (stopRecording w2) in
  let w4 := run (EvDataAvailable r <$> after) w3 in
  promises (fire (EvStop r) w4) !! p
  = Some (Resolved (mkBlob (concat (bytes <$> before ++ after)) m)).
Proof.
  intros Hgum Hm Hbytes. cbv zeta.
  rewrite (startRecording_selected _ _ _ _ Hgum Hm). cbn [fst].
  set (r := length (recorders w0)).
  set (rec := mkRecorder _ m recording _ _ _ _ _).
  set (w1 := mkWorld _ _ _ _ _ _ _ _ _).
  assert (Hrec1 : recorders w1 !! r = Some rec) by apply lookup_last.
  (* chunks delivered while recording *)
  destruct (run_quiet _ w1 (dataavailable_quiet r before))
    as (Hmr2 & _ & _ & Hrec2 & Ht2 & Hp2 & _).
  pose proof (run_dataavailable r before w1) as Hc2.
  rewrite Hrec1 in Hc2. specialize (Hc2 eq_refl). cbn [audioChunks w1 app] in Hc2.
  set (w2 := run (EvDataAvailable r <$> before) w1) in *.
  assert (Hrec2' : recorders w2 !! r = Some rec) by (now rewrite Hrec2).
  assert (Hmr2' : mediaRecorder w2 = Some r) by (now rewrite Hmr2).
  rewrite (stopRecording_recording _ _ _ Hmr2' Hrec2' eq_refl). cbn [fst snd].
  set (t := length (timers w2)). set (p := length (promises w2)).
  set (w3 := mkWorld _ _ _ _ _ _ _ _ _).
  assert (Hrec3 : recorders w3 !! r
                  = Some (set_state inactive (set_stop_handlers t p rec))).
  { subst w3. cbn [recorders]. now rewrite !list_lookup_alter_eq, Hrec2'. }
  (* chunks delivered after stop() *)
  destruct (run_quiet _ w3 (dataavailable_quiet r after))
    as (Hmr4 & _ & _ & Hrec4 & _ & Hp4 & _).
  pose proof (run_dataavailable r after w3) as Hc4.
  rewrite Hrec3 in Hc4. specialize (Hc4 eq_refl). cbn [audioChunks w3] in Hc4.
  set (w4 := run (EvDataAvailable r <$> after) w3) in *.
  assert (Hrec4' : recorders w4 !! r
                   = Some (set_state inactive (set_stop_handlers t p rec)))
    by (now rewrite Hrec4).
  assert (Hp4' : promises w4 !! p = Some Pending).
  { rewrite Hp4. subst w3. cbn [promises]. apply lookup_last. }
  rewrite (fire_stop_promise _ _ _ _ _ Hrec4' eq_refl Hp4').
  assert (Hchunks : audioChunks w4
                    = List.filter (fun c => 0 <? size c) (before ++ after)).
  { rewrite Hc4, Hc2. symmetry. apply List.filter_app. }
  assert (Htotal : concat (bytes <$> audioChunks w4) = concat (bytes <$> before ++ after)).
  { rewrite Hchunks. apply concat_filter_nonempty. }
  assert (Hty : mimeType <$> current_recorder w4 = Some m).
  { unfold current_recorder. rewrite Hmr4. subst w3. cbn [mediaRecorder].
    cbn [mbind option_bind]. now rewrite Hrec4'. }
  rewrite Hty. change (default [] (Some m)) with m.
  assert (Hm' : str_or m (js "audio/webm") = m).
  { unfold str_or. apply find_some in Hm as [Hin _].
    now rewrite (candidates_truthy _ Hin). }
  rewrite Hm'. unfold size, newBlob. cbn [bytes]. rewrite Htotal.
  destruct (audioChunks w4) as [|c cs] eqn:E.
  { exfalso. apply Hbytes. rewrite <- Htotal. reflexivity. }
  cbn [length Nat.eqb].
  destruct (concat (bytes <$> before ++ after)) eqn:E'; [congruence|]. reflexivity.
Qed.

Lemma C6_chunk_order_witness :
  let c1 := chunk [Byte.x01] in
  let c2 := chunk [Byte.x02; Byte.x03] in
  let c3 := chunk [Byte.x04] in
  let w2 := run (EvDataAvailable 0 <$> [c1; c2; c3]) (fst (startRecording webm_browser initial)) in
  promises (fire (EvStop 0) (run (EvDataAvailable 0 <$> []) (fst (stopRecording w2))))
  !! snd (stopRecording w2)
  = Some (Resolved (mkBlob (concat (bytes <$> [c1; c2; c3] ++ [])) (js "audio/webm")))
  /\ concat (bytes <$> [c1; c2; c3] ++ []) = [Byte.x01; Byte.x02; Byte.x03; Byte.x04].
Proof.
  split; [|reflexivity].
  exact (C6_chunk_order webm_browser initial microphone (js "audio/webm")
           [chunk [Byte.x01]; chunk [Byte.x02; Byte.x03]; chunk [Byte.x04]] []
           eq_refl eq_refl ltac:(discriminate)).
Defined.

End VoiceRecorderFacts.

(* ===================================================================== *)
(** ** Facts about [ClientSpeechRecognition] *)
(* ===================================================================== *)

Module ClientSpeechRecognitionFacts.
Import ClientSpeechRecognition.

Lemma accumulate_finals (event : SpeechRecognitionEvent) (ft : jsstring) :
  accumulate event ft = ft ++ finals event.
Proof.
  unfold accumulate, finals.
  generalize (drop (resultIndex event) (results event)) as rs.
  intros rs. revert ft. induction rs as [|r rs IH]; intros ft; cbn [foldl List.filter].
  - cbn. now rewrite app_nil_r.
  - rewrite IH. destruct (isFinal r); [|reflexivity].
    rewrite fmap_cons. cbn [concat compose]. now rewrite <- app_assoc.
Qed.

Lemma finals_interim (event : SpeechRecognitionEvent) :
  forallb (fun r => negb (isFinal r)) (results event) = true -> finals event = [].
Proof.
  unfold finals. intros H.
  assert (Hd : forallb (fun r => negb (isFinal r))
                 (drop (resultIndex event) (results event)) = true).
  { rewrite forallb_forall in *. intros r Hr. apply H.
    apply list_elem_of_In. apply list_elem_of_In in Hr.
    eapply (subseteq_drop (resultIndex event)). exact Hr. }
  induction (drop (resultIndex event) (results event)) as [|r rs IH];
    cbn [List.filter]; [reflexivity|].
  cbn [forallb] in Hd. apply andb_prop in Hd as [Hr Hrs].
  destruct (isFinal r); [discriminate | exact (IH Hrs)].
Qed.

Lemma heard_interim (evs : list Event) :
  forallb interim_only evs = true -> heard evs = [].
Proof.
  unfold heard. induction evs as [|ev evs IH]; cbn [forallb]; [reflexivity|].
  intros [Hev Hevs]%andb_prop. rewrite fmap_cons. cbn [concat]. rewrite (IH Hevs).
  destruct ev; try reflexivity. cbn [interim_only] in Hev.
  now rewrite (finals_interim _ Hev).
Qed.

(** While the recognition goes on, the call whose handlers are assigned
    accumulates the final results and its promise is left alone. *)
Lemma run_listening (evs : list Event) (s : State) (p : nat) (ft : jsstring)
    (pr : PromiseState jsstring) :
  handlers s = Some p -> calls s !! p = Some (mkCall ft pr) ->
  forallb listening evs = true ->
  handlers (run evs s) = Some p
  /\ calls (run evs s) !! p = Some (mkCall (ft ++ heard evs) pr).
Proof.
  revert s ft. induction evs as [|ev evs IH]; intros s ft Hh Hc; cbn [forallb run foldl].
  - intros _. unfold heard. cbn. rewrite app_nil_r. auto.
  - intros [Hev Hevs]%andb_prop.
    assert (Hstep : handlers (fire ev s) = Some p
                    /\ calls (fire ev s) !! p
                       = Some (mkCall (ft ++ match ev with
                                             | EvResult event => finals event
                                             | _ => []
                                             end) pr)).
    { destruct ev as [|event|e|]; try discriminate; cbn [fire]; rewrite Hh.
      - cbn. rewrite app_nil_r. auto.
      - unfold on_result. cbn [handlers calls set_calls]. split; [exact Hh|].
        rewrite list_lookup_alter_eq, Hc. cbn. now rewrite accumulate_finals. }
    destruct Hstep as [Hh' Hc'].
    destruct (IH (fire ev s) _ Hh' Hc' Hevs) as [Hh'' Hc''].
    change (foldl (flip fire) (flip fire s ev) evs) with (run evs (fire ev s)).
    split; [exact Hh''|]. rewrite Hc''. unfold heard. rewrite fmap_cons. cbn [concat].
    now rewrite <- app_assoc.
Qed.

Lemma startListening_idle (s : State) (cfg : Settings) :
  recognition s = Some cfg -> isListening s = false -> started s = false ->
  startListening s
  = (mkState (Some cfg) false true (Some (length (calls s)))
             (calls s ++ [mkCall [] Pending]),
     length (calls s)).
Proof.
  intros Hrec Hlis Hst. unfold startListening. simpl.
  rewrite Hrec. simpl. rewrite Hlis. simpl. rewrite Hst.
  unfold set_started, set_handlers, set_calls. simpl. now rewrite Hrec, Hlis.
Qed.

(** C8: a recognition started on an idle instance, through any events
    of a recognition going on, to its normal end.  The promise is settled
    from the final results alone: resolved with their trimmed
    concatenation when that is not empty, rejected with the no-speech
    error otherwise.  So a stream without final results is rejected, and
    what a resolved promise carries is not empty and is trimmed. *)
Theorem C8_local_recognition (s : State) (cfg : Settings) (evs : list Event) :
  recognition s = Some cfg -> isListening s = false -> started s = false ->
  forallb listening evs = true ->
  let p := snd (startListening s) in
  let s' := run (evs ++ [EvEnd]) (fst (startListening s)) in
  let outcome := promise <$> calls s' !! p in
  outcome
  = Some (if truthy (trim (heard evs)) then Resolved (trim (heard evs))
          else Rejected (Error (js "No speech detected")))
  /\ (forallb interim_only evs = true ->
      outcome = Some (Rejected (Error (js "No speech detected"))))
  /\ (forall v, outcome = Some (Resolved v) ->
      v <> [] /\ trim v = v /\ v = trim (heard evs))
  /\ isListening s' = false.
Proof.
  intros Hrec Hlis Hst Hevs. cbv zeta.
  rewrite (startListening_idle _ _ Hrec Hlis Hst). cbn [fst snd].
  set (p := length (calls s)).
  set (s1 := mkState _ _ _ _ _).
  assert (Hh1 : handlers s1 = Some p) by reflexivity.
  assert (Hc1 : calls s1 !! p = Some (mkCall [] Pending)).
  { subst s1. cbn [calls]. apply list_lookup_middle. reflexivity. }
  destruct (run_listening evs s1 p [] Pending Hh1 Hc1 Hevs) as [Hh2 Hc2].
  cbn [app] in Hc2.
  unfold run. rewrite foldl_app. fold (run evs s1). set (s2 := run evs s1) in *.
  cbn [foldl flip fire]. cbn [handlers set_started]. rewrite Hh2.
  unfold on_end. cbn [calls set_isListening set_started]. rewrite Hc2.
  cbn [fmap option_fmap option_map finalTranscript].
  assert (Hout : promise <$> calls
                   (if truthy (trim (heard evs))
                    then settle p (resolve (trim (heard evs)))
                           (set_isListening false (set_started false s2))
                    else settle p (reject (Error (js "No speech detected")))
                           (set_isListening false (set_started false s2))) !! p
                 = Some (if truthy (trim (heard evs)) then Resolved (trim (heard evs))
                         else Rejected (Error (js "No speech detected")))).
  { destruct (truthy (trim (heard evs))); unfold settle;
      cbn [calls set_calls set_isListening set_started];
      rewrite list_lookup_alter_eq, Hc2; reflexivity. }
  split; [exact Hout|]. rewrite Hout. split; [|split].
  - intros Hint. rewrite (heard_interim _ Hint). reflexivity.
  - intros v. destruct (truthy (trim (heard evs))) eqn:Ht; [|discriminate].
    intros [= <-]. split; [now apply truthy_nonempty|]. split; [apply trim_idem | reflexivity].
  - destruct (truthy (trim (heard evs))); reflexivity.
Qed.

Lemma C8_local_recognition_witness :
  let hello := mkEvent 0 [said false "hel"; said true " hello "] in
  let interim := mkEvent 0 [said false "hel"] in
  promise <$> calls (run [EvStart; EvResult interim; EvResult hello; EvEnd]
                         (fst (startListening idle))) !! 0
  = Some (Resolved (js "hello"))
  /\ promise <$> calls (run [EvStart; EvResult interim; EvEnd]
                            (fst (startListening idle))) !! 0
     = Some (Rejected (Error (js "No speech detected"))).
Proof.
  cbv zeta. split.
  - destruct (C8_local_recognition idle (mkSettings false false 1%N (js "en-US"))
                [EvStart; EvResult (mkEvent 0 [said false "hel"]);
                 EvResult (mkEvent 0 [said false "hel"; said true " hello "])]
                eq_refl eq_refl eq_refl eq_refl) as (H & _).
    exact H.
  - destruct (C8_local_recognition idle (mkSettings false false 1%N (js "en-US"))
                [EvStart; EvResult (mkEvent 0 [said false "hel"])]
                eq_refl eq_refl eq_refl eq_refl) as (_ & H & _).
    exact (H eq_refl).
Defined.

End ClientSpeechRecognitionFacts.

(* ===================================================================== *)
(** ** Facts about [convertBlobToBase64] and [handleStopRecording] *)
(* ===================================================================== *)

Module MicrophoneButtonFacts.
Import MicrophoneButton.

(** *** The conversion *)

Lemma convert_empty (blob : Blob) :
  size blob = 0 ->
  Base64.convertBlobToBase64 blob
  = Base64.mkConversion (Rejected (Error (js "Cannot convert empty blob to base64")))
                        false None.
Proof. intros H. unfold Base64.convertBlobToBase64. now rewrite H. Qed.

Lemma convert_nonempty (blob : Blob) :
  size blob <> 0 ->
  Base64.convertBlobToBase64 blob
  = Base64.mkConversion Pending true (Some (mkTimer 10000%N true tt)).
Proof.
  intros H. unfold Base64.convertBlobToBase64.
  destruct (size blob =? 0) eqn:E; [apply Nat.eqb_eq in E; contradiction | reflexivity].
Qed.

(** A conversion that made neither reader nor timer has no event to
    react to. *)
Lemma run_inert (msg : jsstring) (evs : list Base64.ReaderEvent) (c : Base64.Conversion) :
  Base64.reader c = false -> Base64.timer c = None -> Base64.run msg evs c = c.
Proof.
  intros Hr Ht. induction evs as [|ev evs IH]; [reflexivity|].
  cbn [Base64.run foldl flip]. 
  assert (Hfire : Base64.fire msg ev c = c).
  { destruct ev; cbn [Base64.fire]; now rewrite ?Hr, ?Ht. }
  rewrite Hfire. exact IH.
Qed.

(** An event that leaves the promise pending has run no handler. *)
Lemma fire_pending (msg : jsstring) (ev : Base64.ReaderEvent) (c : Base64.Conversion) :
  Base64.promise (Base64.fire msg ev c) = Pending -> Base64.fire msg ev c = c.
Proof.
  destruct c as [pr rd tm].
  destruct ev as [result| |]; cbn [Base64.fire Base64.reader Base64.timer].
  - destruct rd; [|reflexivity]. unfold Base64.on_loadend, Base64.settle.
    destruct result as [[|c0 s0]|];
      [| destruct (split 44%N (c0 :: s0) !! 1) as [[|c1 s1]|] |];
      destruct pr; cbn [Base64.promise Base64.clearTimeout reject resolve];
      intros H; discriminate H.
  - destruct rd; [|reflexivity]. unfold Base64.on_error, Base64.settle.
    destruct pr; cbn [Base64.promise Base64.clearTimeout reject resolve];
      intros H; discriminate H.
  - destruct tm as [[d [|] a]|]; cbn [armed]; try reflexivity.
    unfold Base64.on_timeout, Base64.settle.
    destruct pr; cbn [Base64.promise Base64.clearTimeout reject resolve];
      intros H; discriminate H.
Qed.

Lemma fire_waiting (msg : jsstring) (ev : Base64.ReaderEvent) (c : Base64.Conversion) :
  Base64.waiting c -> Base64.waiting (Base64.fire msg ev c).
Proof.
  unfold Base64.waiting. intros Hw Hp.
  pose proof (fire_pending _ _ _ Hp) as E. rewrite E in Hp |- *. exact (Hw Hp).
Qed.

Lemma run_waiting (msg : jsstring) (evs : list Base64.ReaderEvent) (c : Base64.Conversion) :
  Base64.waiting c -> Base64.waiting (Base64.run msg evs c).
Proof.
  revert c. induction evs as [|ev evs IH]; intros c Hw; [exact Hw|].
  apply (IH (Base64.fire msg ev c)). now apply fire_waiting.
Qed.

(** When the timer expires the promise is settled; a promise that was
    still pending is rejected with the timeout error. *)
Lemma timeout_settles (msg : jsstring) (c : Base64.Conversion) :
  Base64.waiting c ->
  Base64.promise (Base64.fire msg Base64.EvTimeout c)
  = match Base64.promise c with
    | Pending => Rejected (Error msg)
    | settled_already => settled_already
    end.
Proof.
  unfold Base64.waiting. intros Hw. destruct c as [pr rd tm]. cbn in *.
  destruct pr as [|v|e].
  - rewrite (Hw eq_refl). reflexivity.
  - destruct tm as [[d [|] a]|]; reflexivity.
  - destruct tm as [[d [|] a]|]; reflexivity.
Qed.

(** *** The handler *)

(** The handler passes on a transcript only from a response that is
    [ok], and then the trimmed text, which is not empty. *)
Lemma handle_response_transcription (response : Response) (t : jsstring) :
  In (OnTranscription t) (fst (handle_response response)) ->
  exists data raw,
    json response = Resolved data /\ ok response = true
    /\ text data = Some raw /\ t = trim raw /\ t <> [].
Proof.
  unfold handle_response.
  destruct (json response) as [|data|e]; [intros [] | | intros []].
  destruct (ok response); cbn [negb].
  - destruct (text data) as [raw|] eqn:Htext.
    + change (default [] (Some raw)) with raw.
      destruct (truthy raw && truthy (trim raw)) eqn:E; cbn [fst In].
      * intros [[= <-]|[H|[]]]; [|discriminate H].
        apply andb_prop in E as [_ E]. exists data, raw.
        repeat split; [exact Htext | now apply truthy_nonempty].
      * intros [H|[]]. discriminate H.
    + cbn. intros [H|[]]. discriminate H.
  - destruct (match error data with Some e => _ | None => false end);
      cbn [fst In]; intros [H|[]]; discriminate H.
Qed.

Lemma transcribe_transcription (a : Awaited) (t : jsstring) :
  In (OnTranscription t) (fst (transcribe a)) -> t <> [] /\ trim t = t.
Proof.
  unfold transcribe.
  destruct (stopped a) as [|audioBlob|e]; [intros [] | | intros []].
  destruct (Base64.promise _) as [|base64Audio|e]; [intros [] | | intros []].
  destruct (fetched a base64Audio) as [|response|e]; cbn [fst In].
  - intros [H|[]]. discriminate H.
  - destruct (handle_response response) as [effects c] eqn:E. cbn [fst In].
    intros [H|H]; [discriminate H|].
    destruct (handle_response_transcription response t) as (data & raw & _ & _ & _ & -> & Hne).
    { now rewrite E. }
    split; [exact Hne | apply trim_idem].
  - intros [H|[]]. discriminate H.
Qed.

Lemma handleStopRecording_effects (a : Awaited) (eff : Effect) :
  In eff (handleStopRecording a) ->
  In eff (fst (transcribe a))
  \/ match eff with OnTranscription _ | Fetch _ _ => False | _ => True end.
Proof.
  unfold handleStopRecording, try_block.
  destruct (recorder a); cbn [negb].
  - destruct (transcribe a) as [effects c]. cbn [fst].
    assert (Hother : forall l : list Effect,
               In eff ([SetIsRecording false; SetIsProcessing true]
                       ++ (if interval a then [ClearInterval] else []) ++ l) ->
               In eff l \/ match eff with
                           | OnTranscription _ | Fetch _ _ => False
                           | _ => True
                           end).
    { intros l. destruct (interval a); cbn [app In]; intros H;
        repeat (destruct H as [<-|H]; [right; exact I|]); now left. }
    destruct c; rewrite <- app_assoc; intros H; apply Hother in H as [H|H];
      try (right; exact H); unfold finally in H; cbn [app] in H.
    + apply in_app_or in H as [H|H]; [now left|].
      repeat (destruct H as [<-|H]; [right; exact I|]). destruct H.
    + apply in_app_or in H as [H|H]; [now left|].
      repeat (destruct H as [<-|H]; [right; exact I|]). destruct H.
    + now left.
  - destruct (interval a); cbn [app In]; intros H;
      repeat (destruct H as [<-|H]; [right; exact I|]); destruct H.
Qed.

(** C9: a response with status 200 whose text is missing, empty or
    blank gets the no-speech toast and no transcript is passed on;
    whatever the handler passes to [onTranscription] is the trimmed text
    of the response and is not empty. *)
Theorem C9_blank_transcript (response : Response) (data : Body) :
  json response = Resolved data -> status response = 200%N ->
  (trim (default [] (text data)) = [] ->
   handle_response response
   = ([Toast (js "No speech detected") (js "Please try speaking more clearly") true],
      Normal))
  /\ (forall t, In (OnTranscription t) (fst (handle_response response)) ->
      t <> [] /\ exists raw, text data = Some raw /\ t = trim raw)
  /\ (forall a t, In (OnTranscription t) (handleStopRecording a) ->
      t <> [] /\ trim t = t).
Proof.
  intros Hjson Hstatus. split; [|split].
  - intros Hblank. unfold handle_response, ok. rewrite Hjson, Hstatus. cbn [negb N.leb].
    cbn. rewrite Hblank. cbn [truthy]. now rewrite Bool.andb_false_r.
  - intros t Ht.
    destruct (handle_response_transcription _ _ Ht) as (d & raw & Hd & _ & Hraw & -> & Hne).
    rewrite Hjson in Hd. injection Hd as <-.
    split; [exact Hne|]. now exists raw.
  - intros a t Ht. destruct (handleStopRecording_effects a _ Ht) as [Ht'|[]].
    exact (transcribe_transcription a t Ht').
Qed.

Lemma C9_blank_transcript_witness :
  handleStopRecording
    (exchange (mkBlob [Byte.x01] (js "audio/webm")) "data:audio/webm;base64,AQ=="
              (mkResponse 200%N (Resolved (mkBody (Some (js "  ")) None))))
  = [SetIsRecording false; SetIsProcessing true; ClearInterval;
     Fetch endpoint (js "AQ==");
     Toast (js "No speech detected") (js "Please try speaking more clearly") true;
     SetIsProcessing false; SetRecordingDuration 0].
Proof.
  destruct (C9_blank_transcript
              (mkResponse 200%N (Resolved (mkBody (Some (js "  ")) None)))
              (mkBody (Some (js "  ")) None) eq_refl eq_refl) as (H & _).
  specialize (H eq_refl).
  unfold handleStopRecording, try_block, transcribe, exchange.
  cbn [recorder negb stopped reader fetched interval].
  change (Base64.promise _) with (@Resolved jsstring (js "AQ==")).
  cbn iota. rewrite H. reflexivity.
Defined.

End MicrophoneButtonFacts.

(** C10: for a blob of size zero [convertBlobToBase64] rejects at once:
    no reader and no timer are made, no later event changes the outcome,
    and [handleStopRecording], given such a blob, never calls [fetch].
    For any other blob the promise is pending under a timer of 10000 ms;
    when the timer expires the promise is settled, and if nothing
    settled it before, it is rejected with the timeout error. *)
Theorem C10_encoder (blob : Blob) :
  (size blob = 0 ->
   convertBlobToBase64 blob
   = Base64.mkConversion (Rejected (Error (js "Cannot convert empty blob to base64")))
                         false None
   /\ (forall evs,
         Base64.run conversion_timeout_message evs (convertBlobToBase64 blob)
         = convertBlobToBase64 blob)
   /\ (forall a url audio,
         MicrophoneButton.stopped a = Resolved blob ->
         ~ In (MicrophoneButton.Fetch url audio) (MicrophoneButton.handleStopRecording a)))
  /\ (size blob <> 0 ->
      convertBlobToBase64 blob
      = Base64.mkConversion Pending true (Some (mkTimer 10000%N true tt))
      /\ Base64.promise
           (Base64.run conversion_timeout_message [Base64.EvTimeout]
                       (convertBlobToBase64 blob))
         = Rejected (Error (js "Conversion timeout - please try again"))
      /\ (forall evs,
            settled (Base64.promise
                       (Base64.run conversion_timeout_message (evs ++ [Base64.EvTimeout])
                                   (convertBlobToBase64 blob)))
            = true)).
Proof.
  unfold convertBlobToBase64. split.
  - intros Hsize. rewrite (MicrophoneButtonFacts.convert_empty _ Hsize).
    split; [reflexivity|]. split.
    + intros evs. now apply MicrophoneButtonFacts.run_inert.
    + intros a url audio Hstopped Hin.
      destruct (MicrophoneButtonFacts.handleStopRecording_effects a _ Hin) as [H|[]].
      unfold MicrophoneButton.transcribe in H. rewrite Hstopped, (MicrophoneButtonFacts.convert_empty _ Hsize) in H.
      rewrite MicrophoneButtonFacts.run_inert in H by reflexivity. destruct H.
  - intros Hsize. rewrite (MicrophoneButtonFacts.convert_nonempty _ Hsize).
    split; [reflexivity|]. split; [reflexivity|].
    intros evs. unfold Base64.run. rewrite foldl_app.
    fold (Base64.run conversion_timeout_message evs
            (Base64.mkConversion Pending true (Some (mkTimer 10000%N true tt)))).
    cbn [foldl flip]. rewrite MicrophoneButtonFacts.timeout_settles.
    + destruct (Base64.promise _); reflexivity.
    + apply MicrophoneButtonFacts.run_waiting. intros _. reflexivity.
Qed.

Lemma C10_encoder_witness :
  (forall evs,
      Base64.promise (Base64.run conversion_timeout_message evs
                                 (convertBlobToBase64 (mkBlob [] (js "audio/webm"))))
      = Rejected (Error (js "Cannot convert empty blob to base64")))
  /\ Base64.promise
       (Base64.run conversion_timeout_message [Base64.EvTimeout]
                   (convertBlobToBase64 (mkBlob [Byte.x01] (js "audio/webm"))))
     = Rejected (Error (js "Conversion timeout - please try again")).
Proof.
  split.
  - intros evs.
    destruct (C10_encoder (mkBlob [] (js "audio/webm"))) as [H _].
    destruct (H eq_refl) as (Hc & Hrun & _).
    rewrite Hrun, Hc. reflexivity.
  - destruct (C10_encoder (mkBlob [Byte.x01] (js "audio/webm"))) as [_ H].
    destruct H as (_ & Ht & _); [discriminate | exact Ht].
Defined.

(* ===================================================================== *)
(** ** Facts about recorder sessions *)
(* ===================================================================== *)

Module VoiceRecorderSessions.
Import VoiceRecorder VoiceRecorderFacts.

Arguments cleanup : simpl never.

(** *** Timers, promises and handlers *)

Lemma timer_promise_disarm (tm : Timer TimerAction) :
  timer_promise (disarm tm) = timer_promise tm.
Proof. reflexivity. Qed.

Lemma consistent_initial : consistent [] [] [].
Proof. split; intros *; rewrite ?lookup_nil; discriminate. Qed.

(** Recorders may change as long as no handler of [stopRecording]
    appears that was not there. *)
Lemma consistent_recorders (ts : list (Timer TimerAction))
    (ps : list (PromiseState Blob)) (rs rs' : list MediaRecorder) :
  consistent ts ps rs ->
  (forall r m' t p, rs' !! r = Some m' -> handler_of m' t p ->
                    exists r0 m, rs !! r0 = Some m /\ handler_of m t p) ->
  consistent ts ps rs'.
Proof.
  intros [Hd Hb Ha Hp Hi Hh] Hrs. split; try assumption.
  intros r m' t p Hr Hm'. destruct (Hrs _ _ _ _ Hr Hm') as (r0 & m & Hr0 & Hm).
  exact (Hh _ _ _ _ Hr0 Hm).
Qed.

Lemma handlers_set_state (s : RecordingState) (i : nat) (rs : list MediaRecorder) :
  forall r m' t p, alter (set_state s) i rs !! r = Some m' -> handler_of m' t p ->
                   exists r0 m, rs !! r0 = Some m /\ handler_of m t p.
Proof.
  intros r m' t p Hr Hm'. destruct (decide (i = r)) as [->|Hne].
  - rewrite list_lookup_alter_eq in Hr. destruct (rs !! r) as [m|] eqn:E; [|discriminate].
    injection Hr as <-. exists r, m. split; [exact E | exact Hm'].
  - rewrite list_lookup_alter_ne in Hr by exact Hne. eauto.
Qed.

Lemma handlers_new_recorder (rs : list MediaRecorder) (s : nat) (mime : jsstring) :
  forall r m' t p,
    (rs ++ [mkRecorder s mime recording (Some 1000%N) true (Some onerror_start) true None])
      !! r = Some m' ->
    handler_of m' t p -> exists r0 m, rs !! r0 = Some m /\ handler_of m t p.
Proof.
  intros r m' t p Hr Hm'. apply lookup_app_Some in Hr as [Hr|[_ Hr]].
  - eauto.
  - apply list_lookup_singleton_Some in Hr as [_ <-].
    destruct Hm' as [H|H]; discriminate H.
Qed.

(** A timer is disarmed and its promise settled. *)
Lemma consistent_settle (ts : list (Timer TimerAction)) (ps : list (PromiseState Blob))
    (rs : list MediaRecorder) (t p : nat) (tm : Timer TimerAction)
    (f : PromiseState Blob -> PromiseState Blob) :
  consistent ts ps rs -> ts !! t = Some tm -> timer_promise tm = p ->
  (forall x, f x <> Pending) ->
  consistent (alter disarm t ts) (alter f p ps) rs.
Proof.
  intros [Hd Hb Ha Hp Hi Hh] Ht Htp Hf.
  assert (Hlook : forall t' tm', alter disarm t ts !! t' = Some tm' ->
            exists tm0, ts !! t' = Some tm0 /\ timer_promise tm' = timer_promise tm0
                        /\ delay tm' = delay tm0
                        /\ (t' = t /\ armed tm' = false \/ t' <> t /\ tm' = tm0)).
  { intros t' tm' H. destruct (decide (t = t')) as [<-|Hne].
    - rewrite list_lookup_alter_eq, Ht in H. injection H as <-.
      exists tm. split; [exact Ht|]. split; [reflexivity|]. split; [reflexivity|].
      left. split; reflexivity.
    - rewrite list_lookup_alter_ne in H by exact Hne. exists tm'.
      split; [exact H|]. split; [reflexivity|]. split; [reflexivity|].
      right. split; congruence. }
  split.
  - intros t' tm' H. destruct (Hlook _ _ H) as (tm0 & H0 & _ & -> & _). eauto.
  - intros t' tm' H. destruct (Hlook _ _ H) as (tm0 & H0 & -> & _).
    rewrite length_alter. eauto.
  - intros t' tm' H. destruct (Hlook _ _ H) as (tm0 & H0 & Hpr & _ & [[-> Harm]|[Hne ->]]).
    + rewrite Hpr. rewrite Ht in H0. injection H0 as <-. rewrite Htp.
      rewrite list_lookup_alter_eq, Harm. split; [discriminate|].
      destruct (ps !! p) as [x|]; [|discriminate]. intros [= H']. now apply Hf in H'.
    + assert (Hpp : timer_promise tm0 <> p).
      { intros E. apply Hne. apply (Hi t' t tm0 tm H0 Ht). congruence. }
      rewrite list_lookup_alter_ne by congruence. exact (Ha _ _ H0).
  - intros q Hq. destruct (decide (p = q)) as [<-|Hne].
    + rewrite list_lookup_alter_eq in Hq. destruct (ps !! p) as [x|]; [|discriminate].
      injection Hq as Hq. now apply Hf in Hq.
    + rewrite list_lookup_alter_ne in Hq by exact Hne.
      destruct (Hp _ Hq) as (t' & tm' & Ht' & Htp').
      destruct (decide (t = t')) as [<-|Hne'].
      * exfalso. apply Hne. congruence.
      * exists t', tm'. now rewrite list_lookup_alter_ne.
  - intros t1 t2 tm1 tm2 H1 H2 E.
    destruct (Hlook _ _ H1) as (tm1' & H1' & E1 & _).
    destruct (Hlook _ _ H2) as (tm2' & H2' & E2 & _).
    apply (Hi _ _ _ _ H1' H2'). congruence.
  - intros r m t' p' Hr Hm. destruct (Hh _ _ _ _ Hr Hm) as (tm' & Ht' & Htp').
    destruct (decide (t = t')) as [<-|Hne].
    + exists (disarm tm'). now rewrite list_lookup_alter_eq, Ht'.
    + exists tm'. now rewrite list_lookup_alter_ne.
Qed.

(** A settled promise is appended. *)
Lemma consistent_append_settled (ts : list (Timer TimerAction))
    (ps : list (PromiseState Blob)) (rs : list MediaRecorder) (x : PromiseState Blob) :
  consistent ts ps rs -> x <> Pending -> consistent ts (ps ++ [x]) rs.
Proof.
  intros [Hd Hb Ha Hp Hi Hh] Hx. split; try assumption.
  - intros t tm H. rewrite length_app. cbn. specialize (Hb _ _ H). lia.
  - intros t tm H. rewrite lookup_app_l by exact (Hb _ _ H). exact (Ha _ _ H).
  - intros p H. apply lookup_app_Some in H as [H|[_ H]]; [now apply Hp|].
    apply list_lookup_singleton_Some in H as [_ E]. congruence.
Qed.

(** [stopRecording] on a recorder: a pending promise and its armed timer
    are appended, and the handlers of recorder [r] capture them. *)
Lemma consistent_stop (ts : list (Timer TimerAction)) (ps : list (PromiseState Blob))
    (rs : list MediaRecorder) (r : nat) :
  consistent ts ps rs ->
  consistent (ts ++ [mkTimer stop_timeout_delay true (stop_timeout (length ps))])
             (ps ++ [Pending])
             (alter (set_stop_handlers (length ts) (length ps)) r rs).
Proof.
  intros [Hd Hb Ha Hp Hi Hh].
  set (new := mkTimer stop_timeout_delay true (stop_timeout (length ps))).
  assert (Hlook : forall t tm, (ts ++ [new]) !! t = Some tm ->
            ts !! t = Some tm \/ t = length ts /\ tm = new).
  { intros t tm H. apply lookup_app_Some in H as [H|[Hge H]]; [now left|].
    apply list_lookup_singleton_Some in H as [H <-]. right. split; [lia | reflexivity]. }
  split.
  - intros t tm H. destruct (Hlook _ _ H) as [H'|[_ ->]]; [eauto | reflexivity].
  - intros t tm H. rewrite length_app. cbn.
    destruct (Hlook _ _ H) as [H'|[_ ->]]; [specialize (Hb _ _ H') | cbn]; lia.
  - intros t tm H. destruct (Hlook _ _ H) as [H'|[_ ->]].
    + rewrite lookup_app_l by exact (Hb _ _ H'). exact (Ha _ _ H').
    + cbn. rewrite lookup_last. tauto.
  - intros p H. apply lookup_app_Some in H as [H|[Hge H]].
    + destruct (Hp _ H) as (t & tm & Ht & Htp). exists t, tm.
      split; [now apply lookup_app_l_Some | exact Htp].
    + apply list_lookup_singleton_Some in H as [H _].
      exists (length ts), new. split; [apply lookup_last | cbn; lia].
  - intros t t' tm tm' H H' E.
    destruct (Hlook _ _ H) as [H0|[-> ->]]; destruct (Hlook _ _ H') as [H0'|[-> ->]].
    + eauto.
    + specialize (Hb _ _ H0). cbn in E. lia.
    + specialize (Hb _ _ H0'). cbn in E. lia.
    + reflexivity.
  - intros i m t p Hi' Hm. destruct (decide (r = i)) as [->|Hne].
    + rewrite list_lookup_alter_eq in Hi'. destruct (rs !! i) as [m0|]; [|discriminate].
      injection Hi' as <-. exists new.
      destruct Hm as [Hm|Hm]; cbn in Hm; injection Hm as <- <-;
        (split; [apply lookup_last | reflexivity]).
    + rewrite list_lookup_alter_ne in Hi' by exact Hne.
      destruct (Hh _ _ _ _ Hi' Hm) as (tm & Ht & Htp). exists tm.
      split; [now apply lookup_app_l_Some | exact Htp].
Qed.

Lemma reject_not_pending {A} (e : JsError) (x : PromiseState A) : reject e x <> Pending.
Proof. destruct x; discriminate. Qed.

Lemma resolve_not_pending {A} (v : A) (x : PromiseState A) : resolve v x <> Pending.
Proof. destruct x; discriminate. Qed.

(** *** What the handlers of [stopRecording] and the timer leave behind *)

Lemma cleanup_runs_cleanup (w : World) : cleanup_runs (cleanup w) = S (cleanup_runs w).
Proof.
  unfold cleanup_runs. rewrite cleanup_console, !List.filter_app, !length_app.
  cbn [List.filter is_cleanup length].
  assert (H : forall l : list MediaStreamTrack,
             List.filter is_cleanup (LogTrackStopped ∘ label <$> l) = []).
  { induction l as [|x l IH]; [reflexivity | exact IH]. }
  destruct (stream w); [rewrite H|]; cbn [length List.filter]; lia.
Qed.

Lemma cleanup_runs_log (l : LogLine) (w : World) :
  is_cleanup l = false -> cleanup_runs (log l w) = cleanup_runs w.
Proof.
  intros H. unfold cleanup_runs, log. cbn [console set_console].
  rewrite List.filter_app. cbn [List.filter]. rewrite H, app_nil_r. reflexivity.
Qed.

Lemma settles_from_reject (w : World) (e : JsError) :
  e <> empty_recording -> settles_from w (reject e).
Proof. intros H. left. exists e. split; [reflexivity | intros E; contradiction]. Qed.

Lemma settles_from_not_pending (w : World) (f : PromiseState Blob -> PromiseState Blob) :
  settles_from w f -> forall x, f x <> Pending.
Proof.
  intros [(e & -> & _)|(v & -> & _)] x;
    [apply reject_not_pending | apply resolve_not_pending].
Qed.


(** A world made of [w] by clearing the timer, logging lines that are
    not the one of [cleanup], running [cleanup] and settling promise [p]
    is [finished]. *)
Lemma finished_intro (t p : nat) (w : World) (ls : list LogLine)
    (f : PromiseState Blob -> PromiseState Blob) :
  forallb (fun l => negb (is_cleanup l)) ls = true -> settles_from w f ->
  let w1 := set_console (console w ++ ls) (clearTimeout t w) in
  finished t p w (set_promises (alter f p (promises (cleanup w1))) (cleanup w1)).
Proof.
  intros Hl Hf w1.
  destruct (cleanup_released w1) as (Hs & Hr & Hc).
  destruct (cleanup_untouched w1) as (Hrec & Ht & Hp & Hu).
  unfold finished.
  cbn [promises timers recorders stream mediaRecorder audioChunks uncaught set_promises].
  rewrite Hp, Ht, Hrec, Hu.
  split; [exists f; split; [exact Hf | reflexivity]|].
  repeat (split; [assumption || reflexivity|]).
  split; [|reflexivity].
  unfold cleanup_runs at 1. cbn [console set_promises].
  fold (cleanup_runs (cleanup w1)). rewrite cleanup_runs_cleanup. f_equal.
  unfold cleanup_runs. subst w1. cbn [console set_console].
  rewrite List.filter_app.
  assert (Hnone : List.filter is_cleanup ls = []).
  { clear -Hl. induction ls as [|l ls IH]; [reflexivity|].
    cbn [forallb] in Hl. apply andb_prop in Hl as [Hl Hls].
    cbn [List.filter]. destruct (is_cleanup l); [discriminate | exact (IH Hls)]. }
  now rewrite Hnone, app_nil_r.
Qed.

Lemma not_empty_recording_failed (x : jsstring) :
  Error (js "Recording failed: " ++ x) <> empty_recording.
Proof. intros H. vm_compute in H. discriminate H. Qed.

Lemma log_log (l1 l2 : LogLine) (w : World) :
  log l2 (log l1 w) = set_console (console w ++ [l1; l2]) w.
Proof. unfold log, set_console. cbn. now rewrite <- app_assoc. Qed.

Lemma on_stop_finished (t p : nat) (w : World) : finished t p w (on_stop t p w).
Proof.
  unfold on_stop.
  change (audioChunks (log _ (clearTimeout t w))) with (audioChunks w).
  destruct (length (audioChunks w) =? 0) eqn:Hlen.
  - apply (finished_intro t p w [LogStopped _] (reject _)); [reflexivity|].
    apply settles_from_reject. intros H. vm_compute in H. discriminate H.
  - set (b := newBlob _ _).
    assert (Hb : bytes b = concat (bytes <$> audioChunks w)) by reflexivity.
    assert (Hne : audioChunks w <> []).
    { intros E. rewrite E in Hlen. discriminate Hlen. }
    rewrite log_log.
    destruct (size b =? 0) eqn:Hsize.
    + apply (finished_intro t p w
               [LogStopped (length (audioChunks w)); LogBlobCreated (size b)]
               (reject (Error (js "Empty audio recording. Please try again."))));
        [reflexivity|].
      left. eexists. split; [reflexivity|]. intros _. split; [exact Hne|].
      apply Nat.eqb_eq in Hsize. unfold size in Hsize. rewrite Hb in Hsize.
      now destruct (concat _).
    + apply (finished_intro t p w
               [LogStopped (length (audioChunks w)); LogBlobCreated (size b)]
               (resolve b)); [reflexivity|].
      right. exists b. split; [reflexivity|]. split; [exact Hb|].
      apply Nat.eqb_neq in Hsize. unfold size in Hsize. intros E. rewrite E in Hsize.
      now apply Hsize.
Qed.

Lemma on_error_stop_finished (t p : nat) (msg : option jsstring) (w : World) :
  finished t p w (on_error_stop t p msg w).
Proof.
  unfold on_error_stop.
  apply (finished_intro t p w [LogStopError] (reject _)); [reflexivity|].
  apply settles_from_reject, not_empty_recording_failed.
Qed.

Lemma on_timeout_finished (t : nat) (tm : Timer TimerAction) (w : World) :
  finished t (timer_promise tm) w (on_timeout (action tm) (clearTimeout t w)).
Proof.
  unfold on_timeout, timer_promise. destruct (action tm) as [p].
  apply (finished_intro t p w [LogStopTimeout]
           (reject (Error (js "Recording stop timeout - please try again"))));
    [reflexivity|].
  apply settles_from_reject. intros H. vm_compute in H. discriminate H.
Qed.

(** *** The cases of an event, of [stopRecording] and of [startRecording] *)

Lemma handler_inactivate (r : nat) (w : World) (m' : MediaRecorder) :
  recorders (inactivate r w) !! r = Some m' ->
  exists m, recorders w !! r = Some m /\ onstop m' = onstop m /\ onerror m' = onerror m.
Proof.
  unfold inactivate. cbn [recorders set_recorders]. rewrite list_lookup_alter_eq.
  destruct (recorders w !! r) as [m|]; [|discriminate].
  intros [= <-]. exists m. repeat split.
Qed.

Lemma fire_cases (ev : Event) (w : World) :
  fire ev w = w
  \/ (exists data, fire ev w = on_dataavailable data w)
  \/ fire ev w = log LogStarted w
  \/ (exists r, fire ev w = inactivate r w)
  \/ (exists r msg, fire ev w = on_error_start msg (inactivate r w))
  \/ (exists r t p m, recorders w !! r = Some m /\ handler_of m t p
                      /\ finished t p (inactivate r w) (fire ev w))
  \/ (exists t tm, timers w !! t = Some tm /\ armed tm = true
                   /\ finished t (timer_promise tm) w (fire ev w)).
Proof.
  destruct ev as [r data|r msg|r|r|t]; cbn [fire].
  - destruct (ondataavailable <$> recorders w !! r) as [[|]|]; eauto.
  - destruct (recorders (inactivate r w) !! r) as [m'|] eqn:E; cbn [mbind option_bind].
    + destruct (handler_inactivate _ _ _ E) as (m & Hm & Hs & He).
      destruct (onerror m') as [[|t p]|] eqn:E'.
      * right. right. right. right. left. eauto.
      * right. right. right. right. right. left. exists r, t, p, m.
        split; [exact Hm|]. split; [right; congruence|].
        apply on_error_stop_finished.
      * right. right. right. left. eauto.
    + right. right. right. left. eauto.
  - destruct (onstart <$> recorders w !! r) as [[|]|]; eauto.
  - destruct (recorders (inactivate r w) !! r) as [m'|] eqn:E; cbn [mbind option_bind].
    + destruct (handler_inactivate _ _ _ E) as (m & Hm & Hs & He).
      destruct (onstop m') as [[t p]|] eqn:E'.
      * right. right. right. right. right. left. exists r, t, p, m.
        split; [exact Hm|]. split; [left; congruence|].
        apply on_stop_finished.
      * right. right. right. left. eauto.
    + right. right. right. left. eauto.
  - destruct (timers w !! t) as [tm|] eqn:E; [|now left].
    destruct (armed tm) eqn:Ha; [|now left].
    right. right. right. right. right. right. exists t, tm.
    split; [exact E|]. split; [exact Ha|]. apply on_timeout_finished.
Qed.

(** The world in which [stopRecording] has made its promise and its
    timer and assigned its handlers to recorder [r]. *)
Lemma stopRecording_not_recording (w : World) (r : nat) :
  mediaRecorder w = Some r ->
  state <$> recorders w !! r <> Some recording ->
  fst (stopRecording w)
  = reject_promise (length (promises w)) (Error (js "Recording is not active"))
      (cleanup
         (log (LogNotRecording (default inactive (state <$> recorders w !! r)))
            (clearTimeout (length (timers w))
               (mkWorld (mediaRecorder w) (audioChunks w) (stream w) (streams w)
                  (alter (set_stop_handlers (length (timers w)) (length (promises w)))
                         r (recorders w))
                  (timers w ++ [mkTimer stop_timeout_delay true
                                  (stop_timeout (length (promises w)))])
                  (promises w ++ [Pending])
                  (console w ++ [LogStopping])
                  (uncaught w))))).
Proof.
  intros Hr Hstate. unfold stopRecording. simpl. rewrite Hr. simpl.
  rewrite list_lookup_alter_eq.
  destruct (recorders w !! r) as [m|]; simpl in *;
    [destruct (state m); [| now contradiction Hstate |]|];
    unfold set_recorders, set_timers, log, set_console, set_promises; simpl;
    rewrite ?Hr; reflexivity.
Qed.

Lemma stopRecording_cases (w : World) :
  let p := length (promises w) in
  let t := length (timers w) in
  (mediaRecorder w = None
   /\ fst (stopRecording w)
      = set_promises (promises w ++ [Rejected (Error (js "No recording in progress"))]) w)
  \/ (exists r m, mediaRecorder w = Some r /\ recorders w !! r = Some m
                  /\ state m = recording
                  /\ fst (stopRecording w)
                     = mkWorld (Some r) (audioChunks w) (stream w) (streams w)
                         (alter (set_state inactive) r
                            (alter (set_stop_handlers t p) r (recorders w)))
                         (timers w ++ [mkTimer stop_timeout_delay true (stop_timeout p)])
                         (promises w ++ [Pending])
                         (console w ++ [LogStopping])
                         (uncaught w))
  \/ (exists r, mediaRecorder w = Some r
                /\ state <$> recorders w !! r <> Some recording
                /\ finished t p
                     (mkWorld (mediaRecorder w) (audioChunks w) (stream w) (streams w)
                        (alter (set_stop_handlers t p) r (recorders w))
                        (timers w ++ [mkTimer stop_timeout_delay true (stop_timeout p)])
                        (promises w ++ [Pending])
                        (console w ++ [LogStopping])
                        (uncaught w))
                     (fst (stopRecording w))).
Proof.
  cbv zeta. destruct (mediaRecorder w) as [r|] eqn:Hr.
  - assert (Hdec : state <$> recorders w !! r = Some recording
                   \/ state <$> recorders w !! r <> Some recording).
    { destruct (recorders w !! r) as [m|]; cbn; [destruct (state m)|];
        (now left) || (right; discriminate). }
    destruct Hdec as [Hrec|Hrec].
    + right. left. destruct (recorders w !! r) as [m|] eqn:Hm; [|discriminate].
      injection Hrec as Hs. exists r, m. repeat (split; [reflexivity || assumption|]).
      now rewrite (stopRecording_recording _ _ _ Hr Hm Hs).
    + right. right. exists r. split; [reflexivity|]. split; [exact Hrec|].
      rewrite (stopRecording_not_recording _ _ Hr Hrec). rewrite Hr.
      set (w0 := mkWorld _ _ _ _ _ _ _ _ _).
      apply (finished_intro _ _ w0 [LogNotRecording _] (reject _)); [reflexivity|].
      apply settles_from_reject. intros H. vm_compute in H. discriminate H.
  - left. split; [reflexivity|].
    unfold stopRecording. cbn [mediaRecorder set_promises]. rewrite Hr. cbn [fst].
    unfold reject_promise, set_promises. cbn. now rewrite alter_last.
Qed.

Lemma startRecording_cases (env : Env) (w : World) :
  let w' := fst (startRecording env w) in
  (timers w' = timers w /\ promises w' = promises w /\ uncaught w' = uncaught w
   /\ audioChunks w' = [])
  /\ ((stream w' = None /\ mediaRecorder w' = None /\ recorders w' = recorders w)
      \/ (exists tracks m,
            recorders w'
            = recorders w
              ++ [mkRecorder (length (streams w)) m recording (Some 1000%N)
                             true (Some onerror_start) true None]
            /\ mediaRecorder w' = Some (length (recorders w))
            /\ stream w' = Some (length (streams w))
            /\ streams w' = streams w ++ [tracks])).
Proof.
  cbv zeta.
  assert (Hcatch : forall e w0,
            timers w0 = timers w -> promises w0 = promises w ->
            uncaught w0 = uncaught w -> recorders w0 = recorders w ->
            let w' := fst (start_catch e w0) in
            (timers w' = timers w /\ promises w' = promises w
             /\ uncaught w' = uncaught w /\ audioChunks w' = [])
            /\ (stream w' = None /\ mediaRecorder w' = None
                /\ recorders w' = recorders w)).
  { intros e w0 Ht Hp Hu Hr. unfold start_catch. cbn [fst].
    destruct (cleanup_released (log (LogStartFailed e) w0)) as (Hs & Hm & Hc).
    destruct (cleanup_untouched (log (LogStartFailed e) w0)) as (Hr' & Ht' & Hp' & Hu').
    rewrite Hr', Ht', Hp', Hu'. cbn [recorders timers promises uncaught log set_console].
    repeat split; assumption. }
  destruct (getUserMedia env constraints) as [tracks|e] eqn:Hgum.
  - destruct (first_supported env) as [m|] eqn:Hm.
    + rewrite (startRecording_selected _ _ _ _ Hgum Hm). cbn [fst].
      cbn [timers promises uncaught audioChunks stream mediaRecorder recorders streams].
      split; [repeat split|]. right. exists tracks, m. repeat split.
    + rewrite (startRecording_no_format _ _ _ Hgum Hm).
      destruct (Hcatch (ThrowError no_supported_format)
                  (log LogGranted
                     (set_stream (Some (length (streams w)))
                        (set_streams (streams w ++ [tracks]) (log LogRequesting w))))
                  eq_refl eq_refl eq_refl eq_refl) as [H1 H2].
      split; [exact H1 | left; exact H2].
  - rewrite (startRecording_refused _ _ _ Hgum).
    destruct (Hcatch e (log LogRequesting w) eq_refl eq_refl eq_refl eq_refl) as [H1 H2].
    split; [exact H1 | left; exact H2].
Qed.

(** *** Induction over sessions *)

Lemma session_snoc (acts : list Action) (a : Action) :
  session (acts ++ [a]) = act a (session acts).
Proof. unfold session. now rewrite foldl_app. Qed.

Lemma session_ind (P : World -> Prop) :
  P initial -> (forall a w, P w -> P (act a w)) -> forall acts, P (session acts).
Proof.
  intros H0 Hstep acts. induction acts as [|a acts IH] using rev_ind.
  - exact H0.
  - rewrite session_snoc. now apply Hstep.
Qed.

(** *** Timers and promises stay consistent *)

Lemma finished_consistent (t p : nat) (tm : Timer TimerAction) (w w' : World)
    (rs : list MediaRecorder) :
  finished t p w w' -> timers w !! t = Some tm -> timer_promise tm = p ->
  consistent (timers w) (promises w) rs ->
  consistent (timers w') (promises w') rs.
Proof.
  intros ((f & Hf & Hp) & Ht & _) Htm Htp Hc. rewrite Hp, Ht.
  apply (consistent_settle _ _ _ _ _ tm); try assumption.
  exact (settles_from_not_pending _ _ Hf).
Qed.

Lemma act_consistent (a : Action) (w : World) :
  consistent (timers w) (promises w) (recorders w) ->
  consistent (timers (act a w)) (promises (act a w)) (recorders (act a w)).
Proof.
  intros Hc. destruct a as [env| |ev]; cbn [act].
  - destruct (startRecording_cases env w) as [(Ht & Hp & _) [(_ & _ & Hr)|(tr & m & Hr & _)]];
      rewrite Ht, Hp, Hr; [exact Hc|].
    eapply consistent_recorders; [exact Hc | apply handlers_new_recorder].
  - destruct (stopRecording_cases w) as [[_ ->]|[(r & m & _ & _ & _ & ->)|(r & _ & _ & Hfin)]].
    + cbn [timers promises recorders set_promises].
      apply consistent_append_settled; [exact Hc | discriminate].
    + cbn [timers promises recorders].
      eapply consistent_recorders; [exact (consistent_stop _ _ _ r Hc)|].
      apply handlers_set_state.
    + pose proof (consistent_stop _ _ _ r Hc) as Hc'.
      destruct Hfin as (Hps & Hts & Hrs & Hrest).
      rewrite Hrs. cbn [recorders].
      eapply (finished_consistent _ _ _ _ _ _
                (conj Hps (conj Hts (conj Hrs Hrest)))).
      * cbn [timers]. apply lookup_last.
      * reflexivity.
      * exact Hc'.
  - destruct (fire_cases ev w)
      as [->|[(d & ->)|[->|[(r & ->)|[(r & msg & ->)|[(r & t & p & m & Hm & Hh & Hfin)
                                                     |(t & tm & Htm & _ & Hfin)]]]]]].
    + exact Hc.
    + unfold on_dataavailable. destruct (0 <? size d); exact Hc.
    + exact Hc.
    + unfold inactivate. cbn [timers promises recorders set_recorders].
      eapply consistent_recorders; [exact Hc | apply handlers_set_state].
    + unfold on_error_start, inactivate.
      cbn [timers promises recorders set_recorders set_uncaught log set_console].
      eapply consistent_recorders; [exact Hc | apply handlers_set_state].
    + assert (Hc' : consistent (timers (inactivate r w)) (promises (inactivate r w))
                               (recorders (inactivate r w))).
      { unfold inactivate. cbn [timers promises recorders set_recorders].
        eapply consistent_recorders; [exact Hc | apply handlers_set_state]. }
      destruct (handler_timer _ _ _ Hc _ _ _ _ Hm Hh) as (tm & Htm & Htp).
      destruct Hfin as (Hps & Hts & Hrs & Hrest). rewrite Hrs.
      eapply (finished_consistent _ _ _ _ _ _ (conj Hps (conj Hts (conj Hrs Hrest))));
        [exact Htm | exact Htp | exact Hc'].
    + destruct Hfin as (Hps & Hts & Hrs & Hrest). rewrite Hrs.
      eapply (finished_consistent _ _ _ _ _ _ (conj Hps (conj Hts (conj Hrs Hrest))));
        [exact Htm | reflexivity | exact Hc].
Qed.

Lemma session_consistent (acts : list Action) :
  consistent (timers (session acts)) (promises (session acts)) (recorders (session acts)).
Proof.
  apply (session_ind (fun w => consistent (timers w) (promises w) (recorders w))).
  - exact consistent_initial.
  - exact act_consistent.
Qed.

(** *** Chunks have bytes *)

Lemma chunks_nonempty_concat (w : World) :
  chunks_nonempty w -> audioChunks w <> [] -> concat (bytes <$> audioChunks w) <> [].
Proof.
  unfold chunks_nonempty. destruct (audioChunks w) as [|c cs]; [congruence|].
  intros H _. apply Forall_cons in H as [Hc _]. rewrite fmap_cons. cbn [concat].
  unfold size in Hc. destruct (bytes c); [cbn in Hc; lia | discriminate].
Qed.

Lemma chunks_nonempty_nil (w : World) : audioChunks w = [] -> chunks_nonempty w.
Proof. unfold chunks_nonempty. intros ->. constructor. Qed.

Lemma act_chunks_nonempty (a : Action) (w : World) :
  chunks_nonempty w -> chunks_nonempty (act a w).
Proof.
  intros Hc. destruct a as [env| |ev]; cbn [act].
  - destruct (startRecording_cases env w) as [(_ & _ & _ & H) _].
    now apply chunks_nonempty_nil.
  - destruct (stopRecording_cases w)
      as [[_ ->]|[(r & m & _ & _ & _ & ->)|(r & _ & _ & Hfin)]]; try exact Hc.
    apply chunks_nonempty_nil. apply Hfin.
  - destruct (fire_cases ev w)
      as [->|[(d & ->)|[->|[(r & ->)|[(r & msg & ->)|[(r & t & p & m & _ & _ & Hfin)
                                                     |(t & tm & _ & _ & Hfin)]]]]]];
      try exact Hc; try (apply chunks_nonempty_nil; apply Hfin).
    unfold on_dataavailable. destruct (0 <? size d) eqn:E; [|exact Hc].
    unfold chunks_nonempty. cbn [audioChunks log set_console set_audioChunks].
    apply Forall_app. split; [exact Hc|]. constructor; [|constructor].
    now apply Nat.ltb_lt.
Qed.

(** What a promise can become when [f] settles promise [p]. *)
Lemma lookup_alter_settle {A} (f : A -> A) (p q : nat) (ps : list A) (y : A) :
  alter f p ps !! q = Some y ->
  exists x, ps !! q = Some x /\ (y = x \/ q = p /\ y = f x).
Proof.
  destruct (decide (p = q)) as [->|Hne].
  - rewrite list_lookup_alter_eq. destruct (ps !! q) as [x|]; [|discriminate].
    intros [= <-]. exists x. split; [reflexivity | right; split; reflexivity].
  - rewrite list_lookup_alter_ne by exact Hne. intros H. exists y. split; [exact H | now left].
Qed.

(** The promises of [act a w]: those of [w], with a new one that is
    pending, rejected with the no-recording error or settled at once, or
    with one of them settled; what settles is read from the chunks of
    [w]. *)
Lemma act_promises (a : Action) (w : World) :
  promises (act a w) = promises w
  \/ promises (act a w) = promises w ++ [Pending]
  \/ promises (act a w)
     = promises w ++ [Rejected (Error (js "No recording in progress"))]
  \/ (exists f, settles_from w f /\ promises (act a w) = promises w ++ [f Pending])
  \/ (exists f p, settles_from w f /\ promises (act a w) = alter f p (promises w)).
Proof.
  destruct a as [env| |ev]; cbn [act].
  - left. apply (startRecording_cases env w).
  - destruct (stopRecording_cases w)
      as [[_ ->]|[(r & m & _ & _ & _ & ->)|(r & _ & _ & Hfin)]].
    + right. right. left. reflexivity.
    + right. left. reflexivity.
    + right. right. right. left. destruct Hfin as ((f & Hf & ->) & _).
      exists f. split; [exact Hf|]. cbn [promises]. now rewrite alter_last.
  - destruct (fire_cases ev w)
      as [->|[(d & ->)|[->|[(r & ->)|[(r & msg & ->)|[(r & t & p & m & _ & _ & Hfin)
                                                     |(t & tm & _ & _ & Hfin)]]]]]];
      try (left; reflexivity).
    + left. unfold on_dataavailable. now destruct (0 <? size d).
    + right. right. right. right. destruct Hfin as ((f & Hf & Hp) & _).
      exists f, p. split; [exact Hf | exact Hp].
    + right. right. right. right. destruct Hfin as ((f & Hf & Hp) & _).
      exists f, (timer_promise tm). split; [exact Hf | exact Hp].
Qed.

Lemma session_chunks_nonempty (acts : list Action) : chunks_nonempty (session acts).
Proof.
  apply (session_ind chunks_nonempty); [constructor | exact act_chunks_nonempty].
Qed.

(** Under [chunks_nonempty], what settles a promise is not the
    empty-recording error, and a blob it resolves with has bytes. *)
Lemma settles_from_good (w : World) (f : PromiseState Blob -> PromiseState Blob)
    (x : PromiseState Blob) :
  chunks_nonempty w -> settles_from w f ->
  f x = x
  \/ (exists e, f x = Rejected e /\ e <> empty_recording)
  \/ (exists v, f x = Resolved v /\ bytes v <> []).
Proof.
  intros Hc [(e & -> & He)|(v & -> & _ & Hv)].
  - destruct x; cbn [reject]; try (now left).
    right. left. exists e. split; [reflexivity|].
    intros E. destruct (He E) as [Hne Hnil]. exact (chunks_nonempty_concat w Hc Hne Hnil).
  - destruct x; cbn [resolve]; try (now left).
    right. right. exists v. split; [reflexivity | exact Hv].
Qed.

Lemma act_promises_good (a : Action) (w : World) :
  chunks_nonempty w ->
  (forall q y, promises w !! q = Some y ->
               y <> Rejected empty_recording /\ (forall b, y = Resolved b -> bytes b <> [])) ->
  forall q y, promises (act a w) !! q = Some y ->
              y <> Rejected empty_recording /\ (forall b, y = Resolved b -> bytes b <> []).
Proof.
  intros Hc Hgood q y.
  assert (Hnew : forall f, settles_from w f -> forall x,
            (x <> Rejected empty_recording /\ (forall b, x = Resolved b -> bytes b <> [])) ->
            f x <> Rejected empty_recording /\ (forall b, f x = Resolved b -> bytes b <> [])).
  { intros f Hf x Hx.
    destruct (settles_from_good w f x Hc Hf) as [->|[(e & -> & He)|(v & -> & Hv)]].
    - exact Hx.
    - split; [congruence | discriminate].
    - split; [discriminate | congruence]. }
  destruct (act_promises a w) as [->|[->|[->|[(f & Hf & ->)|(f & p & Hf & ->)]]]].
  - apply Hgood.
  - intros H. apply lookup_app_Some in H as [H|[_ H]]; [exact (Hgood _ _ H)|].
    apply list_lookup_singleton_Some in H as [_ <-]. split; discriminate.
  - intros H. apply lookup_app_Some in H as [H|[_ H]]; [exact (Hgood _ _ H)|].
    apply list_lookup_singleton_Some in H as [_ <-].
    split; [intros E; vm_compute in E; discriminate E | discriminate].
  - intros H. apply lookup_app_Some in H as [H|[_ H]]; [exact (Hgood _ _ H)|].
    apply list_lookup_singleton_Some in H as [_ <-].
    apply (Hnew f Hf). split; discriminate.
  - intros H. apply lookup_alter_settle in H as (x & Hx & [->|[_ ->]]).
    + exact (Hgood _ _ Hx).
    + apply (Hnew f Hf), (Hgood _ _ Hx).
Qed.

Lemma session_promises_good (acts : list Action) :
  forall q y, promises (session acts) !! q = Some y ->
              y <> Rejected empty_recording /\ (forall b, y = Resolved b -> bytes b <> []).
Proof.
  pose proof (session_ind
    (fun w => chunks_nonempty w
              /\ forall q y, promises w !! q = Some y ->
                   y <> Rejected empty_recording
                   /\ (forall b, y = Resolved b -> bytes b <> []))) as H.
  apply H.
  - split; [constructor|]. intros q y Hq. cbn in Hq. rewrite lookup_nil in Hq. discriminate.
  - intros a w [Hc Hg]. split; [now apply act_chunks_nonempty | now apply act_promises_good].
Qed.

(** *** References stay valid *)

Lemma released_refs_valid (w : World) :
  stream w = None -> mediaRecorder w = None -> refs_valid w.
Proof. intros Hs Hr. split; intros x H; congruence. Qed.

Lemma act_refs_valid (a : Action) (w : World) : refs_valid w -> refs_valid (act a w).
Proof.
  intros [Hr Hs].
  assert (Hinact : forall r, refs_valid (inactivate r w)).
  { intros r. split; cbn; [|exact Hs].
    intros r' Hr'. destruct (Hr _ Hr') as (m & Hm & Hst).
    destruct (decide (r = r')) as [->|Hne].
    - exists (set_state inactive m). split; [|exact Hst].
      now rewrite list_lookup_alter_eq, Hm.
    - exists m. split; [|exact Hst]. now rewrite list_lookup_alter_ne. }
  destruct a as [env| |ev]; cbn [act].
  - destruct (startRecording_cases env w)
      as [_ [(H1 & H2 & _)|(tr & m & Hrec & Hmr & Hst & Hstr)]].
    + now apply released_refs_valid.
    + split.
      * intros r Hr'. rewrite Hmr in Hr'. injection Hr' as <-.
        eexists. split; [rewrite Hrec; apply lookup_last | exact Hst].
      * intros s0 Hs0. rewrite Hst in Hs0. injection Hs0 as <-.
        rewrite Hstr, length_app. cbn. lia.
  - destruct (stopRecording_cases w)
      as [[_ ->]|[(r & m & Hmr & Hm & _ & ->)|(r & _ & _ & Hfin)]].
    + split; [exact Hr | exact Hs].
    + split; cbn; [|exact Hs].
      intros r' [= <-]. destruct (Hr _ Hmr) as (m' & Hm' & Hst).
      rewrite Hm in Hm'. injection Hm' as <-.
      exists (set_state inactive
                (set_stop_handlers (length (timers w)) (length (promises w)) m)).
      split; [|exact Hst]. now rewrite !list_lookup_alter_eq, Hm.
    + apply released_refs_valid; apply Hfin.
  - destruct (fire_cases ev w)
      as [->|[(d & ->)|[->|[(r & ->)|[(r & msg & ->)|[(r & t & p & m & _ & _ & Hfin)
                                                     |(t & tm & _ & _ & Hfin)]]]]]];
      try (apply released_refs_valid; apply Hfin).
    + split; assumption.
    + unfold on_dataavailable. destruct (0 <? size d); split; assumption.
    + split; assumption.
    + apply Hinact.
    + exact (Hinact r).
Qed.

Lemma session_refs_valid (acts : list Action) : refs_valid (session acts).
Proof.
  apply (session_ind refs_valid); [|exact act_refs_valid].
  split; intros x H; discriminate H.
Qed.

(** *** Properties of every session *)

(** In every session a stop promise is pending exactly while its timer
    is armed: a pending promise has an armed timer of 5000 ms whose expiry
    rejects it with the timeout error, and an armed timer always belongs
    to a promise that is still pending. *)
Theorem session_no_hang (acts : list Action) :
  let w := session acts in
  (forall p, promises w !! p = Some Pending ->
     exists t, timers w !! t = Some (mkTimer 5000%N true (stop_timeout p))
               /\ promises (fire (EvTimeout t) w) !! p
                  = Some (Rejected (Error (js "Recording stop timeout - please try again"))))
  /\ (forall t tm, timers w !! t = Some tm -> armed tm = true ->
        promises w !! timer_promise tm = Some Pending).
Proof.
  cbv zeta. pose proof (session_consistent acts) as Hc.
  set (w := session acts) in *. split.
  - intros p Hp.
    destruct (promise_timer _ _ _ Hc _ Hp) as (t & tm & Htm & Htp).
    pose proof (timer_delay _ _ _ Hc _ _ Htm) as Hd.
    pose proof (proj2 (timer_armed _ _ _ Hc _ _ Htm)) as Ha.
    rewrite Htp in Ha. specialize (Ha Hp).
    destruct tm as [d a [p']]. cbn in Hd, Ha, Htp. subst d a p'.
    exists t. split; [exact Htm|].
    cbn [fire]. rewrite Htm. cbn [armed action on_timeout].
    unfold reject_promise. cbn [promises set_promises].
    destruct (cleanup_untouched (log LogStopTimeout (clearTimeout t w)))
      as (_ & _ & -> & _).
    cbn [promises log set_console clearTimeout set_timers].
    now rewrite list_lookup_alter_eq, Hp.
  - intros t tm Htm Ha. now apply (timer_armed _ _ _ Hc _ _ Htm).
Qed.

Lemma session_no_hang_witness :
  exists t,
    timers (session [CallStart webm_browser;
                     Fire (EvDataAvailable 0 (chunk [Byte.x01])); CallStop]) !! t
    = Some (mkTimer 5000%N true (stop_timeout 0))
    /\ promises (fire (EvTimeout t)
                  (session [CallStart webm_browser;
                            Fire (EvDataAvailable 0 (chunk [Byte.x01])); CallStop])) !! 0
       = Some (Rejected (Error (js "Recording stop timeout - please try again"))).
Proof.
  destruct (session_no_hang [CallStart webm_browser;
                             Fire (EvDataAvailable 0 (chunk [Byte.x01])); CallStop])
    as [H _].
  exact (H 0 eq_refl).
Defined.




(** No session ever rejects with the empty-recording error: the chunks
    held always have bytes, so the test of line 123 never succeeds. *)
Theorem session_never_empty_recording (acts : list Action) :
  chunks_nonempty (session acts)
  /\ forall p, promises (session acts) !! p
               <> Some (Rejected (Error (js "Empty audio recording. Please try again."))).
Proof.
  split; [apply session_chunks_nonempty|].
  intros p Hp. destruct (session_promises_good acts _ _ Hp) as [H _]. now apply H.
Qed.

(** In every session the audio a stop promise is resolved with has
    bytes. *)
Theorem session_resolved_audio_has_bytes (acts : list Action) (p : nat) (b : Blob) :
  promises (session acts) !! p = Some (Resolved b) -> 0 < size b.
Proof.
  intros Hp. destruct (session_promises_good acts _ _ Hp) as [_ H].
  specialize (H b eq_refl). unfold size. destruct (bytes b); [contradiction | cbn; lia].
Qed.

Lemma session_resolved_audio_has_bytes_witness :
  0 < size (mkBlob [Byte.x01] (js "audio/webm")).
Proof.
  exact (session_resolved_audio_has_bytes
           [CallStart webm_browser; Fire (EvDataAvailable 0 (chunk [Byte.x01]));
            CallStop; Fire (EvStop 0)] 0 (mkBlob [Byte.x01] (js "audio/webm")) eq_refl).
Defined.

(** In every session the references of the instance are valid, and a
    session that is recording holds the stream its recorder records. *)
Theorem recording_session_holds_stream (acts : list Action) :
  let w := session acts in
  refs_valid w
  /\ (isRecording w = true ->
      exists r m tracks,
        mediaRecorder w = Some r /\ recorders w !! r = Some m
        /\ stream w = Some (rec_stream m) /\ streams w !! rec_stream m = Some tracks).
Proof.
  cbv zeta. pose proof (session_refs_valid acts) as Hv. split; [exact Hv|].
  destruct Hv as [Hr Hs]. unfold isRecording, current_recorder.
  destruct (mediaRecorder (session acts)) as [r|] eqn:Hmr; [|discriminate].
  intros _. destruct (Hr r eq_refl) as (m & Hm & Hst).
  destruct (lookup_lt_is_Some_2 (streams (session acts)) (rec_stream m) (Hs _ Hst))
    as [tracks Htr].
  exists r, m, tracks. repeat split; assumption.
Qed.

Lemma recording_session_holds_stream_witness :
  exists r m tracks,
    mediaRecorder (session [CallStart webm_browser; Fire (EvStart 0)]) = Some r
    /\ recorders (session [CallStart webm_browser; Fire (EvStart 0)]) !! r = Some m
    /\ stream (session [CallStart webm_browser; Fire (EvStart 0)]) = Some (rec_stream m)
    /\ streams (session [CallStart webm_browser; Fire (EvStart 0)]) !! rec_stream m
       = Some tracks.
Proof.
  destruct (recording_session_holds_stream [CallStart webm_browser; Fire (EvStart 0)])
    as [_ H].
  exact (H eq_refl).
Defined.

(** *** Properties of single steps *)

Lemma cleanup_runs_inactivate (r : nat) (w : World) :
  cleanup_runs (inactivate r w) = cleanup_runs w.
Proof. reflexivity. Qed.

Lemma cleanup_runs_on_dataavailable (d : Blob) (w : World) :
  cleanup_runs (on_dataavailable d w) = cleanup_runs w.
Proof.
  unfold on_dataavailable, cleanup_runs.
  destruct (0 <? size d); cbn [console set_audioChunks log set_console];
    rewrite List.filter_app; cbn [List.filter is_cleanup]; now rewrite app_nil_r.
Qed.

(** An event runs [cleanup] at most once; it runs it exactly once when
    it reaches a handler of [stopRecording] or an armed timer, and not at
    all when it is a chunk or a start event. *)
Theorem cleanup_once_per_event (ev : Event) (w : World) :
  (cleanup_runs (fire ev w) = cleanup_runs w
   \/ cleanup_runs (fire ev w) = S (cleanup_runs w))
  /\ (forall r m t p, ev = EvStop r -> recorders w !! r = Some m ->
        onstop m = Some (onstop_stop t p) ->
        cleanup_runs (fire ev w) = S (cleanup_runs w))
  /\ (forall r msg m t p, ev = EvError r msg -> recorders w !! r = Some m ->
        onerror m = Some (onerror_stop t p) ->
        cleanup_runs (fire ev w) = S (cleanup_runs w))
  /\ (forall t tm, ev = EvTimeout t -> timers w !! t = Some tm -> armed tm = true ->
        cleanup_runs (fire ev w) = S (cleanup_runs w))
  /\ (quiet ev = true -> cleanup_runs (fire ev w) = cleanup_runs w).
Proof.
  split; [|split; [|split; [|split]]].
  - destruct (fire_cases ev w)
      as [->|[(d & ->)|[->|[(r & ->)|[(r & msg & ->)|[(r & t & p & m & _ & _ & Hfin)
                                                     |(t & tm & _ & _ & Hfin)]]]]]].
    + now left.
    + left. apply cleanup_runs_on_dataavailable.
    + left. now apply cleanup_runs_log.
    + now left.
    + left. now destruct (on_error_start_keeps msg (inactivate r w)) as [-> _].
    + right. destruct Hfin as (_ & _ & _ & _ & _ & _ & -> & _). reflexivity.
    + right. destruct Hfin as (_ & _ & _ & _ & _ & _ & -> & _). reflexivity.
  - intros r m t p -> Hm Hstop. cbn [fire].
    assert (Hh : recorders (inactivate r w) !! r ≫= onstop = Some (onstop_stop t p)).
    { unfold inactivate. cbn [recorders set_recorders].
      rewrite list_lookup_alter_eq, Hm. exact Hstop. }
    rewrite Hh. destruct (on_stop_finished t p (inactivate r w))
      as (_ & _ & _ & _ & _ & _ & -> & _). reflexivity.
  - intros r msg m t p -> Hm Herr. cbn [fire].
    assert (Hh : recorders (inactivate r w) !! r ≫= onerror = Some (onerror_stop t p)).
    { unfold inactivate. cbn [recorders set_recorders].
      rewrite list_lookup_alter_eq, Hm. exact Herr. }
    rewrite Hh. destruct (on_error_stop_finished t p msg (inactivate r w))
      as (_ & _ & _ & _ & _ & _ & -> & _). reflexivity.
  - intros t tm -> Htm Ha. cbn [fire]. rewrite Htm, Ha.
    destruct (on_timeout_finished t tm w) as (_ & _ & _ & _ & _ & _ & -> & _).
    reflexivity.
  - intros Hq. destruct ev as [r d|r msg|r|r|t]; try discriminate Hq; cbn [fire].
    + destruct (ondataavailable <$> recorders w !! r) as [[|]|]; try reflexivity.
      apply cleanup_runs_on_dataavailable.
    + destruct (onstart <$> recorders w !! r) as [[|]|]; try reflexivity.
      now apply cleanup_runs_log.
Qed.

Lemma cleanup_once_per_event_witness :
  cleanup_runs (fire (EvStop 0) (fst (stopRecording recording_session)))
  = S (cleanup_runs (fst (stopRecording recording_session))).
Proof.
  destruct (cleanup_once_per_event (EvStop 0) (fst (stopRecording recording_session)))
    as (_ & H & _).
  exact (H 0 (mkRecorder 0 (js "audio/webm") inactive (Some 1000%N)
                         true (Some (onerror_stop 0 0)) true (Some (onstop_stop 0 0)))
           0 0 eq_refl eq_refl eq_refl).
Defined.

Lemma stopRecording_promise (w : World) : snd (stopRecording w) = length (promises w).
Proof.
  unfold stopRecording. cbn [promises set_promises mediaRecorder].
  destruct (mediaRecorder w); [|reflexivity]. now destruct (state <$> _) as [[| |]|].
Qed.

(** [stopRecording] on an instance without recorder rejects at once and
    does nothing else: no timer, no [cleanup], no change to the instance
    or to the streams. *)
Theorem stop_without_recorder (w : World) :
  mediaRecorder w = None ->
  let w' := fst (stopRecording w) in
  promises w' !! snd (stopRecording w)
  = Some (Rejected (Error (js "No recording in progress")))
  /\ timers w' = timers w /\ console w' = console w
  /\ stream w' = stream w /\ streams w' = streams w
  /\ audioChunks w' = audioChunks w /\ mediaRecorder w' = None.
Proof.
  intros Hr. cbv zeta. rewrite stopRecording_promise.
  destruct (stopRecording_cases w) as [[_ ->]|[(r & m & Hr' & _)|(r & Hr' & _)]];
    try congruence.
  cbn. rewrite lookup_last. repeat split. exact Hr.
Qed.

Lemma stop_without_recorder_witness :
  promises (fst (stopRecording initial)) !! 0
  = Some (Rejected (Error (js "No recording in progress")))
  /\ timers (fst (stopRecording initial)) = [].
Proof.
  destruct (stop_without_recorder initial eq_refl) as (H1 & H2 & _).
  split; [exact H1 | exact H2].
Defined.

(** [stopRecording] on a recorder that is not recording (it is inactive
    or paused) rejects at once with the not-active error, clears the
    timer it has just made, and releases the session: [cleanup] runs
    once, every track of the stream is stopped and the references are
    cleared. *)
Theorem stop_when_not_recording (w : World) (r sid : nat) (tracks : MediaStream) :
  mediaRecorder w = Some r ->
  state <$> recorders w !! r <> Some recording ->
  stream w = Some sid -> streams w !! sid = Some tracks ->
  let w' := fst (stopRecording w) in
  promises w' !! snd (stopRecording w)
  = Some (Rejected (Error (js "Recording is not active")))
  /\ armed <$> timers w' !! length (timers w) = Some false
  /\ cleanup_runs w' = S (cleanup_runs w)
  /\ streams w' !! sid = Some (track_stop <$> tracks)
  /\ stream w' = None /\ mediaRecorder w' = None /\ audioChunks w' = [].
Proof.
  intros Hr Hstate Hs Htracks. cbv zeta. rewrite stopRecording_promise.
  rewrite (stopRecording_not_recording _ _ Hr Hstate).
  set (w0 := mkWorld _ _ _ _ _ _ _ _ _).
  set (l := LogNotRecording _).
  set (w1 := log l (clearTimeout (length (timers w)) w0)).
  assert (Hs1 : stream w1 = Some sid) by exact Hs.
  destruct (cleanup_released w1) as (Hcs & Hcr & Hcc).
  destruct (cleanup_untouched w1) as (_ & Hct & Hcp & _).
  unfold reject_promise.
  cbn [promises timers streams stream mediaRecorder audioChunks set_promises].
  rewrite Hcp, Hct, (cleanup_streams _ _ Hs1).
  split; [|split; [|split; [|split]]].
  - subst w1 w0. cbn [promises log set_console clearTimeout set_timers].
    now rewrite list_lookup_alter_eq, lookup_last.
  - subst w1 w0. cbn [timers log set_console clearTimeout set_timers].
    now rewrite list_lookup_alter_eq, lookup_last.
  - unfold cleanup_runs at 1. cbn [console set_promises].
    fold (cleanup_runs (cleanup w1)). rewrite cleanup_runs_cleanup. f_equal.
    subst w1. rewrite cleanup_runs_log by reflexivity.
    unfold cleanup_runs. subst w0. cbn [console clearTimeout set_timers].
    rewrite List.filter_app. cbn [List.filter is_cleanup]. now rewrite app_nil_r.
  - apply (lookup_alter_Some (fmap track_stop)). exact Htracks.
  - repeat split; assumption.
Qed.

Lemma stop_when_not_recording_witness :
  let w := fst (stopRecording recording_session) in
  promises (fst (stopRecording w)) !! snd (stopRecording w)
  = Some (Rejected (Error (js "Recording is not active")))
  /\ stream (fst (stopRecording w)) = None.
Proof.
  destruct (stop_when_not_recording (fst (stopRecording recording_session)) 0 0 microphone
              eq_refl ltac:(discriminate) eq_refl eq_refl)
    as (H1 & _ & _ & _ & H2 & _).
  split; [exact H1 | exact H2].
Defined.

(** After [stopRecording] the instance never reports that it is
    recording, whatever state it was called in. *)
Theorem not_recording_after_stop (w : World) : isRecording (fst (stopRecording w)) = false.
Proof.
  destruct (stopRecording_cases w)
    as [[Hr ->]|[(r & m & Hr & Hm & _ & ->)|(r & _ & _ & Hfin)]].
  - unfold isRecording, current_recorder. cbn. now rewrite Hr.
  - unfold isRecording, current_recorder. cbn.
    now rewrite !list_lookup_alter_eq, Hm.
  - destruct Hfin as (_ & _ & _ & _ & Hr & _).
    unfold isRecording, current_recorder. now rewrite Hr.
Qed.

Lemma classify_name (e : Thrown) : name (classify e) = js "Error".
Proof.
  destruct e as [e|]; [|reflexivity]. unfold classify.
  repeat (destruct (str_eqb _ _); [reflexivity|]). reflexivity.
Qed.

Lemma track_stops_log (l : LogLine) (w : World) :
  is_track_stop l = false -> track_stops (log l w) = track_stops w.
Proof.
  intros H. unfold track_stops, log. cbn [console set_console].
  rewrite List.filter_app. cbn [List.filter]. rewrite H, app_nil_r. reflexivity.
Qed.

(** [startRecording] runs [cleanup] exactly when it fails, and then
    once; what it throws is always a new [Error], named ['Error'] whatever
    the name of the browser's error was, and the instance is left without
    references.  When it returns it has stopped no track. *)
Theorem start_cleans_up_when_it_fails (env : Env) (w : World) :
  let w' := fst (startRecording env w) in
  match snd (startRecording env w) with
  | Returned _ => cleanup_runs w' = cleanup_runs w /\ track_stops w' = track_stops w
  | Threw e =>
      cleanup_runs w' = S (cleanup_runs w)
      /\ (exists err, e = ThrowError err /\ name err = js "Error")
      /\ stream w' = None /\ mediaRecorder w' = None /\ audioChunks w' = []
  end.
Proof.
  cbv zeta.
  assert (Hcatch : forall e w0, cleanup_runs w0 = cleanup_runs w ->
            let w' := fst (start_catch e w0) in
            cleanup_runs w' = S (cleanup_runs w)
            /\ (exists err, ThrowError (classify e) = ThrowError err
                            /\ name err = js "Error")
            /\ stream w' = None /\ mediaRecorder w' = None /\ audioChunks w' = []).
  { intros e w0 H0. unfold start_catch. cbn [fst].
    rewrite cleanup_runs_cleanup, cleanup_runs_log, H0 by reflexivity.
    split; [reflexivity|]. split; [exists (classify e); split;
                                   [reflexivity | apply classify_name]|].
    apply cleanup_released. }
  destruct (getUserMedia env constraints) as [tracks|e] eqn:Hgum.
  - destruct (first_supported env) as [m|] eqn:Hm.
    + rewrite (startRecording_selected _ _ _ _ Hgum Hm). cbn [fst snd].
      unfold cleanup_runs, track_stops. cbn [console].
      rewrite !List.filter_app. cbn [List.filter is_cleanup is_track_stop].
      now rewrite !app_nil_r.
    + rewrite (startRecording_no_format _ _ _ Hgum Hm). cbn [snd start_catch].
      apply (Hcatch (ThrowError no_supported_format)).
      unfold cleanup_runs. cbn [console log set_console set_stream set_streams].
      rewrite !List.filter_app. cbn [List.filter is_cleanup]. now rewrite !app_nil_r.
  - rewrite (startRecording_refused _ _ _ Hgum). cbn [snd start_catch].
    apply (Hcatch e). now apply cleanup_runs_log.
Qed.

(** A start that succeeds leaves the stream the instance held before as
    it was: its tracks are not stopped, and the instance no longer refers
    to it. *)
Theorem start_orphans_previous_stream (env : Env) (w : World) (s : nat)
    (tracks : MediaStream) :
  stream w = Some s -> streams w !! s = Some tracks ->
  snd (startRecording env w) = Returned tt ->
  let w' := fst (startRecording env w) in
  streams w' !! s = Some tracks
  /\ stream w' = Some (length (streams w)) /\ stream w' <> Some s
  /\ track_stops w' = track_stops w.
Proof.
  intros Hs Htracks Hret. cbv zeta.
  rewrite startRecording_outcome in Hret.
  destruct (getUserMedia env constraints) as [tracks'|e] eqn:Hgum; [|discriminate].
  destruct (first_supported env) as [m|] eqn:Hm; [|discriminate].
  rewrite (startRecording_selected _ _ _ _ Hgum Hm). cbn [fst streams stream].
  pose proof (lookup_lt_Some _ _ _ Htracks) as Hlt.
  split; [now apply lookup_app_l_Some|]. split; [reflexivity|].
  split; [intros [= E]; lia|].
  unfold track_stops. cbn [console]. rewrite List.filter_app.
  cbn [List.filter is_track_stop]. now rewrite app_nil_r.
Qed.

Lemma start_orphans_previous_stream_witness :
  streams (fst (startRecording webm_browser recording_session)) !! 0
  = Some [mkTrack (js "Built-in Microphone") live]
  /\ stream (fst (startRecording webm_browser recording_session)) = Some 1.
Proof.
  destruct (start_orphans_previous_stream webm_browser recording_session 0 microphone
              eq_refl eq_refl eq_refl) as (H1 & H2 & _).
  split; [exact H1 | exact H2].
Defined.

(** The expiry of an armed timer rejects its pending promise with the
    timeout error. *)
Lemma timeout_rejects (w : World) (t p : nat) (d : N) :
  timers w !! t = Some (mkTimer d true (stop_timeout p)) ->
  promises w !! p = Some Pending ->
  promises (fire (EvTimeout t) w) !! p
  = Some (Rejected (Error (js "Recording stop timeout - please try again"))).
Proof.
  intros Htm Hp. cbn [fire]. rewrite Htm. cbn [armed action on_timeout].
  unfold reject_promise. cbn [promises set_promises].
  destruct (cleanup_untouched (log LogStopTimeout (clearTimeout t w))) as (_ & _ & -> & _).
  cbn [promises log set_console clearTimeout set_timers].
  now rewrite list_lookup_alter_eq, Hp.
Qed.

(** A second [stopRecording] before the recorder has fired [stop]
    discards the recording: the second promise is rejected at once and
    the chunks are dropped with the release; the handlers now belong to
    the second call, so the [stop] event leaves the first promise pending,
    and what settles it is its timer, with the timeout error. *)
Theorem second_stop_discards_recording (w : World) (r : nat) (m : MediaRecorder) :
  mediaRecorder w = Some r -> recorders w !! r = Some m -> state m = recording ->
  let p1 := snd (stopRecording w) in
  let w1 := fst (stopRecording w) in
  let p2 := snd (stopRecording w1) in
  let w2 := fst (stopRecording w1) in
  let w3 := fire (EvStop r) w2 in
  promises w2 !! p2 = Some (Rejected (Error (js "Recording is not active")))
  /\ audioChunks w2 = []
  /\ promises w3 !! p1 = Some Pending
  /\ promises (fire (EvTimeout (length (timers w))) w3) !! p1
     = Some (Rejected (Error (js "Recording stop timeout - please try again"))).
Proof.
  intros Hr Hm Hstate. cbv zeta.
  rewrite !stopRecording_promise.
  rewrite (stopRecording_recording _ _ _ Hr Hm Hstate). cbn [fst].
  set (t1 := length (timers w)). set (p1 := length (promises w)).
  set (w1 := mkWorld _ _ _ _ _ _ _ _ _).
  assert (Hr1 : mediaRecorder w1 = Some r) by reflexivity.
  assert (Hm1 : recorders w1 !! r
                = Some (set_state inactive (set_stop_handlers t1 p1 m))).
  { subst w1. cbn [recorders]. now rewrite !list_lookup_alter_eq, Hm. }
  assert (Hs1 : state <$> recorders w1 !! r <> Some recording).
  { rewrite Hm1. discriminate. }
  assert (Hlen_p : length (promises w1) = S p1).
  { subst w1. cbn [promises]. rewrite length_app. cbn. lia. }
  assert (Hlen_t : length (timers w1) = S t1).
  { subst w1. cbn [timers]. rewrite length_app. cbn. lia. }
  rewrite (stopRecording_not_recording _ _ Hr1 Hs1).
  rewrite Hlen_p, Hlen_t.
  set (w0 := mkWorld _ _ _ _ _ _ _ _ _).
  set (w0' := log _ (clearTimeout (S t1) w0)).
  destruct (cleanup_released w0') as (Hcs & Hcr & Hcc).
  destruct (cleanup_untouched w0') as (Hcrec & Hct & Hcp & _).
  set (w2 := reject_promise (S p1) _ (cleanup w0')).
  assert (Hp2 : promises w2 = alter (reject (Error (js "Recording is not active")))
                                    (S p1) (promises w1 ++ [Pending])).
  { subst w2. unfold reject_promise. cbn [promises set_promises]. now rewrite Hcp. }
  assert (Ht2 : timers w2 = alter disarm (S t1)
                  (timers w1 ++ [mkTimer stop_timeout_delay true (stop_timeout (S p1))])).
  { subst w2. unfold reject_promise. cbn [timers set_promises]. now rewrite Hct. }
  assert (Hrec2 : recorders w2 !! r
                  = Some (set_stop_handlers (S t1) (S p1)
                            (set_state inactive (set_stop_handlers t1 p1 m)))).
  { subst w2. unfold reject_promise. cbn [recorders set_promises]. rewrite Hcrec.
    subst w0' w0. cbn [recorders log set_console clearTimeout set_timers].
    now rewrite list_lookup_alter_eq, Hm1. }
  assert (Hp1 : promises w1 !! p1 = Some Pending) by (subst w1; apply lookup_last).
  assert (Htm1 : timers w1 !! t1 = Some (mkTimer stop_timeout_delay true (stop_timeout p1)))
    by (subst w1; apply lookup_last).
  split.
  { rewrite Hp2, <- Hlen_p, alter_last. apply lookup_last. }
  split.
  { subst w2. unfold reject_promise. cbn [audioChunks set_promises]. exact Hcc. }
  (* the stop event runs the handler of the second call *)
  assert (Hfire : finished (S t1) (S p1) (inactivate r w2) (fire (EvStop r) w2)).
  { cbn [fire].
    assert (Hh : recorders (inactivate r w2) !! r ≫= onstop
                 = Some (onstop_stop (S t1) (S p1))).
    { unfold inactivate. cbn [recorders set_recorders].
      now rewrite list_lookup_alter_eq, Hrec2. }
    rewrite Hh. apply on_stop_finished. }
  destruct Hfire as ((f & _ & Hp3) & Ht3 & _).
  cbn [promises timers inactivate set_recorders] in Hp3, Ht3.
  assert (Hp13 : promises (fire (EvStop r) w2) !! p1 = Some Pending).
  { rewrite Hp3, list_lookup_alter_ne by lia.
    rewrite Hp2, list_lookup_alter_ne by lia.
    now apply lookup_app_l_Some. }
  split; [exact Hp13|].
  apply (timeout_rejects _ _ _ stop_timeout_delay); [|exact Hp13].
  rewrite Ht3, list_lookup_alter_ne by lia.
  rewrite Ht2, list_lookup_alter_ne by lia.
  now apply lookup_app_l_Some.
Qed.

Lemma second_stop_discards_recording_witness :
  let w1 := fst (stopRecording recording_session) in
  let w2 := fst (stopRecording w1) in
  promises w2 !! snd (stopRecording w1)
  = Some (Rejected (Error (js "Recording is not active")))
  /\ promises (fire (EvStop 0) w2) !! snd (stopRecording recording_session)
     = Some Pending.
Proof.
  destruct (second_stop_discards_recording recording_session 0
              (mkRecorder 0 (js "audio/webm") recording (Some 1000%N)
                          true (Some onerror_start) true None)
              eq_refl eq_refl eq_refl) as (H1 & _ & H2 & _).
  split; [exact H1 | exact H2].
Defined.

End VoiceRecorderSessions.

(* ===================================================================== *)
(** ** Facts about the conversion *)
(* ===================================================================== *)

Module ConversionFacts.
Import Base64.

(** *** [split] *)

Lemma split_pieces_none (sep : N) (s : jsstring) :
  ~ In sep s -> split_pieces sep s = (s, []).
Proof.
  induction s as [|c s IH]; [reflexivity|]. intros Hn. cbn [split_pieces].
  rewrite IH by (intros H; apply Hn; now right).
  destruct (N.eqb_spec c sep) as [->|_]; [|reflexivity].
  exfalso. apply Hn. now left.
Qed.

Lemma split_pieces_first (sep : N) (pre rest : jsstring) :
  ~ In sep pre ->
  split_pieces sep (pre ++ sep :: rest)
  = (pre, fst (split_pieces sep rest) :: snd (split_pieces sep rest)).
Proof.
  induction pre as [|c pre IH]; intros Hn.
  - cbn [app split_pieces]. rewrite N.eqb_refl. now destruct (split_pieces sep rest).
  - cbn [app split_pieces]. rewrite IH by (intros H; apply Hn; now right).
    destruct (N.eqb_spec c sep) as [->|_]; [|reflexivity].
    exfalso. apply Hn. now left.
Qed.

(** The second piece of a string with a separator after [pre]: what
    lies between that separator and the next one, or the end. *)
Lemma split_second (sep : N) (pre content tail : jsstring) :
  ~ In sep pre -> ~ In sep content ->
  tail = [] \/ (exists more, tail = sep :: more) ->
  split sep (pre ++ sep :: content ++ tail) !! 1 = Some content.
Proof.
  intros Hpre Hcontent Htail. unfold split. rewrite (split_pieces_first _ _ _ Hpre).
  cbn [lookup list_lookup fst snd].
  destruct Htail as [->|[more ->]].
  - rewrite app_nil_r, (split_pieces_none _ _ Hcontent). reflexivity.
  - rewrite (split_pieces_first _ _ _ Hcontent). reflexivity.
Qed.

Lemma split_no_second (sep : N) (s : jsstring) : ~ In sep s -> split sep s !! 1 = None.
Proof. intros H. unfold split. now rewrite (split_pieces_none _ _ H). Qed.

(** *** The first event decides *)

Lemma fire_settled (msg : jsstring) (ev : ReaderEvent) (c : Conversion) :
  settled (promise c) = true -> (armed <$> timer c) <> Some true ->
  promise (fire msg ev c) = promise c
  /\ (armed <$> timer (fire msg ev c)) <> Some true.
Proof.
  destruct c as [pr rd tm]. cbn [promise timer]. intros Hs Ht.
  assert (Hclear : (armed <$> (disarm <$> tm)) <> Some true).
  { destruct tm as [[d a x]|]; cbn; discriminate. }
  destruct ev as [result| |]; cbn [fire reader timer].
  - destruct rd; [|split; [reflexivity | exact Ht]].
    unfold on_loadend, settle.
    destruct result as [[|c0 s0]|];
      [| destruct (split 44%N (c0 :: s0) !! 1) as [[|c1 s1]|] |];
      cbn [promise timer clearTimeout];
      (split; [destruct pr; (discriminate Hs || reflexivity) | exact Hclear]).
  - destruct rd; [|split; [reflexivity | exact Ht]].
    unfold on_error, settle. cbn [promise timer clearTimeout].
    split; [destruct pr; (discriminate Hs || reflexivity) | exact Hclear].
  - destruct tm as [[d [|] x]|]; cbn [armed].
    + exfalso. apply Ht. reflexivity.
    + split; [reflexivity | exact Ht].
    + split; [reflexivity | exact Ht].
Qed.

Lemma run_settled (msg : jsstring) (evs : list ReaderEvent) (c : Conversion) :
  settled (promise c) = true -> (armed <$> timer c) <> Some true ->
  promise (run msg evs c) = promise c
  /\ (armed <$> timer (run msg evs c)) <> Some true.
Proof.
  revert c. induction evs as [|ev evs IH]; intros c Hs Ht; [split; [reflexivity|exact Ht]|].
  destruct (fire_settled msg ev c Hs Ht) as [Hp Ht'].
  destruct (IH (fire msg ev c)) as [Hp' Ht'']; [now rewrite Hp | exact Ht' |].
  split; [|exact Ht'']. cbn [run foldl flip]. unfold run in Hp'. now rewrite Hp', Hp.
Qed.

(** Any first event settles the conversion of a blob with bytes. *)
Lemma first_event_settles (msg : jsstring) (ev : ReaderEvent) (blob : Blob) :
  size blob <> 0 ->
  settled (promise (fire msg ev (convertBlobToBase64 blob))) = true
  /\ (armed <$> timer (fire msg ev (convertBlobToBase64 blob))) = Some false.
Proof.
  intros Hsize. rewrite (MicrophoneButtonFacts.convert_nonempty _ Hsize).
  destruct ev as [result| |]; cbn [fire reader timer armed].
  - unfold on_loadend, settle.
    destruct result as [[|c0 s0]|];
      [| destruct (split 44%N (c0 :: s0) !! 1) as [[|c1 s1]|] |];
      cbn; split; reflexivity.
  - split; reflexivity.
  - split; reflexivity.
Qed.

(** *** What a conversion can resolve to *)

Lemma split_pieces_no_sep (sep : N) (s : jsstring) :
  ~ In sep (fst (split_pieces sep s))
  /\ Forall (fun piece => ~ In sep piece) (snd (split_pieces sep s)).
Proof.
  induction s as [|c s [IHp IHr]]; cbn [split_pieces].
  - split; [intros [] | constructor].
  - destruct (split_pieces sep s) as [piece rest]. cbn [fst snd] in IHp, IHr.
    destruct (N.eqb_spec c sep) as [->|Hne]; cbn [fst snd].
    + split; [intros [] | now constructor].
    + split; [|exact IHr]. intros [H|H]; [contradiction | exact (IHp H)].
Qed.

Lemma split_second_no_sep (sep : N) (s piece : jsstring) :
  split sep s !! 1 = Some piece -> ~ In sep piece.
Proof.
  unfold split. destruct (split_pieces_no_sep sep s) as [_ Hrest].
  destruct (split_pieces sep s) as [first rest]. cbn [snd] in Hrest.
  destruct rest as [|second rest]; [discriminate|].
  cbn. intros [= <-]. now inversion Hrest.
Qed.

(** A conversion resolves only through [onloadend], on a result that
    holds a comma, to what follows the first comma. *)
Lemma resolved_content (msg : jsstring) (evs : list ReaderEvent) (blob : Blob)
    (v : jsstring) :
  promise (run msg evs (convertBlobToBase64 blob)) = Resolved v ->
  size blob <> 0 /\ v <> [] /\ ~ In 44%N v
  /\ exists result more, evs = EvLoadEnd (Some result) :: more
                         /\ split 44%N result !! 1 = Some v.
Proof.
  intros Hv.
  destruct (Nat.eq_dec (size blob) 0) as [Hz|Hsize].
  { rewrite (MicrophoneButtonFacts.convert_empty _ Hz) in Hv.
    rewrite MicrophoneButtonFacts.run_inert in Hv by reflexivity. discriminate Hv. }
  destruct evs as [|ev more].
  { rewrite (MicrophoneButtonFacts.convert_nonempty _ Hsize) in Hv. discriminate Hv. }
  destruct (first_event_settles msg ev blob Hsize) as [Hs Ht].
  assert (Hrun : promise (run msg (ev :: more) (convertBlobToBase64 blob))
                 = promise (fire msg ev (convertBlobToBase64 blob))).
  { cbn [run foldl flip].
    destruct (run_settled msg more (fire msg ev (convertBlobToBase64 blob)) Hs) as [H _];
      [rewrite Ht; discriminate | exact H]. }
  rewrite Hrun in Hv. clear Hrun Hs Ht.
  rewrite (MicrophoneButtonFacts.convert_nonempty _ Hsize) in Hv.
  destruct ev as [result| |]; cbn [fire reader timer armed] in Hv;
    [|discriminate Hv|discriminate Hv].
  unfold on_loadend, settle in Hv.
  destruct result as [[|c0 s0]|]; [discriminate Hv| |discriminate Hv].
  destruct (split 44%N (c0 :: s0) !! 1) as [[|c1 s1]|] eqn:Hsplit;
    [discriminate Hv| |discriminate Hv].
  cbn in Hv. injection Hv as <-.
  split; [exact Hsize|]. split; [discriminate|].
  split; [exact (split_second_no_sep _ _ _ Hsplit)|].
  exists (c0 :: s0), more. split; [reflexivity | exact Hsplit].
Qed.

End ConversionFacts.

(** Of the events that reach a conversion, the first one decides: it
    settles the promise and leaves the timer disarmed, and no later event
    changes either.  So a timeout after the reader has finished does not
    reject, and a result that arrives after the timeout does not
    resolve. *)
Theorem first_event_decides (blob : Blob) (ev : Base64.ReaderEvent)
    (evs : list Base64.ReaderEvent) :
  size blob <> 0 ->
  let first := Base64.fire conversion_timeout_message ev (convertBlobToBase64 blob) in
  let last := Base64.run conversion_timeout_message (ev :: evs) (convertBlobToBase64 blob) in
  Base64.promise last = Base64.promise first
  /\ settled (Base64.promise last) = true
  /\ (armed <$> Base64.timer last) <> Some true.
Proof.
  intros Hsize. cbv zeta. unfold convertBlobToBase64.
  destruct (ConversionFacts.first_event_settles conversion_timeout_message ev blob Hsize)
    as [Hs Ht].
  destruct (ConversionFacts.run_settled conversion_timeout_message evs _ Hs)
    as [Hp Ht']; [rewrite Ht; discriminate|].
  cbn [Base64.run foldl flip]. unfold Base64.run in Hp, Ht'.
  split; [exact Hp|]. split; [now rewrite Hp | exact Ht'].
Qed.

Lemma first_event_decides_witness :
  Base64.promise
    (Base64.run conversion_timeout_message
       [Base64.EvLoadEnd (Some (js "data:audio/webm;base64,AQ==")); Base64.EvTimeout]
       (convertBlobToBase64 (mkBlob [Byte.x01] (js "audio/webm"))))
  = Resolved (js "AQ==").
Proof.
  destruct (first_event_decides (mkBlob [Byte.x01] (js "audio/webm"))
              (Base64.EvLoadEnd (Some (js "data:audio/webm;base64,AQ==")))
              [Base64.EvTimeout] ltac:(discriminate)) as [H _].
  exact H.
Defined.

(** When the reader gives a data URL, the promise is resolved with what
    lies between its first comma and the next comma or the end, provided
    that is not empty: the base64 content without the prefix. *)
Theorem data_url_content (blob : Blob) (prefix content tail : jsstring) :
  size blob <> 0 ->
  ~ In 44%N prefix -> ~ In 44%N content -> content <> [] ->
  tail = [] \/ (exists more, tail = 44%N :: more) ->
  Base64.promise
    (Base64.fire conversion_timeout_message
       (Base64.EvLoadEnd (Some (prefix ++ 44%N :: content ++ tail)))
       (convertBlobToBase64 blob))
  = Resolved content.
Proof.
  intros Hsize Hpre Hcontent Hne Htail. unfold convertBlobToBase64.
  rewrite (MicrophoneButtonFacts.convert_nonempty _ Hsize).
  cbn [Base64.fire Base64.reader]. unfold Base64.on_loadend.
  assert (Hurl : exists c0 s0, prefix ++ 44%N :: content ++ tail = c0 :: s0).
  { destruct prefix; cbn; eauto. }
  destruct Hurl as (c0 & s0 & Hurl).
  pose proof (ConversionFacts.split_second 44%N prefix content tail Hpre Hcontent Htail)
    as Hsplit.
  rewrite Hurl in Hsplit |- *. cbv beta iota. unfold jsstring in *. rewrite Hsplit.
  destruct content as [|c1 s1]; [contradiction|]. reflexivity.
Qed.

Lemma data_url_content_witness :
  Base64.promise
    (Base64.fire conversion_timeout_message
       (Base64.EvLoadEnd (Some (js "data:audio/webm;codecs=opus;base64" ++ 44%N :: js "AQID" ++ [])))
       (convertBlobToBase64 (mkBlob [Byte.x01; Byte.x02; Byte.x03] (js "audio/webm"))))
  = Resolved (js "AQID").
Proof.
  apply (data_url_content (mkBlob [Byte.x01; Byte.x02; Byte.x03] (js "audio/webm"))
           (js "data:audio/webm;codecs=opus;base64") (js "AQID") []).
  - discriminate.
  - vm_compute. intuition discriminate.
  - vm_compute. intuition discriminate.
  - discriminate.
  - now left.
Defined.

(** What the reader gives without base64 content is rejected: no result
    or an empty one is a failed conversion; a result without a comma, or
    with nothing after its first comma, is invalid data. *)
Theorem result_without_content (blob : Blob) :
  size blob <> 0 ->
  let outcome result :=
    Base64.promise (Base64.fire conversion_timeout_message (Base64.EvLoadEnd result)
                                (convertBlobToBase64 blob)) in
  outcome None = Rejected (Error (js "Failed to convert audio to base64"))
  /\ outcome (Some []) = Rejected (Error (js "Failed to convert audio to base64"))
  /\ (forall s, s <> [] -> ~ In 44%N s ->
        outcome (Some s) = Rejected (Error (js "Invalid base64 data")))
  /\ (forall prefix tail, ~ In 44%N prefix ->
        tail = [] \/ (exists more, tail = 44%N :: more) ->
        outcome (Some (prefix ++ 44%N :: tail))
        = Rejected (Error (js "Invalid base64 data"))).
Proof.
  intros Hsize. cbv zeta. unfold convertBlobToBase64.
  rewrite (MicrophoneButtonFacts.convert_nonempty _ Hsize).
  cbn [Base64.fire Base64.reader]. unfold Base64.on_loadend.
  split; [reflexivity|]. split; [reflexivity|]. split.
  - intros s Hne Hn. destruct s as [|c0 s0]; [contradiction|].
    pose proof (ConversionFacts.split_no_second _ _ Hn) as Hnone.
    unfold jsstring in *. now rewrite Hnone.
  - intros prefix tail Hn Htail.
    pose proof (ConversionFacts.split_second 44%N prefix [] tail Hn ltac:(intros [])
                  Htail) as Hsplit.
    cbn [app] in Hsplit.
    destruct (prefix ++ 44%N :: tail) as [|c0 s0] eqn:E.
    + now destruct prefix.
    + unfold jsstring in *. now rewrite Hsplit.
Qed.

Lemma result_without_content_witness :
  Base64.promise
    (Base64.fire conversion_timeout_message (Base64.EvLoadEnd (Some (js "data:")))
                 (convertBlobToBase64 (mkBlob [Byte.x01] (js "audio/webm"))))
  = Rejected (Error (js "Invalid base64 data")).
Proof.
  destruct (result_without_content (mkBlob [Byte.x01] (js "audio/webm"))
              ltac:(discriminate)) as (_ & _ & H & _).
  apply H.
  - discriminate.
  - vm_compute. intuition discriminate.
Defined.

(* ===================================================================== *)
(** ** Facts about recognition sessions and the listening button *)
(* ===================================================================== *)

Module ListeningFacts.
Import ClientSpeechRecognition ClientSpeechRecognitionFacts.

(** An event touches the call whose handlers are assigned, and no
    other; it never assigns handlers. *)
Lemma fire_other_call (ev : Event) (s : State) (q : nat) :
  handlers s <> Some q ->
  calls (fire ev s) !! q = calls s !! q /\ handlers (fire ev s) = handlers s.
Proof.
  intros Hq.
  destruct (handlers s) as [p|] eqn:Hp.
  - assert (Hne : p <> q) by congruence.
    assert (Halter : forall f, alter f p (calls s) !! q = calls s !! q)
      by (intros f; now apply list_lookup_alter_ne).
    destruct ev as [|event|error|]; cbn [fire handlers set_started]; rewrite Hp.
    + split; [reflexivity | exact Hp].
    + unfold on_result. cbn [calls handlers set_calls]. split; [apply Halter | exact Hp].
    + unfold on_error, settle. cbn [calls handlers set_calls set_isListening].
      split; [apply Halter | exact Hp].
    + unfold on_end. cbn [calls set_isListening set_started].
      destruct (finalTranscript <$> calls s !! p) as [ft|];
        [|split; [reflexivity | exact Hp]].
      destruct (truthy (trim ft)); unfold settle;
        cbn [calls handlers set_calls set_isListening set_started];
        (split; [apply Halter | exact Hp]).
  - destruct ev as [|event|error|]; cbn [fire handlers set_started]; rewrite Hp;
      (split; [reflexivity | exact Hp]).
Qed.

Lemma run_other_call (evs : list Event) (s : State) (q : nat) :
  handlers s <> Some q -> calls (run evs s) !! q = calls s !! q.
Proof.
  revert s. induction evs as [|ev evs IH]; intros s Hq; [reflexivity|].
  destruct (fire_other_call ev s q Hq) as [Hc Hh].
  cbn [run foldl flip]. change (foldl (flip fire) (fire ev s) evs) with (run evs (fire ev s)).
  rewrite IH by (now rewrite Hh). exact Hc.
Qed.

(** A settled promise of [startListening] stays as it is under every
    event. *)
Lemma fire_settled_call (ev : Event) (s : State) (q : nat) (x : PromiseState jsstring) :
  promise <$> calls s !! q = Some x -> x <> Pending ->
  promise <$> calls (fire ev s) !! q = Some x.
Proof.
  intros Hq Hx.
  assert (Hsettle : forall p f s0, calls s0 = calls s ->
            (forall y, y <> Pending -> f y = y) ->
            promise <$> calls (settle p f s0) !! q = Some x).
  { intros p f s0 Hs0 Hf. unfold settle. cbn [calls set_calls]. rewrite Hs0.
    destruct (decide (p = q)) as [->|Hne].
    - rewrite list_lookup_alter_eq. destruct (calls s !! q) as [c|]; [|discriminate].
      cbn in Hq |- *. injection Hq as Hq. now rewrite Hq, (Hf _ Hx).
    - now rewrite list_lookup_alter_ne. }
  assert (Hrej : forall e (y : PromiseState jsstring), y <> Pending -> reject e y = y).
  { intros e [| |] H; (reflexivity || contradiction). }
  assert (Hres : forall v (y : PromiseState jsstring), y <> Pending -> resolve v y = y).
  { intros v [| |] H; (reflexivity || contradiction). }
  destruct ev as [|event|error|]; cbn [fire];
    destruct (handlers _) as [p|] eqn:Hp; try exact Hq.
  - unfold on_result. cbn [calls set_calls].
    destruct (decide (p = q)) as [->|Hne].
    + rewrite list_lookup_alter_eq. destruct (calls s !! q) as [c|]; [|discriminate].
      exact Hq.
    + now rewrite list_lookup_alter_ne.
  - unfold on_error. apply Hsettle; [reflexivity | apply Hrej].
  - unfold on_end. cbn [calls set_isListening set_started].
    destruct (finalTranscript <$> calls s !! p) as [ft|]; [|exact Hq].
    destruct (truthy (trim ft)); apply Hsettle; (reflexivity || apply Hres || apply Hrej).
Qed.

Lemma run_settled_call (evs : list Event) (s : State) (q : nat) (x : PromiseState jsstring) :
  promise <$> calls s !! q = Some x -> x <> Pending ->
  promise <$> calls (run evs s) !! q = Some x.
Proof.
  revert s. induction evs as [|ev evs IH]; intros s Hq Hx; [exact Hq|].
  cbn [run foldl flip]. change (foldl (flip fire) (fire ev s) evs) with (run evs (fire ev s)).
  apply IH; [now apply fire_settled_call | exact Hx].
Qed.

(** [startListening] on an instance whose recognizer is started but has
    not fired [start] yet. *)
Lemma startListening_started (s : State) (cfg : Settings) :
  recognition s = Some cfg -> isListening s = false -> started s = true ->
  startListening s
  = (mkState (Some cfg) false true (Some (length (calls s)))
       (calls s ++ [mkCall [] (Rejected (Error (js "Failed to start speech recognition")))]),
     length (calls s)).
Proof.
  intros Hrec Hlis Hst. unfold startListening. simpl.
  rewrite Hrec. simpl. rewrite Hlis. simpl. rewrite Hst.
  unfold settle, set_isListening, set_handlers, set_calls. simpl.
  now rewrite Hrec, Hst, VoiceRecorderFacts.alter_last.
Qed.

(** How a recognition started on an idle instance ends. *)
Lemma listen_outcome (s : State) (cfg : Settings) (evs : list Event) :
  recognition s = Some cfg -> isListening s = false -> started s = false ->
  forallb listening evs = true ->
  promise <$> calls (run (evs ++ [EvEnd]) (fst (startListening s))) !! length (calls s)
  = Some (if truthy (trim (heard evs)) then Resolved (trim (heard evs))
          else Rejected (Error (js "No speech detected"))).
Proof.
  intros Hrec Hlis Hst Hevs.
  rewrite (startListening_idle _ _ Hrec Hlis Hst). cbn [fst].
  set (p := length (calls s)). set (s1 := mkState _ _ _ _ _).
  assert (Hc1 : calls s1 !! p = Some (mkCall [] Pending)) by apply list_lookup_middle, eq_refl.
  destruct (run_listening evs s1 p [] Pending eq_refl Hc1 Hevs) as [Hh2 Hc2].
  cbn [app] in Hc2. unfold run. rewrite foldl_app. fold (run evs s1).
  cbn [foldl flip fire]. cbn [handlers set_started]. rewrite Hh2.
  unfold on_end. cbn [calls set_isListening set_started]. rewrite Hc2.
  cbn [fmap option_fmap option_map finalTranscript].
  destruct (truthy (trim (heard evs))); unfold settle;
    cbn [calls set_calls set_isListening set_started];
    rewrite list_lookup_alter_eq, Hc2; reflexivity.
Qed.

(** How a recognition started on an idle instance fails. *)
Lemma error_outcome (s : State) (cfg : Settings) (evs more : list Event)
    (error : jsstring) :
  recognition s = Some cfg -> isListening s = false -> started s = false ->
  forallb listening evs = true ->
  isListening (run (evs ++ [EvError error]) (fst (startListening s))) = false
  /\ promise <$> calls (run more (run (evs ++ [EvError error]) (fst (startListening s))))
                 !! length (calls s)
     = Some (Rejected (Error (error_message error))).
Proof.
  intros Hrec Hlis Hst Hevs.
  rewrite (startListening_idle _ _ Hrec Hlis Hst). cbn [fst].
  set (p := length (calls s)). set (s1 := mkState _ _ _ _ _).
  assert (Hc1 : calls s1 !! p = Some (mkCall [] Pending)) by apply list_lookup_middle, eq_refl.
  destruct (run_listening evs s1 p [] Pending eq_refl Hc1 Hevs) as [Hh2 Hc2].
  assert (Hfailed : run (evs ++ [EvError error]) s1 = on_error p error (run evs s1)).
  { unfold run. rewrite foldl_app. cbn [foldl flip fire].
    fold (run evs s1). now rewrite Hh2. }
  rewrite Hfailed. split; [reflexivity|].
  apply run_settled_call; [|discriminate].
  unfold on_error, settle. cbn [calls set_calls set_isListening].
  now rewrite list_lookup_alter_eq, Hc2.
Qed.

End ListeningFacts.

(** [startListening] while the instance is listening is rejected with
    the already-listening error and leaves the recognition that is going
    on as it is: its handlers, its flags and its calls. *)
Theorem already_listening_guard (s : ClientSpeechRecognition.State)
    (cfg : ClientSpeechRecognition.Settings) :
  ClientSpeechRecognition.recognition s = Some cfg ->
  ClientSpeechRecognition.isListening s = true ->
  let s' := fst (ClientSpeechRecognition.startListening s) in
  let p := snd (ClientSpeechRecognition.startListening s) in
  ClientSpeechRecognition.promise <$> ClientSpeechRecognition.calls s' !! p
  = Some (Rejected (Error (js "Already listening")))
  /\ ClientSpeechRecognition.handlers s' = ClientSpeechRecognition.handlers s
  /\ ClientSpeechRecognition.isListening s' = true
  /\ ClientSpeechRecognition.started s' = ClientSpeechRecognition.started s
  /\ (forall q c, ClientSpeechRecognition.calls s !! q = Some c ->
                  ClientSpeechRecognition.calls s' !! q = Some c).
Proof.
  intros Hrec Hlis. cbv zeta.
  assert (Hstart : ClientSpeechRecognition.startListening s
                   = (ClientSpeechRecognition.settle (length (ClientSpeechRecognition.calls s))
                        (reject (Error (js "Already listening")))
                        (ClientSpeechRecognition.set_calls
                           (ClientSpeechRecognition.calls s
                            ++ [ClientSpeechRecognition.mkCall [] Pending]) s),
                      length (ClientSpeechRecognition.calls s))).
  { unfold ClientSpeechRecognition.startListening. simpl. rewrite Hrec. simpl.
    now rewrite Hlis. }
  rewrite Hstart. cbn [fst snd]. unfold ClientSpeechRecognition.settle.
  cbn [ClientSpeechRecognition.calls ClientSpeechRecognition.set_calls
       ClientSpeechRecognition.handlers ClientSpeechRecognition.isListening
       ClientSpeechRecognition.started].
  rewrite VoiceRecorderFacts.alter_last.
  split; [now rewrite VoiceRecorderFacts.lookup_last|].
  repeat (split; [reflexivity || assumption|]).
  intros q c Hq. now apply lookup_app_l_Some.
Qed.

Lemma already_listening_guard_witness :
  let s := ClientSpeechRecognition.fire ClientSpeechRecognition.EvStart
             (fst (ClientSpeechRecognition.startListening ClientSpeechRecognition.idle)) in
  ClientSpeechRecognition.promise
  <$> ClientSpeechRecognition.calls (fst (ClientSpeechRecognition.startListening s))
      !! snd (ClientSpeechRecognition.startListening s)
  = Some (Rejected (Error (js "Already listening")))
  /\ ClientSpeechRecognition.handlers (fst (ClientSpeechRecognition.startListening s))
     = ClientSpeechRecognition.handlers s.
Proof.
  destruct (already_listening_guard
              (ClientSpeechRecognition.fire ClientSpeechRecognition.EvStart
                 (fst (ClientSpeechRecognition.startListening ClientSpeechRecognition.idle)))
              (ClientSpeechRecognition.mkSettings false false 1%N (js "en-US"))
              eq_refl eq_refl) as (H1 & H2 & _).
  split; [exact H1 | exact H2].
Defined.

(** A recognition error decides the outcome: the promise is rejected
    with the message of the error and the instance stops listening; the
    [end] event that follows, and any other event, leaves the rejection
    as it is.  What was heard before the error is dropped. *)
Theorem recognition_error_is_final (s : ClientSpeechRecognition.State)
    (cfg : ClientSpeechRecognition.Settings)
    (evs more : list ClientSpeechRecognition.Event) (error : jsstring) :
  ClientSpeechRecognition.recognition s = Some cfg ->
  ClientSpeechRecognition.isListening s = false ->
  ClientSpeechRecognition.started s = false ->
  forallb ClientSpeechRecognition.listening evs = true ->
  let p := snd (ClientSpeechRecognition.startListening s) in
  let failed :=
    ClientSpeechRecognition.run (evs ++ [ClientSpeechRecognition.EvError error])
      (fst (ClientSpeechRecognition.startListening s)) in
  ClientSpeechRecognition.isListening failed = false
  /\ ClientSpeechRecognition.promise
     <$> ClientSpeechRecognition.calls (ClientSpeechRecognition.run more failed) !! p
     = Some (Rejected (Error (ClientSpeechRecognition.error_message error))).
Proof.
  intros Hrec Hlis Hst Hevs. cbv zeta.
  assert (Hp : snd (ClientSpeechRecognition.startListening s)
               = length (ClientSpeechRecognition.calls s))
    by now rewrite (ClientSpeechRecognitionFacts.startListening_idle _ _ Hrec Hlis Hst).
  rewrite Hp.
  exact (ListeningFacts.error_outcome s cfg evs more error Hrec Hlis Hst Hevs).
Qed.

Lemma recognition_error_is_final_witness :
  ClientSpeechRecognition.promise
  <$> ClientSpeechRecognition.calls
        (ClientSpeechRecognition.run [ClientSpeechRecognition.EvEnd]
           (ClientSpeechRecognition.run
              ([ClientSpeechRecognition.EvStart]
               ++ [ClientSpeechRecognition.EvError (js "no-speech")])
              (fst (ClientSpeechRecognition.startListening ClientSpeechRecognition.idle))))
      !! snd (ClientSpeechRecognition.startListening ClientSpeechRecognition.idle)
  = Some (Rejected (Error (ClientSpeechRecognition.error_message (js "no-speech")))).
Proof.
  destruct (recognition_error_is_final ClientSpeechRecognition.idle
              (ClientSpeechRecognition.mkSettings false false 1%N (js "en-US"))
              [ClientSpeechRecognition.EvStart] [ClientSpeechRecognition.EvEnd]
              (js "no-speech") eq_refl eq_refl eq_refl eq_refl) as [_ H].
  exact H.
Defined.

(** A second [startListening] before the recognizer has fired [start]
    is not stopped by the guard: it takes the handlers over and is
    rejected because the recognizer is already started.  From then on no
    event reaches the first call: its promise stays pending through every
    event of that recognition. *)
Theorem second_start_orphans_first (s : ClientSpeechRecognition.State)
    (cfg : ClientSpeechRecognition.Settings) (evs : list ClientSpeechRecognition.Event) :
  ClientSpeechRecognition.recognition s = Some cfg ->
  ClientSpeechRecognition.isListening s = false ->
  ClientSpeechRecognition.started s = false ->
  let p1 := snd (ClientSpeechRecognition.startListening s) in
  let s1 := fst (ClientSpeechRecognition.startListening s) in
  let p2 := snd (ClientSpeechRecognition.startListening s1) in
  let s2 := fst (ClientSpeechRecognition.startListening s1) in
  ClientSpeechRecognition.promise <$> ClientSpeechRecognition.calls s2 !! p2
  = Some (Rejected (Error (js "Failed to start speech recognition")))
  /\ ClientSpeechRecognition.handlers s2 = Some p2
  /\ ClientSpeechRecognition.promise
     <$> ClientSpeechRecognition.calls (ClientSpeechRecognition.run evs s2) !! p1
     = Some Pending.
Proof.
  intros Hrec Hlis Hst. cbv zeta.
  rewrite (ClientSpeechRecognitionFacts.startListening_idle _ _ Hrec Hlis Hst).
  cbn [fst snd].
  set (s1 := ClientSpeechRecognition.mkState _ _ _ _ _).
  rewrite (ListeningFacts.startListening_started s1 cfg eq_refl eq_refl eq_refl).
  subst s1.
  cbn [fst snd ClientSpeechRecognition.calls ClientSpeechRecognition.handlers].
  split; [now rewrite VoiceRecorderFacts.lookup_last|]. split; [reflexivity|].
  rewrite ListeningFacts.run_other_call.
  - cbn [ClientSpeechRecognition.calls].
    rewrite lookup_app_l_Some with (x := ClientSpeechRecognition.mkCall [] Pending);
      [reflexivity | apply VoiceRecorderFacts.lookup_last].
  - cbn [ClientSpeechRecognition.handlers]. rewrite length_app. cbn.
    intros [= E]. lia.
Qed.

Lemma second_start_orphans_first_witness :
  let s1 := fst (ClientSpeechRecognition.startListening ClientSpeechRecognition.idle) in
  let s2 := fst (ClientSpeechRecognition.startListening s1) in
  ClientSpeechRecognition.promise
  <$> ClientSpeechRecognition.calls
        (ClientSpeechRecognition.run
           [ClientSpeechRecognition.EvStart;
            ClientSpeechRecognition.EvResult
              (ClientSpeechRecognition.mkEvent 0 [ClientSpeechRecognition.said true "hello"]);
            ClientSpeechRecognition.EvEnd] s2)
      !! snd (ClientSpeechRecognition.startListening ClientSpeechRecognition.idle)
  = Some Pending.
Proof.
  destruct (second_start_orphans_first ClientSpeechRecognition.idle
              (ClientSpeechRecognition.mkSettings false false 1%N (js "en-US"))
              [ClientSpeechRecognition.EvStart;
               ClientSpeechRecognition.EvResult
                 (ClientSpeechRecognition.mkEvent 0
                    [ClientSpeechRecognition.said true "hello"]);
               ClientSpeechRecognition.EvEnd]
              eq_refl eq_refl eq_refl) as (_ & _ & H).
  exact H.
Defined.

(** The listening button on a recognition that ends normally: what was
    heard in final results, trimmed, is handed to [onTranscription] and
    the success toast follows; when nothing was heard the no-speech error
    is shown instead and nothing is handed on.  Either way the button
    leaves the listening state last. *)
Theorem button_reports_what_was_heard (s : ClientSpeechRecognition.State)
    (cfg : ClientSpeechRecognition.Settings) (evs : list ClientSpeechRecognition.Event)
    (listened : PromiseState jsstring) :
  ClientSpeechRecognition.recognition s = Some cfg ->
  ClientSpeechRecognition.isListening s = false ->
  ClientSpeechRecognition.started s = false ->
  forallb ClientSpeechRecognition.listening evs = true ->
  ClientSpeechRecognition.promise
  <$> ClientSpeechRecognition.calls
        (ClientSpeechRecognition.run (evs ++ [ClientSpeechRecognition.EvEnd])
           (fst (ClientSpeechRecognition.startListening s)))
      !! snd (ClientSpeechRecognition.startListening s)
  = Some listened ->
  let text := trim (ClientSpeechRecognition.heard evs) in
  ClientMicrophoneButton.handleStartListening true listened
  = [ClientMicrophoneButton.SetError None; ClientMicrophoneButton.SetIsListening true;
     ClientMicrophoneButton.Toast (js "Listening...")
       (js "Speak now. The microphone is active.") false]
    ++ (if truthy text then
          [ClientMicrophoneButton.OnTranscription text;
           ClientMicrophoneButton.Toast (js "Speech Recognized")
             (js "Your speech has been converted to text successfully!") false]
        else
          [ClientMicrophoneButton.SetError (Some (js "No speech detected"));
           ClientMicrophoneButton.Toast (js "Speech Recognition Failed")
             (js "No speech detected") true])
    ++ [ClientMicrophoneButton.SetIsListening false].
Proof.
  intros Hrec Hlis Hst Hevs Hlistened. cbv zeta.
  assert (Hp : snd (ClientSpeechRecognition.startListening s)
               = length (ClientSpeechRecognition.calls s))
    by now rewrite (ClientSpeechRecognitionFacts.startListening_idle _ _ Hrec Hlis Hst).
  rewrite Hp, (ListeningFacts.listen_outcome s cfg evs Hrec Hlis Hst Hevs) in Hlistened.
  injection Hlistened as <-.
  unfold ClientMicrophoneButton.handleStartListening. cbn [negb].
  destruct (truthy (trim (ClientSpeechRecognition.heard evs))) eqn:Ht.
  - rewrite Ht. reflexivity.
  - reflexivity.
Qed.

Lemma button_reports_what_was_heard_witness :
  ClientMicrophoneButton.handleStartListening true (Resolved (js "hello"))
  = [ClientMicrophoneButton.SetError None; ClientMicrophoneButton.SetIsListening true;
     ClientMicrophoneButton.Toast (js "Listening...")
       (js "Speak now. The microphone is active.") false;
     ClientMicrophoneButton.OnTranscription (js "hello");
     ClientMicrophoneButton.Toast (js "Speech Recognized")
       (js "Your speech has been converted to text successfully!") false;
     ClientMicrophoneButton.SetIsListening false].
Proof.
  exact (button_reports_what_was_heard ClientSpeechRecognition.idle
           (ClientSpeechRecognition.mkSettings false false 1%N (js "en-US"))
           [ClientSpeechRecognition.EvStart;
            ClientSpeechRecognition.EvResult
              (ClientSpeechRecognition.mkEvent 0
                 [ClientSpeechRecognition.said true " hello "])]
           (Resolved (js "hello")) eq_refl eq_refl eq_refl eq_refl eq_refl).
Defined.

(** The listening button on a recognition that fails: the message of
    the recognition error is set as the error of the component and shown
    in the failure toast, nothing is handed to [onTranscription], and the
    button leaves the listening state last. *)
Theorem button_reports_recognition_error (s : ClientSpeechRecognition.State)
    (cfg : ClientSpeechRecognition.Settings)
    (evs more : list ClientSpeechRecognition.Event) (error : jsstring)
    (listened : PromiseState jsstring) :
  ClientSpeechRecognition.recognition s = Some cfg ->
  ClientSpeechRecognition.isListening s = false ->
  ClientSpeechRecognition.started s = false ->
  forallb ClientSpeechRecognition.listening evs = true ->
  ClientSpeechRecognition.promise
  <$> ClientSpeechRecognition.calls
        (ClientSpeechRecognition.run more
           (ClientSpeechRecognition.run (evs ++ [ClientSpeechRecognition.EvError error])
              (fst (ClientSpeechRecognition.startListening s))))
      !! snd (ClientSpeechRecognition.startListening s)
  = Some listened ->
  ClientMicrophoneButton.handleStartListening true listened
  = [ClientMicrophoneButton.SetError None; ClientMicrophoneButton.SetIsListening true;
     ClientMicrophoneButton.Toast (js "Listening...")
       (js "Speak now. The microphone is active.") false;
     ClientMicrophoneButton.SetError (Some (ClientSpeechRecognition.error_message error));
     ClientMicrophoneButton.Toast (js "Speech Recognition Failed")
       (ClientSpeechRecognition.error_message error) true;
     ClientMicrophoneButton.SetIsListening false].
Proof.
  intros Hrec Hlis Hst Hevs Hlistened.
  assert (Hp : snd (ClientSpeechRecognition.startListening s)
               = length (ClientSpeechRecognition.calls s))
    by now rewrite (ClientSpeechRecognitionFacts.startListening_idle _ _ Hrec Hlis Hst).
  destruct (ListeningFacts.error_outcome s cfg evs more error Hrec Hlis Hst Hevs)
    as [_ Hout].
  rewrite Hp, Hout in Hlistened. injection Hlistened as <-. reflexivity.
Qed.

Lemma button_reports_recognition_error_witness :
  ClientMicrophoneButton.handleStartListening true
    (Rejected (Error (ClientSpeechRecognition.error_message (js "not-allowed"))))
  = [ClientMicrophoneButton.SetError None; ClientMicrophoneButton.SetIsListening true;
     ClientMicrophoneButton.Toast (js "Listening...")
       (js "Speak now. The microphone is active.") false;
     ClientMicrophoneButton.SetError
       (Some (ClientSpeechRecognition.error_message (js "not-allowed")));
     ClientMicrophoneButton.Toast (js "Speech Recognition Failed")
       (ClientSpeechRecognition.error_message (js "not-allowed")) true;
     ClientMicrophoneButton.SetIsListening false].
Proof.
  exact (button_reports_recognition_error ClientSpeechRecognition.idle
           (ClientSpeechRecognition.mkSettings false false 1%N (js "en-US"))
           [ClientSpeechRecognition.EvStart] [ClientSpeechRecognition.EvEnd]
           (js "not-allowed")
           (Rejected (Error (ClientSpeechRecognition.error_message (js "not-allowed"))))
           eq_refl eq_refl eq_refl eq_refl eq_refl).
Defined.

(** Between [startListening] and the [start] event of the recognizer
    the instance does not count as listening: [handleStopListening] does
    nothing then, and the recognition goes on.  Once [start] has fired it
    stops the recognizer, leaves the listening state and says so. *)
Theorem stop_before_start_is_ignored (s : ClientSpeechRecognition.State)
    (cfg : ClientSpeechRecognition.Settings) :
  ClientSpeechRecognition.recognition s = Some cfg ->
  ClientSpeechRecognition.isListening s = false ->
  ClientSpeechRecognition.started s = false ->
  let s1 := fst (ClientSpeechRecognition.startListening s) in
  ClientMicrophoneButton.handleStopListening (Some s1) = []
  /\ ClientMicrophoneButton.handleStopListening
       (Some (ClientSpeechRecognition.fire ClientSpeechRecognition.EvStart s1))
     = [ClientMicrophoneButton.StopListening; ClientMicrophoneButton.SetIsListening false;
        ClientMicrophoneButton.Toast (js "Stopped Listening")
          (js "Microphone has been turned off") false].
Proof.
  intros Hrec Hlis Hst. cbv zeta.
  rewrite (ClientSpeechRecognitionFacts.startListening_idle _ _ Hrec Hlis Hst).
  split; reflexivity.
Qed.

Lemma stop_before_start_is_ignored_witness :
  ClientMicrophoneButton.handleStopListening
    (Some (fst (ClientSpeechRecognition.startListening ClientSpeechRecognition.idle)))
  = [].
Proof.
  destruct (stop_before_start_is_ignored ClientSpeechRecognition.idle
              (ClientSpeechRecognition.mkSettings false false 1%N (js "en-US"))
              eq_refl eq_refl eq_refl) as [H _].
  exact H.
Defined.

(** Both copies of [convertBlobToBase64], whatever the reader and the
    timer do: the promise resolves only for a blob with bytes, only
    through [onloadend] as the first event, and only to what follows the
    first comma of the result, which is then neither empty nor holds a
    comma. *)
Theorem conversion_resolves_to_content (msg : jsstring) (evs : list Base64.ReaderEvent)
    (blob : Blob) (v : jsstring) :
  Base64.promise (Base64.run msg evs (Base64.convertBlobToBase64 blob)) = Resolved v ->
  size blob <> 0 /\ v <> [] /\ ~ In 44%N v
  /\ exists result more, evs = Base64.EvLoadEnd (Some result) :: more
                         /\ split 44%N result !! 1 = Some v.
Proof. exact (ConversionFacts.resolved_content msg evs blob v). Qed.

Lemma conversion_resolves_to_content_witness :
  size (mkBlob [Byte.x01] (js "audio/webm")) <> 0 /\ js "AQ==" <> [] /\ ~ In 44%N (js "AQ==")
  /\ exists result more,
       [Base64.EvLoadEnd (Some (js "data:audio/webm;base64,AQ==")); Base64.EvTimeout]
       = Base64.EvLoadEnd (Some result) :: more
       /\ split 44%N result !! 1 = Some (js "AQ==").
Proof.
  exact (conversion_resolves_to_content conversion_timeout_message
           [Base64.EvLoadEnd (Some (js "data:audio/webm;base64,AQ==")); Base64.EvTimeout]
           (mkBlob [Byte.x01] (js "audio/webm")) (js "AQ==") eq_refl).
Defined.

(* ===================================================================== *)
(** ** Facts about the handler of the stop button *)
(* ===================================================================== *)

Module StopHandlerFacts.
Import MicrophoneButton.

Lemma count_app (f : Effect -> bool) (l1 l2 : list Effect) :
  count f (l1 ++ l2) = count f l1 + count f l2.
Proof. unfold count. now rewrite List.filter_app, length_app. Qed.

(** What the [try] block has done when it is left: a toast exactly when
    it ran to its end, at most one request, and never the reset of the
    processing state. *)
Lemma try_block_effects (a : Awaited) :
  count is_toast (fst (try_block a))
  = match snd (try_block a) with Normal => 1 | _ => 0 end
  /\ count is_fetch (fst (try_block a)) <= 1
  /\ count is_transcription (fst (try_block a)) <= 1
  /\ ~ In (SetIsProcessing false) (fst (try_block a)).
Proof.
  assert (Hresponse : forall r,
             count is_toast (fst (handle_response r))
             = match snd (handle_response r) with Normal => 1 | _ => 0 end
             /\ count is_fetch (fst (handle_response r)) = 0
             /\ count is_transcription (fst (handle_response r)) <= 1
             /\ ~ In (SetIsProcessing false) (fst (handle_response r))).
  { intros r. unfold handle_response.
    destruct (json r) as [|data|e];
      [| destruct (negb (ok r));
         [destruct (match error data with Some _ => _ | None => _ end)
         | destruct (truthy _ && truthy _)] |];
      cbn; repeat split; try lia; intuition discriminate. }
  assert (Htranscribe :
             count is_toast (fst (transcribe a))
             = match snd (transcribe a) with Normal => 1 | _ => 0 end
             /\ count is_fetch (fst (transcribe a)) <= 1
             /\ count is_transcription (fst (transcribe a)) <= 1
             /\ ~ In (SetIsProcessing false) (fst (transcribe a))).
  { unfold transcribe.
    destruct (stopped a) as [|blob|e];
      [| destruct (Base64.promise _) as [|audio|e];
         [| destruct (fetched a audio) as [|r|e] |] |];
      try (cbn; repeat split; try lia; intuition discriminate).
    destruct (Hresponse r) as (Ht & Hf & Hn & Hp).
    destruct (handle_response r) as [effects c]. cbn [fst snd] in *.
    change (Fetch endpoint audio :: effects) with ([Fetch endpoint audio] ++ effects).
    rewrite !count_app, Ht, Hf. cbn. repeat split; try lia.
    intros [H|H]; [discriminate H | exact (Hp H)]. }
  unfold try_block. destruct (recorder a); cbn [negb].
  - destruct Htranscribe as (Ht & Hf & Hn & Hp).
    destruct (transcribe a) as [effects c]. cbn [fst snd] in *.
    rewrite !count_app, Ht.
    destruct (interval a); cbn; repeat split; try lia; intuition discriminate.
  - destruct (interval a); cbn; repeat split; try lia; intuition discriminate.
Qed.

(** Every run of [handleStopRecording] that comes to an end shows
    exactly one toast and ends by resetting the processing state and the
    duration; a run that waits for a promise that never settles shows no
    toast and leaves the component processing.  No run sends more than
    one request or hands on more than one transcript. *)
Theorem stop_handler_reports_once (a : Awaited) :
  let effects := handleStopRecording a in
  count is_fetch effects <= 1 /\ count is_transcription effects <= 1
  /\ match snd (try_block a) with
     | Hangs => count is_toast effects = 0 /\ ~ In (SetIsProcessing false) effects
     | _ => count is_toast effects = 1 /\ exists before, effects = before ++ finally
     end.
Proof.
  cbv zeta. destruct (try_block_effects a) as (Ht & Hf & Hn & Hp).
  unfold handleStopRecording.
  destruct (try_block a) as [effects c]. cbn [fst snd] in *.
  destruct c; rewrite ?count_app, ?Ht; cbn; repeat split; try lia.
  - now exists effects.
  - exists (effects ++ [Toast (js "Error") (message e) true]). now rewrite <- app_assoc.
  - exact Hp.
Qed.

(** Nothing is sent to the service without audio: a request goes to the
    endpoint only when there is a recorder, its [stopRecording] gave a
    blob with bytes and the conversion resolved; the audio sent is what
    the conversion resolved to, which is neither empty nor holds a
    comma. *)
Theorem request_needs_audio (a : Awaited) (url audio : jsstring) :
  In (Fetch url audio) (handleStopRecording a) ->
  url = endpoint /\ recorder a = true
  /\ (exists blob, stopped a = Resolved blob /\ size blob <> 0
                   /\ Base64.promise
                        (Base64.run conversion_timeout_message (reader a)
                           (Base64.convertBlobToBase64 blob))
                      = Resolved audio)
  /\ audio <> [] /\ ~ In 44%N audio.
Proof.
  intros Hin.
  assert (Htry : In (Fetch url audio) (fst (try_block a))).
  { unfold handleStopRecording in Hin. destruct (try_block a) as [effects c].
    cbn [fst]. destruct c; [| |exact Hin].
    - apply in_app_or in Hin as [H|H]; [exact H|].
      unfold finally in H. cbn in H. intuition discriminate.
    - apply in_app_or in Hin as [H|H]; [exact H|].
      unfold finally in H. cbn in H. intuition discriminate. }
  clear Hin. unfold try_block in Htry.
  destruct (recorder a); cbn [negb] in Htry.
  - assert (Htr : In (Fetch url audio) (fst (transcribe a))).
    { destruct (transcribe a) as [effects c]. cbn [fst] in *.
      apply in_app_or in Htry as [H|H]; [|exact H].
      destruct (interval a); cbn in H; intuition discriminate. }
    clear Htry. unfold transcribe in Htr.
    destruct (stopped a) as [|blob|e]; [destruct Htr| |destruct Htr].
    destruct (Base64.promise _) as [|base64Audio|e] eqn:Hconv;
      [destruct Htr| |destruct Htr].
    assert (Hfetch : Fetch url audio = Fetch endpoint base64Audio).
    { destruct (fetched a base64Audio) as [|r|e]; cbn [fst In] in Htr.
      - destruct Htr as [H|[]]. now symmetry.
      - destruct (handle_response r) as [effects c] eqn:Hr. cbn [fst In] in Htr.
        destruct Htr as [H|H]; [now symmetry|].
        exfalso. revert H. replace effects with (fst (handle_response r)) by now rewrite Hr.
        clear. unfold handle_response.
        destruct (json r) as [|data|e];
          [| destruct (negb (ok r));
             [destruct (match error data with Some _ => _ | None => _ end)
             | destruct (truthy _ && truthy _)] |];
          cbn; intuition discriminate.
      - destruct Htr as [H|[]]. now symmetry. }
    injection Hfetch as -> ->.
    destruct (ConversionFacts.resolved_content _ _ _ _ Hconv) as (Hsize & Hne & Hcomma & _).
    split; [reflexivity|]. split; [reflexivity|].
    split; [now exists blob|]. split; assumption.
  - exfalso. destruct (interval a); cbn in Htry; intuition discriminate.
Qed.

Lemma request_needs_audio_witness :
  let a := exchange (mkBlob [Byte.x01] (js "audio/webm")) "data:audio/webm;base64,AQ=="
             (mkResponse 200%N (Resolved (mkBody (Some (js "hello")) None))) in
  In (Fetch endpoint (js "AQ==")) (handleStopRecording a)
  /\ recorder a = true /\ js "AQ==" <> [] /\ ~ In 44%N (js "AQ==").
Proof.
  cbv zeta.
  assert (Hin : In (Fetch endpoint (js "AQ=="))
                  (handleStopRecording
                     (exchange (mkBlob [Byte.x01] (js "audio/webm"))
                        "data:audio/webm;base64,AQ=="
                        (mkResponse 200%N (Resolved (mkBody (Some (js "hello")) None))))))
    by exact (or_intror (or_intror (or_intror (or_introl eq_refl)))).
  split; [exact Hin|].
  destruct (request_needs_audio _ _ _ Hin) as (_ & H1 & _ & H2 & H3).
  split; [exact H1|]. split; [exact H2 | exact H3].
Defined.

End StopHandlerFacts.

(* ===================================================================== *)
(** ** Facts about the display of the recording time *)
(* ===================================================================== *)

Module RecordingTimeFacts.
Import MicrophoneButton.

Lemma number_digits (d : Decimal.uint) (acc : nat) :
  number acc (digits d) = Some (Nat.of_uint_acc d acc).
Proof.
  revert acc. induction d as [|d IH|d IH|d IH|d IH|d IH|d IH|d IH|d IH|d IH|d IH];
    intros acc; cbn [digits number Nat.of_uint_acc]; [reflexivity|..];
    change ((48 <=? _)%N && (_ <=? 57)%N) with true; cbv iota;
    rewrite IH; do 2 f_equal; rewrite Nat.tail_mul_spec;
    match goal with |- context [N.to_nat ?n] =>
      let v := eval cbv in (N.to_nat n) in change (N.to_nat n) with v end;
    lia.
Qed.

Lemma number_toString (n : nat) : number 0 (toString n) = Some n.
Proof.
  unfold toString. rewrite number_digits.
  change (Nat.of_uint_acc (Nat.to_uint n) 0) with (Nat.of_uint (Nat.to_uint n)).
  now rewrite DecimalNat.Unsigned.of_to.
Qed.

Lemma digits_no_colon (d : Decimal.uint) : ~ In 58%N (digits d).
Proof.
  induction d; cbn [digits In]; [intros [] |..]; intros [H|H];
    (discriminate H || exact (IHd H)).
Qed.

Lemma toString_nonempty (n : nat) : toString n <> [].
Proof.
  unfold toString. pose proof (DecimalNat.Unsigned.of_to n) as Hn.
  destruct (Nat.to_uint n) as [|d|d|d|d|d|d|d|d|d|d] eqn:E; try discriminate.
  cbn in Hn. subst n. discriminate E.
Qed.

(** The seconds of a minute are shown in two digits. *)
Lemma two_digits (k : nat) :
  k < 60 ->
  exists a b, padStart 2 48%N (toString k) = [a; b]
              /\ number 0 [a; b] = Some k /\ a <> 58%N /\ b <> 58%N.
Proof.
  do 60 (destruct k as [|k];
         [intros _; eexists _, _;
          split; [reflexivity | split; [reflexivity | split; discriminate]]|]).
  lia.
Qed.

(** The time shown, for a duration that is a safe integer as a count of
    seconds is: the minutes in decimal digits, a colon, the seconds of
    the minute in exactly two digits.  Reading the minutes and the
    seconds back gives the duration, so no two durations are shown
    alike. *)
Theorem recording_time_reads_back (seconds : nat) :
  (N.of_nat seconds < 9007199254740992)%N ->
  (exists a b, formatRecordingTime seconds = toString (seconds / 60) ++ [58%N; a; b])
  /\ parseRecordingTime (formatRecordingTime seconds) = Some seconds.
Proof.
  intros _.
  destruct (two_digits (seconds mod 60)) as (a & b & Hpad & Hnum & Ha & Hb).
  { apply Nat.mod_upper_bound. discriminate. }
  assert (Hformat : formatRecordingTime seconds = toString (seconds / 60) ++ [58%N; a; b]).
  { unfold formatRecordingTime. cbv zeta. now rewrite Hpad. }
  split; [now exists a, b|].
  rewrite Hformat. unfold parseRecordingTime.
  assert (Hsplit : split 58%N (toString (seconds / 60) ++ 58%N :: [a; b])
                   = [toString (seconds / 60); [a; b]]).
  { unfold split. rewrite ConversionFacts.split_pieces_first by apply digits_no_colon.
    rewrite ConversionFacts.split_pieces_none; [reflexivity|].
    cbn. intuition congruence. }
  unfold jsstring in *. rewrite Hsplit.
  pose proof (number_toString (seconds / 60)) as Hmins.
  pose proof (toString_nonempty (seconds / 60)) as Hne.
  destruct (toString (seconds / 60)) as [|c mins]; [contradiction|].
  cbv iota beta. unfold jsstring in *. rewrite Hmins, Hnum. cbn [mbind option_bind].
  f_equal. symmetry. apply Nat.div_mod_eq.
Qed.

Lemma recording_time_reads_back_witness :
  (exists a b, formatRecordingTime 75 = toString (75 / 60) ++ [58%N; a; b])
  /\ parseRecordingTime (formatRecordingTime 75) = Some 75.
Proof. exact (recording_time_reads_back 75 eq_refl). Defined.

End RecordingTimeFacts.
